(** * SpaceInvaderS: the simulation core of [main.cpp], embedded in Rocq.

    The C++ program keeps its state in a handful of globals and in the locals
    of [main] that the [main_loop] lambda captures by reference.  Here that
    state is one record, [Sim], and every block of the loop body is a function
    on it, in the order of the source.

    Conventions.
    - [std::size_t] is a 64-bit unsigned integer: a [Z] in [0, 2^64), every
      result reduced by [size_t].  [uint32_t] and [uint8_t] likewise.
    - [int] is a [Z]; signed overflow is undefined in C++ and stays outside the
      model (the values met are tiny).  The conversions between [int] and
      [size_t] that the source performs implicitly are written out.
    - [double] is Rocq's primitive binary64 float.
    - Indexing past the end of a container and integer division by zero are
      undefined behaviour in C++: the embedding stops with [Fault].  A loop
      without a bound gets fuel and stops with [OutOfFuel].
    - In the simulation a sprite is its width and height.  The functions that
      write pixels are embedded on their own, with the bytes of the sprites
      and the cells of the buffer, under "Drawing". *)

From Stdlib Require Import ZArith List Bool Lia Floats Uint63 Permutation.
Import ListNotations.
Open Scope Z_scope.

(** ** Machine integers *)

Definition size_t (z : Z) : Z := z mod 2 ^ 64.
Definition uint32_t (z : Z) : Z := z mod 2 ^ 32.
Definition uint8_t (z : Z) : Z := z mod 2 ^ 8.

(** [static_cast<int>] of an unsigned value: the low 32 bits, read as two's
    complement. *)
Definition to_int (z : Z) : Z :=
  let r := z mod 2 ^ 32 in if r <? 2 ^ 31 then r else r - 2 ^ 32.

(** ** Results of code that may leave defined behaviour *)

Inductive fault : Type :=
| OutOfRange
| DivByZero.

Inductive result (A : Type) : Type :=
| Done (a : A)
| OutOfFuel
| Fault (f : fault).

Arguments Done {A} a.
Arguments OutOfFuel {A}.
Arguments Fault {A} f.

Definition bind {A B : Type} (r : result A) (k : A -> result B) : result B :=
  match r with
  | Done a => k a
  | OutOfFuel => OutOfFuel
  | Fault f => Fault f
  end.

Notation "x <- c ;; k" := (bind c (fun x => k))
  (at level 61, c at next level, right associativity).
Notation "' p <- c ;; k" := (bind c (fun x => match x with p => k end))
  (at level 61, p pattern, c at next level, right associativity).

Definition is_done {A : Type} (r : result A) : bool :=
  match r with Done _ => true | _ => false end.

(** [v[i]] on a vector or array: a read and a write, both faulting outside
    the container. *)
Definition get {A : Type} (l : list A) (i : Z) : result A :=
  if i <? 0 then Fault OutOfRange
  else match nth_error l (Z.to_nat i) with
       | Some a => Done a
       | None => Fault OutOfRange
       end.

Fixpoint replace {A : Type} (l : list A) (n : nat) (a : A) : list A :=
  match l, n with
  | [], _ => []
  | _ :: l', O => a :: l'
  | b :: l', S n' => b :: replace l' n' a
  end.

Definition put {A : Type} (l : list A) (i : Z) (a : A) : result (list A) :=
  if (0 <=? i) && (i <? Z.of_nat (length l))
  then Done (replace l (Z.to_nat i) a)
  else Fault OutOfRange.

(** Integer division as C++ has it on unsigned operands. *)
Definition udiv (a b : Z) : result Z :=
  if b =? 0 then Fault DivByZero else Done (a / b).

Definition umod (a b : Z) : result Z :=
  if b =? 0 then Fault DivByZero else Done (a mod b).

(** ** Deterministic RNG *)

(** [uint32_t xorshift32(uint32_t* rng)]: the value returned and the new
    content of [*rng]. *)
Definition xorshift32 (rng : Z) : Z * Z :=
  let x := rng in
  let x := Z.lxor x (uint32_t (Z.shiftl x 13)) in
  let x := Z.lxor x (Z.shiftr x 17) in
  let x := Z.lxor x (uint32_t (Z.shiftl x 5)) in
  (x, x).

Definition uint32_max : Z := 4294967295.

Definition double_of_unsigned (z : Z) : float := PrimFloat.of_uint63 (Uint63.of_Z z).

(** [double random(uint32_t* rng)]. *)
Definition random (rng : Z) : float * Z :=
  let '(x, rng') := xorshift32 rng in
  (double_of_unsigned x / double_of_unsigned uint32_max, rng')%float.

(** [static_cast<size_t>] of a non-negative double: truncation. *)
Definition size_t_of_double (f : float) : Z :=
  match Prim2SF f with
  | S754_finite false m e =>
      if 0 <=? e then Z.shiftl (Zpos m) e else Z.shiftr (Zpos m) (- e)
  | _ => 0
  end.

(** ** Data model *)

Record Sprite : Type := mkSprite { sprite_width : Z; sprite_height : Z }.

Module Alien.
Record t : Type := mk { x : Z; y : Z; type : Z }.
End Alien.

Module Player.
Record t : Type := mk { x : Z; y : Z; lives : Z }.
End Player.

Module Bullet.
Record t : Type := mk { x : Z; y : Z; dir : Z }.
End Bullet.

(** [enum AlienType : uint8_t { DEAD, ALIEN1, ALIEN2, ALIEN3 }]. *)
Definition DEAD : Z := 0.
Definition ALIEN1 : Z := 1.
Definition ALIEN2 : Z := 2.
Definition ALIEN3 : Z := 3.

Definition game_max_bullets : Z := 128.

Record Game : Type := mkGame {
  width : Z;
  height : Z;
  num_aliens : Z;
  num_bullets : Z;
  aliens : list Alien.t;
  player : Player.t;
  bullets : list Bullet.t
}.

Record Sprite_animation : Type := mkAnim {
  loop : bool;
  num_frames : Z;
  frame_duration : Z;
  time : Z;
  frames : list Sprite
}.

(** The sprites of [main]. *)
Definition bullet_sprite : Sprite := mkSprite 1 3.
Definition alien_bullet_sprite : list Sprite := [mkSprite 3 7; mkSprite 3 7].
Definition alien_sprites : list Sprite :=
  [mkSprite 8 8; mkSprite 8 8; mkSprite 11 8; mkSprite 11 8; mkSprite 12 8; mkSprite 12 8].
Definition alien_death_sprite : Sprite := mkSprite 13 7.
Definition player_sprite : Sprite := mkSprite 11 7.

(** The globals and the captured locals of [main]. *)
Record Sim : Type := mkSim {
  game_running : bool;
  move_dir : Z;
  alien_move_dir : Z;
  fire_pressed : bool;
  should_change_speed : bool;
  aliens_killed : Z;
  alien_update_timer : Z;
  alien_swarm_position : Z;
  game : Game;
  alien_death_counter : list Z;
  alien_animation : list Sprite_animation;
  alien_bullet_animation : Sprite_animation;
  rng : Z;
  player_move : Z;
  score : Z;
  alien_swarm_max_position : Z;
  alien_update_frequency : Z
}.

(** Field updates. *)
Definition set_num_bullets (n : Z) (g : Game) : Game :=
  mkGame (width g) (height g) (num_aliens g) n (aliens g) (player g) (bullets g).
Definition set_aliens (l : list Alien.t) (g : Game) : Game :=
  mkGame (width g) (height g) (num_aliens g) (num_bullets g) l (player g) (bullets g).
Definition set_player (p : Player.t) (g : Game) : Game :=
  mkGame (width g) (height g) (num_aliens g) (num_bullets g) (aliens g) p (bullets g).
Definition set_bullets (l : list Bullet.t) (g : Game) : Game :=
  mkGame (width g) (height g) (num_aliens g) (num_bullets g) (aliens g) (player g) l.

Definition set_game_running (b : bool) (s : Sim) : Sim :=
  mkSim b (move_dir s) (alien_move_dir s) (fire_pressed s) (should_change_speed s)
    (aliens_killed s) (alien_update_timer s) (alien_swarm_position s) (game s)
    (alien_death_counter s) (alien_animation s) (alien_bullet_animation s) (rng s)
    (player_move s) (score s) (alien_swarm_max_position s) (alien_update_frequency s).
Definition set_move_dir (z : Z) (s : Sim) : Sim :=
  mkSim (game_running s) z (alien_move_dir s) (fire_pressed s) (should_change_speed s)
    (aliens_killed s) (alien_update_timer s) (alien_swarm_position s) (game s)
    (alien_death_counter s) (alien_animation s) (alien_bullet_animation s) (rng s)
    (player_move s) (score s) (alien_swarm_max_position s) (alien_update_frequency s).
Definition set_alien_move_dir (z : Z) (s : Sim) : Sim :=
  mkSim (game_running s) (move_dir s) z (fire_pressed s) (should_change_speed s)
    (aliens_killed s) (alien_update_timer s) (alien_swarm_position s) (game s)
    (alien_death_counter s) (alien_animation s) (alien_bullet_animation s) (rng s)
    (player_move s) (score s) (alien_swarm_max_position s) (alien_update_frequency s).
Definition set_fire_pressed (b : bool) (s : Sim) : Sim :=
  mkSim (game_running s) (move_dir s) (alien_move_dir s) b (should_change_speed s)
    (aliens_killed s) (alien_update_timer s) (alien_swarm_position s) (game s)
    (alien_death_counter s) (alien_animation s) (alien_bullet_animation s) (rng s)
    (player_move s) (score s) (alien_swarm_max_position s) (alien_update_frequency s).
Definition set_should_change_speed (b : bool) (s : Sim) : Sim :=
  mkSim (game_running s) (move_dir s) (alien_move_dir s) (fire_pressed s) b
    (aliens_killed s) (alien_update_timer s) (alien_swarm_position s) (game s)
    (alien_death_counter s) (alien_animation s) (alien_bullet_animation s) (rng s)
    (player_move s) (score s) (alien_swarm_max_position s) (alien_update_frequency s).
Definition set_aliens_killed (z : Z) (s : Sim) : Sim :=
  mkSim (game_running s) (move_dir s) (alien_move_dir s) (fire_pressed s) (should_change_speed s)
    z (alien_update_timer s) (alien_swarm_position s) (game s)
    (alien_death_counter s) (alien_animation s) (alien_bullet_animation s) (rng s)
    (player_move s) (score s) (alien_swarm_max_position s) (alien_update_frequency s).
Definition set_alien_update_timer (z : Z) (s : Sim) : Sim :=
  mkSim (game_running s) (move_dir s) (alien_move_dir s) (fire_pressed s) (should_change_speed s)
    (aliens_killed s) z (alien_swarm_position s) (game s)
    (alien_death_counter s) (alien_animation s) (alien_bullet_animation s) (rng s)
    (player_move s) (score s) (alien_swarm_max_position s) (alien_update_frequency s).
Definition set_alien_swarm_position (z : Z) (s : Sim) : Sim :=
  mkSim (game_running s) (move_dir s) (alien_move_dir s) (fire_pressed s) (should_change_speed s)
    (aliens_killed s) (alien_update_timer s) z (game s)
    (alien_death_counter s) (alien_animation s) (alien_bullet_animation s) (rng s)
    (player_move s) (score s) (alien_swarm_max_position s) (alien_update_frequency s).
Definition set_game (g : Game) (s : Sim) : Sim :=
  mkSim (game_running s) (move_dir s) (alien_move_dir s) (fire_pressed s) (should_change_speed s)
    (aliens_killed s) (alien_update_timer s) (alien_swarm_position s) g
    (alien_death_counter s) (alien_animation s) (alien_bullet_animation s) (rng s)
    (player_move s) (score s) (alien_swarm_max_position s) (alien_update_frequency s).
Definition set_alien_death_counter (l : list Z) (s : Sim) : Sim :=
  mkSim (game_running s) (move_dir s) (alien_move_dir s) (fire_pressed s) (should_change_speed s)
    (aliens_killed s) (alien_update_timer s) (alien_swarm_position s) (game s)
    l (alien_animation s) (alien_bullet_animation s) (rng s)
    (player_move s) (score s) (alien_swarm_max_position s) (alien_update_frequency s).
Definition set_alien_animation (l : list Sprite_animation) (s : Sim) : Sim :=
  mkSim (game_running s) (move_dir s) (alien_move_dir s) (fire_pressed s) (should_change_speed s)
    (aliens_killed s) (alien_update_timer s) (alien_swarm_position s) (game s)
    (alien_death_counter s) l (alien_bullet_animation s) (rng s)
    (player_move s) (score s) (alien_swarm_max_position s) (alien_update_frequency s).
Definition set_alien_bullet_animation (a : Sprite_animation) (s : Sim) : Sim :=
  mkSim (game_running s) (move_dir s) (alien_move_dir s) (fire_pressed s) (should_change_speed s)
    (aliens_killed s) (alien_update_timer s) (alien_swarm_position s) (game s)
    (alien_death_counter s) (alien_animation s) a (rng s)
    (player_move s) (score s) (alien_swarm_max_position s) (alien_update_frequency s).
Definition set_rng (z : Z) (s : Sim) : Sim :=
  mkSim (game_running s) (move_dir s) (alien_move_dir s) (fire_pressed s) (should_change_speed s)
    (aliens_killed s) (alien_update_timer s) (alien_swarm_position s) (game s)
    (alien_death_counter s) (alien_animation s) (alien_bullet_animation s) z
    (player_move s) (score s) (alien_swarm_max_position s) (alien_update_frequency s).
Definition set_player_move (z : Z) (s : Sim) : Sim :=
  mkSim (game_running s) (move_dir s) (alien_move_dir s) (fire_pressed s) (should_change_speed s)
    (aliens_killed s) (alien_update_timer s) (alien_swarm_position s) (game s)
    (alien_death_counter s) (alien_animation s) (alien_bullet_animation s) (rng s)
    z (score s) (alien_swarm_max_position s) (alien_update_frequency s).
Definition set_score (z : Z) (s : Sim) : Sim :=
  mkSim (game_running s) (move_dir s) (alien_move_dir s) (fire_pressed s) (should_change_speed s)
    (aliens_killed s) (alien_update_timer s) (alien_swarm_position s) (game s)
    (alien_death_counter s) (alien_animation s) (alien_bullet_animation s) (rng s)
    (player_move s) z (alien_swarm_max_position s) (alien_update_frequency s).
Definition set_alien_swarm_max_position (z : Z) (s : Sim) : Sim :=
  mkSim (game_running s) (move_dir s) (alien_move_dir s) (fire_pressed s) (should_change_speed s)
    (aliens_killed s) (alien_update_timer s) (alien_swarm_position s) (game s)
    (alien_death_counter s) (alien_animation s) (alien_bullet_animation s) (rng s)
    (player_move s) (score s) z (alien_update_frequency s).
Definition set_alien_update_frequency (z : Z) (s : Sim) : Sim :=
  mkSim (game_running s) (move_dir s) (alien_move_dir s) (fire_pressed s) (should_change_speed s)
    (aliens_killed s) (alien_update_timer s) (alien_swarm_position s) (game s)
    (alien_death_counter s) (alien_animation s) (alien_bullet_animation s) (rng s)
    (player_move s) (score s) (alien_swarm_max_position s) z.

Definition with_game (f : Game -> Game) (s : Sim) : Sim := set_game (f (game s)) s.

Definition set_frame_duration (d : Z) (a : Sprite_animation) : Sprite_animation :=
  mkAnim (loop a) (num_frames a) d (time a) (frames a).
Definition set_time (t : Z) (a : Sprite_animation) : Sprite_animation :=
  mkAnim (loop a) (num_frames a) (frame_duration a) t (frames a).

(** ** Input: [key_callback] *)

Inductive key : Type := KEY_ESCAPE | KEY_D | KEY_A | KEY_SPACE | KEY_OTHER.
Inductive action : Type := PRESS | RELEASE | REPEAT.

Definition is_press (a : action) : bool := match a with PRESS => true | _ => false end.
Definition is_release (a : action) : bool := match a with RELEASE => true | _ => false end.

Definition case_KEY_D (a : action) (s : Sim) : Sim :=
  if is_press a then set_move_dir (move_dir s + 1) s
  else if is_release a then set_move_dir (move_dir s - 1) s
  else s.

(** The [switch] of [key_callback].  [case GLFW_KEY_ESCAPE] has its [break]
    inside the [if], so any other action on Escape falls through into
    [case GLFW_KEY_D]. *)
Definition key_callback (k : key) (a : action) (s : Sim) : Sim :=
  match k with
  | KEY_ESCAPE =>
      if is_press a then set_game_running false s else case_KEY_D a s
  | KEY_D => case_KEY_D a s
  | KEY_A =>
      if is_press a then set_move_dir (move_dir s - 1) s
      else if is_release a then set_move_dir (move_dir s + 1) s
      else s
  | KEY_SPACE => if is_press a then set_fire_pressed true s else s
  | KEY_OTHER => s
  end.

(** [glfwPollEvents]: the callback runs once per queued event. *)
Definition glfwPollEvents (events : list (key * action)) (s : Sim) : Sim :=
  fold_left (fun s e => key_callback (fst e) (snd e) s) events s.

(** ** Geometry *)

(** [sprite_overlap_check]; all operands are [size_t]. *)
Definition sprite_overlap_check (sp_a : Sprite) (x_a y_a : Z)
                                (sp_b : Sprite) (x_b y_b : Z) : bool :=
  (x_a <? size_t (x_b + sprite_width sp_b)) &&
  (size_t (x_a + sprite_width sp_a) >? x_b) &&
  (y_a <? size_t (y_b + sprite_height sp_b)) &&
  (size_t (y_a + sprite_height sp_a) >? y_b).

(** An [int] operand converted to [size_t] by the usual arithmetic
    conversions. *)
Definition of_int (z : Z) : Z := z mod 2 ^ 64.

(** ** Loops *)

Inductive flow : Type := Next | Break.

(** [for (size_t i = from; i < n; ++i) body], for a bound the body leaves
    alone: [count] iterations unless the body breaks. *)
Fixpoint for_each (count : nat) (i : Z) (body : Z -> Sim -> result (flow * Sim))
                  (s : Sim) : result Sim :=
  match count with
  | O => Done s
  | S count' =>
      '(c, s') <- body i s ;;
      match c with
      | Break => Done s'
      | Next => for_each count' (i + 1) body s'
      end
  end.

(** [for (size_t i = from; cond; ++i) body], the condition read again on every
    round. *)
Fixpoint for_while (fuel : nat) (cond : Z -> Sim -> bool)
                   (body : Z -> Sim -> result (flow * Sim)) (i : Z) (s : Sim) : result Sim :=
  match fuel with
  | O => OutOfFuel
  | S fuel' =>
      if cond i s then
        '(c, s') <- body i s ;;
        match c with
        | Break => Done s'
        | Next => for_while fuel' cond body (i + 1) s'
        end
      else Done s
  end.

Definition all_aliens (s : Sim) : nat := Z.to_nat (num_aliens (game s)).

(** ** Drawing, as far as it can fault *)

(** The frame of an alien of kind [type] that is on screen:
    [*animation.frames[animation.time / animation.frame_duration]] for
    [animation = alien_animation[type - 1]]. *)
Definition current_sprite (s : Sim) (type : Z) : result Sprite :=
  animation <- get (alien_animation s) (type - 1) ;;
  current_frame <- udiv (time animation) (frame_duration animation) ;;
  get (frames animation) current_frame.

Definition draw_alien (i : Z) (s : Sim) : result (flow * Sim) :=
  counter <- get (alien_death_counter s) i ;;
  if counter =? 0 then Done (Next, s)
  else
    alien <- get (aliens (game s)) i ;;
    if Alien.type alien =? DEAD then Done (Next, s)
    else _ <- current_sprite s (Alien.type alien) ;; Done (Next, s).

Definition draw_bullet (i : Z) (s : Sim) : result (flow * Sim) :=
  bullet <- get (bullets (game s)) i ;;
  if Bullet.dir bullet >? 0 then Done (Next, s)
  else
    c <- udiv (time (alien_bullet_animation s)) (frame_duration (alien_bullet_animation s)) ;;
    _ <- get alien_bullet_sprite c ;;
    Done (Next, s).

(** The drawing part of a frame writes pixels only; what is kept of it are the
    reads that can leave defined behaviour. *)
Definition draw (s : Sim) : result Sim :=
  s <- for_each (all_aliens s) 0 draw_alien s ;;
  for_each (Z.to_nat (num_bullets (game s))) 0 draw_bullet s.

(** ** The vertical pass: "update aliens position after going beyond y" *)

Definition update_alien_position (i : Z) (s : Sim) : result (flow * Sim) :=
  alien <- get (aliens (game s)) i ;;
  if Alien.type alien =? DEAD then Done (Next, s)
  else if Alien.y alien >? height (game s) then
    x <- umod (rng s) (alien_swarm_max_position s) ;;
    l <- put (aliens (game s)) i (Alien.mk x 0 DEAD) ;;
    Done (Next, set_alien_move_dir (alien_move_dir s - 1) (with_game (set_aliens l) s))
  else
    l <- put (aliens (game s)) i
           (Alien.mk (Alien.x alien) (size_t (Alien.y alien + of_int (alien_move_dir s)))
                     (Alien.type alien)) ;;
    Done (Next, with_game (set_aliens l) s).

(** [if (alien_update_frequency-- == 0) { alien_update_frequency = 120; ... }] *)
Definition update_aliens_position (s : Sim) : result Sim :=
  let before := alien_update_frequency s in
  let s := set_alien_update_frequency (size_t (before - 1)) s in
  if before =? 0 then
    let s := set_alien_update_frequency 120 s in
    for_each (all_aliens s) 0 update_alien_position s
  else Done s.

(** ** Bullets *)

(** [game.bullets[i] = game.bullets[game.num_bullets - 1]; --game.num_bullets;] *)
Definition remove_bullet (i : Z) (s : Sim) : result Sim :=
  let g := game s in
  last <- get (bullets g) (size_t (num_bullets g - 1)) ;;
  l <- put (bullets g) i last ;;
  Done (with_game (fun g => set_num_bullets (size_t (num_bullets g - 1)) (set_bullets l g)) s).

(** The block "Check if player bullet hits an alien bullet".  Its loop
    variable shadows the outer [i]; every comparison of the source is kept as
    written, [i == i] and [(i < i) ? i : i] included. *)
Definition bullet_vs_bullet_body (i : Z) (s : Sim) : result (flow * Sim) :=
  if i =? i then Done (Next, s)
  else
    b <- get (bullets (game s)) i ;;
    other <- get alien_bullet_sprite 0 ;;
    if sprite_overlap_check bullet_sprite (Bullet.x b) (Bullet.y b)
                            other (Bullet.x b) (Bullet.y b)
    then
      let n := num_bullets (game s) in
      l <- (if i =? size_t (n - 1) then
              b2 <- get (bullets (game s)) (size_t (n - 2)) ;;
              put (bullets (game s)) i b2
            else if i =? size_t (n - 1) then
              b2 <- get (bullets (game s)) (size_t (n - 2)) ;;
              put (bullets (game s)) i b2
            else
              b1 <- get (bullets (game s)) (size_t (n - 1)) ;;
              l1 <- put (bullets (game s)) (if i <? i then i else i) b1 ;;
              b2 <- get l1 (size_t (n - 2)) ;;
              put l1 (if i <? i then i else i) b2) ;;
      Done (Break, with_game (fun g => set_num_bullets (size_t (n - 2)) (set_bullets l g)) s)
    else Done (Next, s).

Definition bullets_left (i : Z) (s : Sim) : bool := i <? num_bullets (game s).

Definition bullet_vs_bullet (s : Sim) : result Sim :=
  for_while (S (Z.to_nat (num_bullets (game s)))) bullets_left bullet_vs_bullet_body 0 s.

(** The body of [if (sprite_overlap_check(...))] in "Check hit": bullet [i]
    has hit alien [j], whose frame on screen is [alien_sprite]. *)
Definition hit_alien (i j : Z) (alien_sprite : Sprite) (s : Sim) : result Sim :=
  alien <- get (aliens (game s)) j ;;
  let s := set_score (size_t (score s + of_int (10 * (4 - Alien.type alien)))) s in
  let shift := size_t (sprite_width alien_death_sprite - sprite_width alien_sprite) / 2 in
  l <- put (aliens (game s)) j
         (Alien.mk (size_t (Alien.x alien - shift)) (Alien.y alien) DEAD) ;;
  let s := with_game (set_aliens l) s in
  s <- remove_bullet i s ;;
  let s := set_aliens_killed (aliens_killed s + 1) s in
  Done (if Z.rem (aliens_killed s) 15 =? 0 then set_should_change_speed true s else s).

Definition check_hit (i j : Z) (s : Sim) : result (flow * Sim) :=
  alien <- get (aliens (game s)) j ;;
  if Alien.type alien =? DEAD then Done (Next, s)
  else
    alien_sprite <- current_sprite s (Alien.type alien) ;;
    b <- get (bullets (game s)) i ;;
    if sprite_overlap_check bullet_sprite (Bullet.x b) (Bullet.y b)
                            alien_sprite (Alien.x alien) (Alien.y alien)
    then s' <- hit_alien i j alien_sprite s ;; Done (Break, s')
    else Done (Next, s).

(** "Check hit": the aliens in index order, until the first one hit. *)
Definition check_hits (i : Z) (s : Sim) : result Sim :=
  for_each (all_aliens s) 0 (check_hit i) s.

(** One round of "Simulate bullets". *)
Definition simulate_bullet (i : Z) (s : Sim) : result (flow * Sim) :=
  b <- get (bullets (game s)) i ;;
  let b := Bullet.mk (Bullet.x b) (size_t (Bullet.y b + of_int (Bullet.dir b))) (Bullet.dir b) in
  l <- put (bullets (game s)) i b ;;
  let s := with_game (set_bullets l) s in
  if (Bullet.y b >=? height (game s)) || (Bullet.y b <? sprite_height bullet_sprite) then
    s <- remove_bullet i s ;; Done (Next, s)
  else if Bullet.dir b <? 0 then
    shot <- get alien_bullet_sprite 0 ;;
    let p := player (game s) in
    if sprite_overlap_check shot (Bullet.x b) (Bullet.y b)
                            player_sprite (Player.x p) (Player.y p)
    then
      let s := with_game (set_player
                 (Player.mk (Player.x p) (Player.y p) (size_t (Player.lives p - 1)))) s in
      s <- remove_bullet i s ;; Done (Break, s)
    else Done (Next, s)
  else
    s <- bullet_vs_bullet s ;;
    s <- check_hits i s ;;
    Done (Next, s).

Definition simulate_bullets (s : Sim) : result Sim :=
  for_while (S (Z.to_nat (num_bullets (game s)))) bullets_left simulate_bullet 0 s.

(** ** Aliens *)

(** "Simulate aliens": the difficulty ramp. *)
Definition change_speed (s : Sim) : Sim :=
  if should_change_speed s then
    let s := set_should_change_speed false s in
    let s := set_alien_update_frequency (alien_update_frequency s / 2) s in
    set_alien_animation
      (map (set_frame_duration (alien_update_frequency s)) (alien_animation s)) s
  else s.

(** "counting deaths". *)
Definition count_death (i : Z) (s : Sim) : result (flow * Sim) :=
  alien <- get (aliens (game s)) i ;;
  counter <- get (alien_death_counter s) i ;;
  if (Alien.type alien =? DEAD) && negb (counter =? 0) then
    l <- put (alien_death_counter s) i (uint8_t (counter - 1)) ;;
    Done (Next, set_alien_death_counter l s)
  else Done (Next, s).

Definition count_deaths (s : Sim) : result Sim :=
  for_each (all_aliens s) 0 count_death s.

(** [alien.y -= 8] and [alien.x += alien_move_dir] over the whole vector. *)
Definition descend (ai : Z) (s : Sim) : result (flow * Sim) :=
  alien <- get (aliens (game s)) ai ;;
  l <- put (aliens (game s)) ai
         (Alien.mk (Alien.x alien) (size_t (Alien.y alien - 8)) (Alien.type alien)) ;;
  Done (Next, with_game (set_aliens l) s).

Definition march (ai : Z) (s : Sim) : result (flow * Sim) :=
  alien <- get (aliens (game s)) ai ;;
  l <- put (aliens (game s)) ai
         (Alien.mk (size_t (Alien.x alien + of_int (alien_move_dir s))) (Alien.y alien)
                   (Alien.type alien)) ;;
  Done (Next, with_game (set_aliens l) s).

(** [static_cast<size_t>(game.num_aliens * random(&rng))]. *)
Definition random_alien (s : Sim) : Z * Sim :=
  let '(r, rng') := random (rng s) in
  (size_t_of_double (double_of_unsigned (num_aliens (game s)) * r)%float, set_rng rng' s).

(** [while (game.aliens[rai].type == AlienType::DEAD) rai = ...;]: the source
    gives the loop no bound. *)
Fixpoint pick_alive (fuel : nat) (rai : Z) (s : Sim) : result (Z * Sim) :=
  match fuel with
  | O => OutOfFuel
  | S fuel' =>
      alien <- get (aliens (game s)) rai ;;
      if Alien.type alien =? DEAD then
        let '(rai', s') := random_alien s in pick_alive fuel' rai' s'
      else Done (rai, s)
  end.

(** The alien bullet of a formation step. *)
Definition alien_fire (fuel : nat) (s : Sim) : result Sim :=
  if of_int (aliens_killed s) <? num_aliens (game s) then
    let '(rai, s) := random_alien s in
    '(rai, s) <- pick_alive fuel rai s ;;
    alien <- get (aliens (game s)) rai ;;
    animation <- get (alien_animation s) (Alien.type alien - 1) ;;
    alien_sprite <- get (frames animation) 0 ;;
    shot <- get alien_bullet_sprite 0 ;;
    let b := Bullet.mk (size_t (Alien.x alien + sprite_width alien_sprite / 2))
                       (size_t (Alien.y alien - sprite_height shot)) (-2) in
    l <- put (bullets (game s)) (num_bullets (game s)) b ;;
    Done (with_game (fun g => set_num_bullets (size_t (num_bullets g + 1)) (set_bullets l g)) s)
  else Done s.

(** [if (alien_update_timer >= alien_update_frequency) { ... }] *)
Definition formation_step (fuel : nat) (s : Sim) : result Sim :=
  if alien_update_timer s >=? alien_update_frequency s then
    let s := set_alien_update_timer 0 s in
    s <- (if to_int (alien_swarm_position s) + alien_move_dir s <? 0 then
            let s := set_alien_move_dir (alien_move_dir s * -1) s in
            for_each (all_aliens s) 0 descend s
          else if alien_swarm_position s
                  >? size_t (alien_swarm_max_position s - of_int (alien_move_dir s)) then
            Done (set_alien_move_dir (alien_move_dir s * -1) s)
          else Done s) ;;
    let s := set_alien_swarm_position
               (size_t (alien_swarm_position s + of_int (alien_move_dir s))) s in
    s <- for_each (all_aliens s) 0 march s ;;
    alien_fire fuel s
  else Done s.

(** ** Animation clocks and the step timer *)

Definition advance (a : Sprite_animation) : Sprite_animation :=
  let a := set_time (size_t (time a + 1)) a in
  if time a >=? size_t (num_frames a * frame_duration a) then set_time 0 a else a.

Definition update_animations (s : Sim) : Sim :=
  let s := set_alien_animation (map advance (alien_animation s)) s in
  let s := set_alien_bullet_animation (advance (alien_bullet_animation s)) s in
  set_alien_update_timer (size_t (alien_update_timer s + 1)) s.

(** ** Player *)

Definition set_player_x (x : Z) (s : Sim) : Sim :=
  let p := player (game s) in
  with_game (set_player (Player.mk x (Player.y p) (Player.lives p))) s.

(** "simulating player". *)
Definition simulate_player (s : Sim) : Sim :=
  let s := set_player_move (2 * move_dir s) s in
  if player_move s =? 0 then s
  else
    let x := Player.x (player (game s)) in
    if size_t (x + sprite_width player_sprite + of_int (player_move s)) >=? width (game s)
    then set_player_x (size_t (width (game s) - sprite_width player_sprite)) s
    else if to_int x + player_move s <=? 0 then set_player_x 0 s
    else set_player_x (size_t (x + of_int (player_move s))) s.

(** ** Swarm bounds and the wave reset *)

(** [while (game.aliens[ai].type == AlienType::DEAD) ++ai;] and its mirror
    with [--ai].  Every round reads the vector, so running off either end
    faults within [length + 1] rounds. *)
Fixpoint skip_dead (fuel : nat) (step : Z) (ai : Z) (l : list Alien.t) : result Z :=
  match fuel with
  | O => OutOfFuel
  | S fuel' =>
      alien <- get l ai ;;
      if Alien.type alien =? DEAD then skip_dead fuel' step (size_t (ai + step)) l
      else Done ai
  end.

Definition track_bounds (s : Sim) : result Sim :=
  let l := aliens (game s) in
  ai <- skip_dead (S (length l)) 1 0 l ;;
  alien <- get l ai ;;
  sprite <- get alien_sprites (2 * (Alien.type alien - 1)) ;;
  let pos := size_t (Alien.x alien
               - size_t (sprite_width alien_death_sprite - sprite_width sprite) / 2) in
  let s := if pos >? alien_swarm_position s then set_alien_swarm_position pos s else s in
  ai <- skip_dead (S (length l)) (-1) (size_t (num_aliens (game s) - 1)) l ;;
  alien <- get l ai ;;
  let pos := size_t (width (game s) - Alien.x alien - 13 + pos) in
  Done (if pos >? alien_swarm_max_position s then set_alien_swarm_max_position pos s else s).

Definition reset_alien (xi yi : Z) (s : Sim) : result (flow * Sim) :=
  let ai := size_t (xi * 5 + yi) in
  counters <- put (alien_death_counter s) ai 10 ;;
  let s := set_alien_death_counter counters s in
  _ <- get (aliens (game s)) ai ;;
  let type := uint8_t (size_t (5 - yi) / 2 + 1) in
  sprite <- get alien_sprites (2 * (type - 1)) ;;
  let x := size_t (16 * xi + alien_swarm_position s
                   + size_t (sprite_width alien_death_sprite - sprite_width sprite) / 2) in
  let y := size_t (17 * yi + 128) in
  l <- put (aliens (game s)) ai (Alien.mk x y type) ;;
  Done (Next, with_game (set_aliens l) s).

Definition reset_column (xi : Z) (s : Sim) : result (flow * Sim) :=
  s <- for_each 5 0 (reset_alien xi) s ;; Done (Next, s).

Definition reset_wave (s : Sim) : result Sim :=
  let s := set_alien_update_frequency 120 s in
  let s := set_alien_swarm_position 24 s in
  let s := set_aliens_killed 0 s in
  let s := set_alien_update_timer 0 s in
  let s := set_alien_move_dir 4 s in
  for_each 11 0 reset_column s.

Definition bounds_or_reset (s : Sim) : result Sim :=
  if of_int (aliens_killed s) <? num_aliens (game s) then track_bounds s
  else reset_wave s.

(** ** Fire: "process events" *)

Definition process_events (s : Sim) : result Sim :=
  s <- (if fire_pressed s && (num_bullets (game s) <? game_max_bullets) then
          let p := player (game s) in
          let b := Bullet.mk (size_t (Player.x p + sprite_width player_sprite / 2))
                             (Player.y p) 2 in
          l <- put (bullets (game s)) (num_bullets (game s)) b ;;
          Done (with_game (fun g => set_num_bullets (size_t (num_bullets g + 1))
                                      (set_bullets l g)) s)
        else Done s) ;;
  Done (set_fire_pressed false s).

(** ** One round of the game loop *)

(** The simulation part of the loop body, in the order of the source. *)
Definition simulate (fuel : nat) (s : Sim) : result Sim :=
  s <- update_aliens_position s ;;
  s <- simulate_bullets s ;;
  let s := change_speed s in
  s <- count_deaths s ;;
  s <- formation_step fuel s ;;
  let s := update_animations s in
  let s := simulate_player s in
  s <- bounds_or_reset s ;;
  process_events s.

(** The body of [while (!glfwWindowShouldClose(window) && game_running)]:
    [events] are the key events that [glfwPollEvents] delivers at its end. *)
Definition frame (fuel : nat) (events : list (key * action)) (s : Sim) : result Sim :=
  if Player.lives (player (game s)) =? 0 then Done (glfwPollEvents events s)
  else
    s <- draw s ;;
    s <- simulate fuel s ;;
    Done (glfwPollEvents events s).

(** The loop: one list of events per frame; the window closes when the input
    ends. *)
Fixpoint main_loop (fuel : nat) (input : list (list (key * action))) (s : Sim) : result Sim :=
  match input with
  | [] => Done s
  | events :: input' =>
      if game_running s then s' <- frame fuel events s ;; main_loop fuel input' s'
      else Done s
  end.

(** ** The state [main] sets up before the loop *)

Definition position_alien (i j : Z) (s : Sim) : result (flow * Sim) :=
  alien <- get (aliens (game s)) (size_t (i * 11 + j)) ;;
  l <- put (aliens (game s)) (size_t (i * 11 + j))
         (Alien.mk (size_t (17 * j + 22)) (size_t (17 * i + 128)) (Alien.type alien)) ;;
  Done (Next, with_game (set_aliens l) s).

Definition spread_alien (yi xi : Z) (s : Sim) : result (flow * Sim) :=
  _ <- get (aliens (game s)) (size_t (yi * 11 + xi)) ;;
  let type := uint8_t (size_t (5 - yi) / 2 + 1) in
  sprite <- get alien_sprites (2 * (type - 1)) ;;
  let x := size_t (16 * xi + alien_swarm_position s
                   + size_t (sprite_width alien_death_sprite - sprite_width sprite) / 2) in
  let y := size_t (17 * yi + 128) in
  l <- put (aliens (game s)) (size_t (yi * 11 + xi)) (Alien.mk x y type) ;;
  Done (Next, with_game (set_aliens l) s).

Definition rows (body : Z -> Z -> Sim -> result (flow * Sim)) (s : Sim) : result Sim :=
  for_each 5 0 (fun i s => s <- for_each 11 0 (body i) s ;; Done (Next, s)) s.

Definition alien_frames (i : Z) : list Sprite :=
  match get alien_sprites (2 * i), get alien_sprites (2 * i + 1) with
  | Done a, Done b => [a; b]
  | _, _ => []
  end.

(** Everything [main] and the global initialisers fix before the aliens are
    placed. *)
Definition blank : Sim :=
  {| game_running := true;
     move_dir := 0;
     alien_move_dir := 4;
     fire_pressed := false;
     should_change_speed := false;
     aliens_killed := 0;
     alien_update_timer := 0;
     alien_swarm_position := 24;
     game := {| width := 224; height := 256; num_aliens := 55; num_bullets := 0;
                aliens := repeat (Alien.mk 0 0 0) 55;
                player := Player.mk (112 - 5) 32 3;
                bullets := repeat (Bullet.mk 0 0 0) (Z.to_nat game_max_bullets) |};
     alien_death_counter := repeat 10 55;
     alien_animation := map (fun i => mkAnim true 2 10 0 (alien_frames i)) [0; 1; 2];
     alien_bullet_animation := mkAnim true 2 5 0 alien_bullet_sprite;
     rng := 13;
     player_move := 0;
     score := 0;
     alien_swarm_max_position := 224 - 16 * 11 - 3;
     alien_update_frequency := 120 |}.

(** "positioning aliens", then "spread the aliens". *)
Definition setup : result Sim :=
  s <- rows position_alien blank ;;
  rows spread_alien s.

Definition initial : Sim :=
  match setup with Done s => s | _ => blank end.

(** ** Notions used by the properties *)

(** What a frame can change once the game is over: the three globals that
    [key_callback] writes.  Everything else agrees. *)
Definition same_simulation (s s' : Sim) : Prop :=
  alien_move_dir s' = alien_move_dir s /\
  should_change_speed s' = should_change_speed s /\
  aliens_killed s' = aliens_killed s /\
  alien_update_timer s' = alien_update_timer s /\
  alien_swarm_position s' = alien_swarm_position s /\
  game s' = game s /\
  alien_death_counter s' = alien_death_counter s /\
  alien_animation s' = alien_animation s /\
  alien_bullet_animation s' = alien_bullet_animation s /\
  rng s' = rng s /\
  player_move s' = player_move s /\
  score s' = score s /\
  alien_swarm_max_position s' = alien_swarm_max_position s /\
  alien_update_frequency s' = alien_update_frequency s.

(** The player at the left wall with six units of leftward intent, as six
    [KEY_A] presses with no release between them would leave it. *)
Definition six_left : list (key * action) := repeat (KEY_A, PRESS) 6.
Definition at_left_wall : Sim := glfwPollEvents six_left (set_player_x 0 initial).

(** The alien that stands in column [xi] of row [yi] when a wave starts: the
    kind comes from the row, [x] is centred for the width of that kind's
    first frame on the swarm offset 24. *)
Definition fresh_alien (xi yi : Z) : Alien.t :=
  let type := (5 - yi) / 2 + 1 in
  let sprite_w := if type =? ALIEN1 then 8 else if type =? ALIEN2 then 11 else 12 in
  Alien.mk (16 * xi + 24 + (13 - sprite_w) / 2) (17 * yi + 128) type.

(** A fresh game with one player bullet inside the first alien of the top
    row (index 44, kind 1), and the state the hit loop leaves. *)
Definition one_shot : Sim :=
  with_game (fun g => set_num_bullets 1
                        (set_bullets (replace (bullets g) 0 (Bullet.mk 28 196 2)) g)) initial.

Definition after_shot : Sim :=
  match check_hits 0 one_shot with Done s => s | _ => one_shot end.

(** ** The order of the steps *)

Definition step : Type := Sim -> result Sim.

Definition always (f : Sim -> Sim) : step := fun s => Done (f s).

(** Steps run one after the other; the first that does not end normally ends
    the run. *)
Definition in_order (steps : list step) (s : Sim) : result Sim :=
  fold_left (fun r f => bind r f) steps (Done s).

(** The order in which the loop body of [main.cpp] has the steps. *)
Definition source_order (fuel : nat) : list step :=
  [ update_aliens_position;
    simulate_bullets;
    always change_speed;
    count_deaths;
    formation_step fuel;
    always update_animations;
    always simulate_player;
    bounds_or_reset;
    process_events ].

(** The order as the specification words it: bullets and collisions first,
    the vertical pass second. *)
Definition specified_order (fuel : nat) : list step :=
  [ simulate_bullets;
    update_aliens_position;
    always change_speed;
    count_deaths;
    formation_step fuel;
    always update_animations;
    always simulate_player;
    bounds_or_reset;
    process_events ].

(** A run of 120 frames from the start with one press of the space bar,
    delivered at the end of frame 74, and the state it reaches: the vertical
    pass is due in the next frame while the player's bullet is just below the
    bottom row. *)
Definition one_press : list (list (key * action)) :=
  repeat [] 73 ++ [[(KEY_SPACE, PRESS)]] ++ repeat [] 46.

Definition before_wrap : Sim :=
  match main_loop 64 one_press initial with Done s => s | _ => initial end.

Definition score_of (r : result Sim) : Z :=
  match r with Done s => score s | _ => -1 end.

(** ** The generator as a linear map over GF(2) *)

(** The state after one call. *)
Definition next (rng : Z) : Z := snd (xorshift32 rng).

(** One line of the generator: [x ^= shift x]. *)
Definition stage (shift : Z -> Z) (x : Z) : Z := Z.lxor x (shift x).

Definition linear (f : Z -> Z) : Prop :=
  f 0 = 0 /\ forall a b, f (Z.lxor a b) = Z.lxor (f a) (f b).

(** A linear map on bit vectors, given by the images of the unit vectors
    [2^0, 2^1, ...]: the image of [x] is the xor of the columns at the set
    bits of [x]. *)
Fixpoint apply (columns : list Z) (x : Z) : Z :=
  match columns with
  | [] => 0
  | c :: columns' => Z.lxor (if Z.odd x then c else 0) (apply columns' (Z.div2 x))
  end.

(** [apply (compose a b) x = apply a (apply b x)]. *)
Definition compose (a b : list Z) : list Z := map (apply a) b.

Fixpoint unit_vectors (i : Z) (n : nat) : list Z :=
  match n with
  | O => []
  | S n' => 2 ^ i :: unit_vectors (i + 1) n'
  end.

Definition xorshift_matrix : list Z := map next (unit_vectors 0 32).

(** The matrix of [p] calls, by repeated squaring. *)
Fixpoint power (p : positive) : list Z :=
  match p with
  | xH => xorshift_matrix
  | xO p' => let a := power p' in compose a a
  | xI p' => let a := power p' in compose xorshift_matrix (compose a a)
  end.

(** The number of calls after which the state is [state_before_one], and
    that state: the next call returns [2^32 - 1]. *)
Definition calls_before_one : positive := 4202370164.
Definition state_before_one : Z := 1584200935.

(** ** Recorded games *)

(** Runs of frames: [(n, events)] stands for [n] frames that each deliver
    [events]. *)
Definition recorded (runs : list (Z * list (key * action))) : list (list (key * action)) :=
  flat_map (fun r => repeat (snd r) (Z.to_nat (fst r))) runs.

(** Fuel for the loop that picks a live alien, ample for the recorded
    games. *)
Definition patience : nat := Z.to_nat 4096.

(** A frame up to, and without, the formation step. *)
Definition until_formation (s : Sim) : result Sim :=
  s <- draw s ;;
  s <- update_aliens_position s ;;
  s <- simulate_bullets s ;;
  count_deaths (change_speed s).

(** And from the formation step on. *)
Definition from_formation (fuel : nat) (events : list (key * action)) (s : Sim) : result Sim :=
  s <- formation_step fuel s ;;
  let s := update_animations s in
  let s := simulate_player s in
  s <- bounds_or_reset s ;;
  s <- process_events s ;;
  Done (glfwPollEvents events s).

Definition all_dead (s : Sim) : Prop :=
  Forall (fun a => Alien.type a = DEAD) (aliens (game s)).

(** The guard before the loop that picks a live alien:
    [aliens_killed < game.num_aliens]. *)
Definition guard_holds (s : Sim) : Prop :=
  of_int (aliens_killed s) < num_aliens (game s).

(** The keys of a game of 6826 frames. *)
Definition doomed_input : list (list (key * action)) :=
  recorded
   [(1, [(KEY_D, PRESS)]);
    (6049, []);
    (1, [(KEY_D, RELEASE); (KEY_A, PRESS)]);
    (17, []);
    (1, [(KEY_SPACE, PRESS)]);
    (1, [(KEY_A, RELEASE)]);
    (4, []);
    (1, [(KEY_A, PRESS)]);
    (7, []);
    (1, [(KEY_A, RELEASE); (KEY_SPACE, RELEASE); (KEY_SPACE, PRESS)]);
    (6, []);
    (1, [(KEY_A, PRESS)]);
    (6, []);
    (1, [(KEY_SPACE, RELEASE); (KEY_SPACE, PRESS)]);
    (1, [(KEY_A, RELEASE); (KEY_SPACE, RELEASE); (KEY_SPACE, PRESS)]);
    (4, [(KEY_SPACE, RELEASE); (KEY_SPACE, PRESS)]);
    (1, [(KEY_A, PRESS)]);
    (6, []);
    (1, [(KEY_SPACE, RELEASE); (KEY_SPACE, PRESS)]);
    (1, []);
    (1, [(KEY_SPACE, RELEASE); (KEY_SPACE, PRESS)]);
    (1, [(KEY_A, RELEASE); (KEY_SPACE, RELEASE); (KEY_SPACE, PRESS)]);
    (2, [(KEY_SPACE, RELEASE); (KEY_SPACE, PRESS)]);
    (1, []);
    (1, [(KEY_A, PRESS)]);
    (6, []);
    (1, [(KEY_SPACE, RELEASE); (KEY_SPACE, PRESS)]);
    (1, [(KEY_A, RELEASE); (KEY_SPACE, RELEASE); (KEY_SPACE, PRESS)]);
    (5, [(KEY_SPACE, RELEASE); (KEY_SPACE, PRESS)]);
    (1, [(KEY_A, PRESS)]);
    (6, []);
    (1, [(KEY_SPACE, RELEASE); (KEY_SPACE, PRESS)]);
    (1, [(KEY_A, RELEASE); (KEY_SPACE, RELEASE); (KEY_SPACE, PRESS)]);
    (1, [(KEY_SPACE, RELEASE); (KEY_SPACE, PRESS)]);
    (1, [(KEY_A, PRESS); (KEY_SPACE, RELEASE); (KEY_SPACE, PRESS)]);
    (1, [(KEY_SPACE, RELEASE); (KEY_SPACE, PRESS)]);
    (1, [(KEY_A, RELEASE); (KEY_SPACE, RELEASE); (KEY_SPACE, PRESS)]);
    (1, [(KEY_SPACE, RELEASE); (KEY_SPACE, PRESS)]);
    (1, [(KEY_A, PRESS)]);
    (6, []);
    (1, [(KEY_SPACE, RELEASE); (KEY_SPACE, PRESS)]);
    (1, [(KEY_A, RELEASE); (KEY_SPACE, RELEASE); (KEY_SPACE, PRESS)]);
    (2, [(KEY_SPACE, RELEASE); (KEY_SPACE, PRESS)]);
    (1, [(KEY_A, PRESS); (KEY_SPACE, RELEASE); (KEY_SPACE, PRESS)]);
    (1, [(KEY_SPACE, RELEASE); (KEY_SPACE, PRESS)]);
    (1, [(KEY_A, RELEASE); (KEY_SPACE, RELEASE); (KEY_SPACE, PRESS)]);
    (1, [(KEY_A, PRESS)]);
    (8, []);
    (1, [(KEY_A, RELEASE); (KEY_SPACE, RELEASE); (KEY_SPACE, PRESS)]);
    (1, [(KEY_A, PRESS)]);
    (1, []);
    (1, [(KEY_SPACE, RELEASE); (KEY_SPACE, PRESS)]);
    (7, []);
    (1, [(KEY_SPACE, RELEASE); (KEY_SPACE, PRESS)]);
    (1, [(KEY_A, RELEASE); (KEY_SPACE, RELEASE); (KEY_SPACE, PRESS)]);
    (2, [(KEY_SPACE, RELEASE); (KEY_SPACE, PRESS)]);
    (1, [(KEY_A, PRESS)]);
    (6, []);
    (1, [(KEY_SPACE, RELEASE); (KEY_SPACE, PRESS)]);
    (1, [(KEY_A, RELEASE); (KEY_SPACE, RELEASE); (KEY_SPACE, PRESS)]);
    (2, [(KEY_SPACE, RELEASE); (KEY_SPACE, PRESS)]);
    (1, [(KEY_D, PRESS)]);
    (22, []);
    (2, [(KEY_SPACE, RELEASE); (KEY_SPACE, PRESS)]);
    (1, [(KEY_D, RELEASE); (KEY_SPACE, RELEASE); (KEY_SPACE, PRESS)]);
    (11, [(KEY_SPACE, RELEASE); (KEY_SPACE, PRESS)]);
    (1, [(KEY_D, PRESS); (KEY_SPACE, RELEASE); (KEY_SPACE, PRESS)]);
    (55, []);
    (1, [(KEY_D, RELEASE)]);
    (1, [(KEY_D, PRESS)]);
    (5, []);
    (1, [(KEY_D, RELEASE)]);
    (54, []);
    (1, [(KEY_SPACE, RELEASE); (KEY_SPACE, PRESS)]);
    (2, []);
    (1, [(KEY_D, PRESS)]);
    (1, []);
    (1, [(KEY_D, RELEASE)]);
    (9, []);
    (1, [(KEY_D, PRESS)]);
    (5, []);
    (1, [(KEY_SPACE, RELEASE); (KEY_SPACE, PRESS)]);
    (1, []);
    (1, [(KEY_D, RELEASE)]);
    (9, []);
    (1, [(KEY_D, PRESS)]);
    (1, []);
    (1, [(KEY_D, RELEASE)]);
    (12, []);
    (1, [(KEY_A, PRESS)]);
    (2, []);
    (1, [(KEY_A, RELEASE)]);
    (4, []);
    (1, [(KEY_A, PRESS)]);
    (1, []);
    (1, [(KEY_A, RELEASE)]);
    (1, []);
    (1, [(KEY_A, PRESS)]);
    (5, []);
    (1, [(KEY_A, RELEASE)]);
    (57, []);
    (1, [(KEY_A, PRESS)]);
    (1, []);
    (1, [(KEY_A, RELEASE)]);
    (8, []);
    (1, [(KEY_SPACE, RELEASE); (KEY_SPACE, PRESS)]);
    (12, []);
    (1, [(KEY_A, PRESS)]);
    (8, []);
    (1, [(KEY_SPACE, RELEASE); (KEY_SPACE, PRESS)]);
    (1, [(KEY_A, RELEASE)]);
    (1, [(KEY_D, PRESS)]);
    (1, []);
    (1, [(KEY_D, RELEASE)]);
    (1, [(KEY_A, PRESS)]);
    (1, []);
    (1, [(KEY_A, RELEASE)]);
    (1, [(KEY_D, PRESS)]);
    (1, []);
    (1, [(KEY_D, RELEASE)]);
    (1, [(KEY_A, PRESS)]);
    (3, []);
    (1, [(KEY_A, RELEASE)]);
    (1, [(KEY_D, PRESS)]);
    (1, []);
    (1, [(KEY_D, RELEASE)]);
    (1, [(KEY_A, PRESS)]);
    (3, []);
    (1, [(KEY_A, RELEASE)]);
    (1, [(KEY_A, PRESS)]);
    (5, []);
    (1, [(KEY_A, RELEASE)]);
    (1, [(KEY_D, PRESS)]);
    (1, []);
    (1, [(KEY_D, RELEASE)]);
    (1, [(KEY_A, PRESS)]);
    (1, []);
    (1, [(KEY_A, RELEASE)]);
    (1, [(KEY_D, PRESS)]);
    (1, []);
    (1, [(KEY_D, RELEASE)]);
    (1, [(KEY_A, PRESS)]);
    (1, []);
    (1, [(KEY_A, RELEASE)]);
    (1, [(KEY_D, PRESS)]);
    (1, []);
    (1, [(KEY_D, RELEASE)]);
    (1, [(KEY_A, PRESS)]);
    (1, []);
    (1, [(KEY_A, RELEASE)]);
    (1, [(KEY_D, PRESS)]);
    (1, []);
    (1, [(KEY_D, RELEASE)]);
    (1, [(KEY_A, PRESS)]);
    (1, []);
    (1, [(KEY_A, RELEASE)]);
    (1, [(KEY_D, PRESS)]);
    (1, []);
    (1, [(KEY_D, RELEASE)]);
    (1, [(KEY_A, PRESS)]);
    (1, []);
    (1, [(KEY_A, RELEASE)]);
    (1, [(KEY_D, PRESS)]);
    (1, []);
    (1, [(KEY_D, RELEASE)]);
    (1, [(KEY_A, PRESS)]);
    (1, []);
    (1, [(KEY_A, RELEASE)]);
    (1, [(KEY_D, PRESS)]);
    (1, []);
    (1, [(KEY_D, RELEASE)]);
    (1, [(KEY_A, PRESS)]);
    (1, []);
    (1, [(KEY_A, RELEASE)]);
    (1, [(KEY_D, PRESS)]);
    (1, []);
    (1, [(KEY_D, RELEASE)]);
    (1, [(KEY_A, PRESS)]);
    (1, []);
    (1, [(KEY_A, RELEASE)]);
    (1, [(KEY_D, PRESS)]);
    (1, []);
    (1, [(KEY_D, RELEASE)]);
    (1, [(KEY_A, PRESS)]);
    (1, []);
    (1, [(KEY_A, RELEASE)]);
    (1, [(KEY_D, PRESS)]);
    (1, []);
    (1, [(KEY_D, RELEASE)]);
    (1, [(KEY_D, PRESS)]);
    (1, []);
    (1, [(KEY_D, RELEASE)]);
    (1, [(KEY_A, PRESS)]);
    (1, []);
    (1, [(KEY_A, RELEASE)]);
    (1, [(KEY_D, PRESS)]);
    (1, []);
    (1, [(KEY_D, RELEASE)]);
    (1, [(KEY_A, PRESS)]);
    (1, []);
    (1, [(KEY_A, RELEASE)]);
    (1, [(KEY_D, PRESS)]);
    (1, []);
    (1, [(KEY_D, RELEASE)]);
    (1, [(KEY_A, PRESS)]);
    (1, []);
    (1, [(KEY_A, RELEASE)]);
    (1, [(KEY_D, PRESS)]);
    (1, []);
    (1, [(KEY_D, RELEASE)]);
    (1, [(KEY_A, PRESS)]);
    (1, []);
    (1, [(KEY_A, RELEASE)]);
    (1, [(KEY_D, PRESS)]);
    (1, []);
    (1, [(KEY_D, RELEASE); (KEY_SPACE, RELEASE); (KEY_SPACE, PRESS)]);
    (1, [(KEY_A, PRESS)]);
    (1, []);
    (1, [(KEY_A, RELEASE)]);
    (1, [(KEY_D, PRESS)]);
    (3, []);
    (1, [(KEY_D, RELEASE)]);
    (1, [(KEY_A, PRESS)]);
    (1, []);
    (1, [(KEY_A, RELEASE)]);
    (1, [(KEY_D, PRESS)]);
    (1, []);
    (1, [(KEY_D, RELEASE)]);
    (1, [(KEY_A, PRESS)]);
    (21, []);
    (2, [(KEY_SPACE, RELEASE); (KEY_SPACE, PRESS)]);
    (1, [(KEY_A, RELEASE); (KEY_SPACE, RELEASE); (KEY_SPACE, PRESS)]);
    (1, [(KEY_D, PRESS); (KEY_SPACE, RELEASE); (KEY_SPACE, PRESS)]);
    (1, [(KEY_SPACE, RELEASE); (KEY_SPACE, PRESS)]);
    (1, [(KEY_D, RELEASE); (KEY_SPACE, RELEASE); (KEY_SPACE, PRESS)]);
    (1, [(KEY_A, PRESS); (KEY_SPACE, RELEASE); (KEY_SPACE, PRESS)]);
    (1, [(KEY_SPACE, RELEASE); (KEY_SPACE, PRESS)]);
    (1, [(KEY_A, RELEASE); (KEY_SPACE, RELEASE); (KEY_SPACE, PRESS)]);
    (1, [(KEY_D, PRESS); (KEY_SPACE, RELEASE); (KEY_SPACE, PRESS)]);
    (1, [(KEY_SPACE, RELEASE); (KEY_SPACE, PRESS)]);
    (1, [(KEY_D, RELEASE); (KEY_SPACE, RELEASE); (KEY_SPACE, PRESS)]);
    (1, [(KEY_A, PRESS)]);
    (7, []);
    (2, [(KEY_SPACE, RELEASE); (KEY_SPACE, PRESS)]);
    (1, [(KEY_A, RELEASE); (KEY_SPACE, RELEASE); (KEY_SPACE, PRESS)]);
    (1, [(KEY_D, PRESS); (KEY_SPACE, RELEASE); (KEY_SPACE, PRESS)]);
    (1, [(KEY_SPACE, RELEASE); (KEY_SPACE, PRESS)]);
    (1, [(KEY_D, RELEASE); (KEY_SPACE, RELEASE); (KEY_SPACE, PRESS)]);
    (1, [(KEY_A, PRESS); (KEY_SPACE, RELEASE); (KEY_SPACE, PRESS)]);
    (1, [(KEY_SPACE, RELEASE); (KEY_SPACE, PRESS)]);
    (1, [(KEY_A, RELEASE); (KEY_SPACE, RELEASE); (KEY_SPACE, PRESS)]);
    (1, [(KEY_D, PRESS); (KEY_SPACE, RELEASE); (KEY_SPACE, PRESS)]);
    (1, [(KEY_SPACE, RELEASE); (KEY_SPACE, PRESS)]);
    (1, [(KEY_D, RELEASE); (KEY_A, PRESS)]);
    (3, []);
    (1, [(KEY_SPACE, RELEASE); (KEY_SPACE, PRESS)]);
    (1, [(KEY_A, RELEASE)]);
    (10, [(KEY_SPACE, RELEASE); (KEY_SPACE, PRESS)]);
    (1, [(KEY_A, PRESS)]);
    (17, []);
    (1, [(KEY_A, RELEASE); (KEY_D, PRESS); (KEY_SPACE, RELEASE); (KEY_SPACE, PRESS)]);
    (2, [(KEY_SPACE, RELEASE); (KEY_SPACE, PRESS)]);
    (1, [(KEY_D, RELEASE); (KEY_SPACE, RELEASE); (KEY_SPACE, PRESS)]);
    (2, [(KEY_SPACE, RELEASE); (KEY_SPACE, PRESS)]);
    (35, []);
    (1, [(KEY_D, PRESS)]);
    (58, []);
    (1, [(KEY_SPACE, RELEASE); (KEY_SPACE, PRESS)]);
    (1, [(KEY_D, RELEASE)]);
    (3, [])].


(** The state that game reaches, and the state of its next frame when the
    formation step begins. *)
Definition last_stand :=
  Eval vm_compute in
    match main_loop patience doomed_input initial with Done s => s | _ => initial end.

Definition no_alien_left :=
  Eval vm_compute in
    match until_formation last_stand with Done s => s | _ => last_stand end.
(** The keys of a game of 357 frames, the space bar hit in nearly every one. *)
Definition crowded_input : list (list (key * action)) :=
  recorded
   [(1, [(KEY_A, PRESS); (KEY_SPACE, PRESS)]);
    (1, [(KEY_SPACE, RELEASE); (KEY_SPACE, PRESS)]);
    (1, []);
    (1, [(KEY_A, RELEASE)]);
    (16, []);
    (1, [(KEY_D, PRESS)]);
    (1, []);
    (1, [(KEY_D, RELEASE)]);
    (13, []);
    (1, [(KEY_D, PRESS)]);
    (6, []);
    (1, [(KEY_D, RELEASE)]);
    (5, []);
    (1, [(KEY_D, PRESS)]);
    (10, []);
    (1, [(KEY_D, RELEASE)]);
    (1, []);
    (1, [(KEY_D, PRESS)]);
    (2, []);
    (1, [(KEY_D, RELEASE)]);
    (1, []);
    (5, [(KEY_SPACE, RELEASE); (KEY_SPACE, PRESS)]);
    (1, [(KEY_A, PRESS); (KEY_SPACE, RELEASE); (KEY_SPACE, PRESS)]);
    (1, [(KEY_A, RELEASE); (KEY_SPACE, RELEASE); (KEY_SPACE, PRESS)]);
    (1, [(KEY_D, PRESS); (KEY_SPACE, RELEASE); (KEY_SPACE, PRESS)]);
    (1, [(KEY_D, RELEASE); (KEY_SPACE, RELEASE); (KEY_SPACE, PRESS)]);
    (1, [(KEY_D, PRESS); (KEY_SPACE, RELEASE); (KEY_SPACE, PRESS)]);
    (1, [(KEY_SPACE, RELEASE); (KEY_SPACE, PRESS)]);
    (1, [(KEY_D, RELEASE)]);
    (4, [(KEY_SPACE, RELEASE); (KEY_SPACE, PRESS)]);
    (1, [(KEY_D, PRESS); (KEY_SPACE, RELEASE); (KEY_SPACE, PRESS)]);
    (1, [(KEY_D, RELEASE); (KEY_SPACE, RELEASE); (KEY_SPACE, PRESS)]);
    (1, [(KEY_D, PRESS); (KEY_SPACE, RELEASE); (KEY_SPACE, PRESS)]);
    (1, [(KEY_D, RELEASE); (KEY_SPACE, RELEASE); (KEY_SPACE, PRESS)]);
    (2, []);
    (1, [(KEY_D, PRESS); (KEY_SPACE, RELEASE); (KEY_SPACE, PRESS)]);
    (4, [(KEY_SPACE, RELEASE); (KEY_SPACE, PRESS)]);
    (1, []);
    (7, [(KEY_SPACE, RELEASE); (KEY_SPACE, PRESS)]);
    (1, [(KEY_D, RELEASE); (KEY_SPACE, RELEASE); (KEY_SPACE, PRESS)]);
    (3, [(KEY_SPACE, RELEASE); (KEY_SPACE, PRESS)]);
    (1, [(KEY_A, PRESS)]);
    (1, []);
    (1, [(KEY_A, RELEASE); (KEY_SPACE, RELEASE); (KEY_SPACE, PRESS)]);
    (6, [(KEY_SPACE, RELEASE); (KEY_SPACE, PRESS)]);
    (1, [(KEY_A, PRESS); (KEY_SPACE, RELEASE); (KEY_SPACE, PRESS)]);
    (6, [(KEY_SPACE, RELEASE); (KEY_SPACE, PRESS)]);
    (1, [(KEY_A, RELEASE); (KEY_SPACE, RELEASE); (KEY_SPACE, PRESS)]);
    (4, []);
    (1, [(KEY_D, PRESS)]);
    (1, [(KEY_D, RELEASE)]);
    (2, []);
    (1, [(KEY_A, PRESS)]);
    (1, []);
    (23, [(KEY_SPACE, RELEASE); (KEY_SPACE, PRESS)]);
    (1, [(KEY_A, RELEASE); (KEY_SPACE, RELEASE); (KEY_SPACE, PRESS)]);
    (3, [(KEY_SPACE, RELEASE); (KEY_SPACE, PRESS)]);
    (1, [(KEY_A, PRESS); (KEY_SPACE, RELEASE); (KEY_SPACE, PRESS)]);
    (3, [(KEY_SPACE, RELEASE); (KEY_SPACE, PRESS)]);
    (1, []);
    (1, [(KEY_A, RELEASE)]);
    (1, [(KEY_SPACE, RELEASE); (KEY_SPACE, PRESS)]);
    (1, [(KEY_D, PRESS); (KEY_SPACE, RELEASE); (KEY_SPACE, PRESS)]);
    (1, [(KEY_D, RELEASE); (KEY_SPACE, RELEASE); (KEY_SPACE, PRESS)]);
    (4, [(KEY_SPACE, RELEASE); (KEY_SPACE, PRESS)]);
    (1, [(KEY_A, PRESS); (KEY_SPACE, RELEASE); (KEY_SPACE, PRESS)]);
    (10, [(KEY_SPACE, RELEASE); (KEY_SPACE, PRESS)]);
    (1, [(KEY_A, RELEASE); (KEY_SPACE, RELEASE); (KEY_SPACE, PRESS)]);
    (2, [(KEY_SPACE, RELEASE); (KEY_SPACE, PRESS)]);
    (1, [(KEY_A, PRESS); (KEY_SPACE, RELEASE); (KEY_SPACE, PRESS)]);
    (4, [(KEY_SPACE, RELEASE); (KEY_SPACE, PRESS)]);
    (2, []);
    (34, [(KEY_SPACE, RELEASE); (KEY_SPACE, PRESS)]);
    (1, []);
    (1, [(KEY_A, RELEASE); (KEY_D, PRESS)]);
    (1, []);
    (1, [(KEY_D, RELEASE); (KEY_A, PRESS)]);
    (1, [(KEY_A, RELEASE)]);
    (4, []);
    (1, [(KEY_A, PRESS)]);
    (1, []);
    (2, [(KEY_SPACE, RELEASE); (KEY_SPACE, PRESS)]);
    (1, [(KEY_A, RELEASE); (KEY_D, PRESS); (KEY_SPACE, RELEASE); (KEY_SPACE, PRESS)]);
    (1, [(KEY_SPACE, RELEASE); (KEY_SPACE, PRESS)]);
    (1, [(KEY_D, RELEASE); (KEY_A, PRESS); (KEY_SPACE, RELEASE); (KEY_SPACE, PRESS)]);
    (10, [(KEY_SPACE, RELEASE); (KEY_SPACE, PRESS)]);
    (1, [(KEY_A, RELEASE); (KEY_D, PRESS); (KEY_SPACE, RELEASE); (KEY_SPACE, PRESS)]);
    (6, [(KEY_SPACE, RELEASE); (KEY_SPACE, PRESS)]);
    (1, [(KEY_D, RELEASE); (KEY_SPACE, RELEASE); (KEY_SPACE, PRESS)]);
    (1, [(KEY_D, PRESS); (KEY_SPACE, RELEASE); (KEY_SPACE, PRESS)]);
    (1, [(KEY_SPACE, RELEASE); (KEY_SPACE, PRESS)]);
    (1, [(KEY_D, RELEASE); (KEY_SPACE, RELEASE); (KEY_SPACE, PRESS)]);
    (1, [(KEY_SPACE, RELEASE); (KEY_SPACE, PRESS)]);
    (1, [(KEY_D, PRESS); (KEY_SPACE, RELEASE); (KEY_SPACE, PRESS)]);
    (4, [(KEY_SPACE, RELEASE); (KEY_SPACE, PRESS)]);
    (1, [(KEY_D, RELEASE); (KEY_SPACE, RELEASE); (KEY_SPACE, PRESS)]);
    (4, [(KEY_SPACE, RELEASE); (KEY_SPACE, PRESS)]);
    (1, [(KEY_A, PRESS); (KEY_SPACE, RELEASE); (KEY_SPACE, PRESS)]);
    (1, [(KEY_A, RELEASE); (KEY_D, PRESS); (KEY_SPACE, RELEASE); (KEY_SPACE, PRESS)]);
    (1, [(KEY_SPACE, RELEASE); (KEY_SPACE, PRESS)]);
    (1, [(KEY_D, RELEASE); (KEY_SPACE, RELEASE); (KEY_SPACE, PRESS)]);
    (1, [(KEY_SPACE, RELEASE); (KEY_SPACE, PRESS)]);
    (1, [(KEY_D, PRESS); (KEY_SPACE, RELEASE); (KEY_SPACE, PRESS)]);
    (1, [(KEY_SPACE, RELEASE); (KEY_SPACE, PRESS)]);
    (1, [(KEY_D, RELEASE); (KEY_SPACE, RELEASE); (KEY_SPACE, PRESS)]);
    (59, [(KEY_SPACE, RELEASE); (KEY_SPACE, PRESS)]);
    (1, [(KEY_D, PRESS); (KEY_SPACE, RELEASE); (KEY_SPACE, PRESS)]);
    (4, [(KEY_SPACE, RELEASE); (KEY_SPACE, PRESS)]);
    (1, [(KEY_D, RELEASE); (KEY_SPACE, RELEASE); (KEY_SPACE, PRESS)]);
    (1, [(KEY_D, PRESS); (KEY_SPACE, RELEASE); (KEY_SPACE, PRESS)]);
    (2, [(KEY_SPACE, RELEASE); (KEY_SPACE, PRESS)]);
    (1, [(KEY_D, RELEASE); (KEY_A, PRESS); (KEY_SPACE, RELEASE); (KEY_SPACE, PRESS)]);
    (1, [(KEY_A, RELEASE); (KEY_SPACE, RELEASE); (KEY_SPACE, PRESS)]);
    (1, [(KEY_SPACE, RELEASE); (KEY_SPACE, PRESS)]);
    (1, [(KEY_A, PRESS); (KEY_SPACE, RELEASE); (KEY_SPACE, PRESS)]);
    (1, [(KEY_SPACE, RELEASE); (KEY_SPACE, PRESS)])].

(** The state that game reaches, and the state of its next frame when the
    formation step begins. *)
Definition crowded :=
  Eval vm_compute in
    match main_loop patience crowded_input initial with Done s => s | _ => initial end.

Definition pool_full :=
  Eval vm_compute in
    match until_formation crowded with Done s => s | _ => crowded end.

(** The bullet pool is full. *)
Definition full (s : Sim) : Prop :=
  num_bullets (game s) = game_max_bullets /\
  length (bullets (game s)) = Z.to_nat game_max_bullets.

(** ** Colours *)

(** [inline auto rgb_uint32(uint8_t red, uint8_t green, uint8_t blue) ->
    uint32_t]: the three bytes are promoted to [int], so every shift is an
    [int] (reduced to 32 bits in two's complement, as C++20 has it), and the
    result is converted to [uint32_t] on return. *)
Definition rgb_uint32 (red green blue : Z) : Z :=
  uint32_t (Z.lor (Z.lor (Z.lor (to_int (Z.shiftl red 24)) (to_int (Z.shiftl green 16)))
                         (to_int (Z.shiftl blue 8)))
                  255).

(** ** The period of the generator *)

Definition full_period : positive := 4294967295.

(** ** Keys *)

(** What one key event adds to [move_dir]. *)
Definition intent_of (e : key * action) : Z :=
  match e with
  | (KEY_D, PRESS) => 1
  | (KEY_D, RELEASE) => -1
  | (KEY_A, PRESS) => -1
  | (KEY_A, RELEASE) => 1
  | (KEY_ESCAPE, RELEASE) => -1
  | _ => 0
  end.

Definition sum (l : list Z) : Z := fold_right Z.add 0 l.

(** ** What a frame leaves alone *)

(** The fixed part of an animation. *)
Definition still (a : Sprite_animation) : bool * Z * list Sprite :=
  (loop a, num_frames a, frames a).

(** The sizes of the vectors, the playfield, the fixed parts of the animations
    and the row of the player. *)
Definition shape (s : Sim) :=
  (length (aliens (game s)), length (bullets (game s)), length (alien_death_counter s),
   (map still (alien_animation s), still (alien_bullet_animation s)),
   (num_aliens (game s), width (game s), height (game s)),
   Player.y (player (game s))).

(** The shape and the lives of the player: what every step but the bullet
    loop leaves alone. *)
Definition kept (s : Sim) := (shape s, Player.lives (player (game s))).

(** ** Counting *)

(** The aliens of the vector that are Dead. *)
Definition dead_count (s : Sim) : Z :=
  Z.of_nat (length (filter (fun a => Alien.type a =? DEAD) (aliens (game s)))).

(** ** A game that stops the alien animations *)

(** The keys of a game of 118 frames, the space bar hit in every one, and the
    state it reaches.  In the frame after it the fifteenth alien falls, while
    the countdown shared by the vertical pass and the formation step stands
    at 1. *)
Definition ramp_input : list (list (key * action)) :=
  recorded
   [(1, [(KEY_A, PRESS); (KEY_SPACE, PRESS)]);
    (4, [(KEY_SPACE, RELEASE); (KEY_SPACE, PRESS)]);
    (1, [(KEY_A, RELEASE); (KEY_SPACE, RELEASE); (KEY_SPACE, PRESS)]);
    (19, [(KEY_SPACE, RELEASE); (KEY_SPACE, PRESS)]);
    (1, [(KEY_A, PRESS); (KEY_SPACE, RELEASE); (KEY_SPACE, PRESS)]);
    (4, [(KEY_SPACE, RELEASE); (KEY_SPACE, PRESS)]);
    (1, [(KEY_A, RELEASE); (KEY_D, PRESS); (KEY_SPACE, RELEASE); (KEY_SPACE, PRESS)]);
    (59, [(KEY_SPACE, RELEASE); (KEY_SPACE, PRESS)]);
    (1, [(KEY_D, RELEASE); (KEY_A, PRESS); (KEY_SPACE, RELEASE); (KEY_SPACE, PRESS)]);
    (27, [(KEY_SPACE, RELEASE); (KEY_SPACE, PRESS)])].

Definition ramp_eve :=
  Eval vm_compute in
    match main_loop patience ramp_input initial with Done s => s | _ => initial end.

(** The next frame when the difficulty ramp is due, and the state that frame
    ends in. *)
Definition before_ramp :=
  Eval vm_compute in
    match (s <- draw ramp_eve ;; s <- update_aliens_position s ;; simulate_bullets s)
    with Done s => s | _ => initial end.

Definition stalled :=
  Eval vm_compute in
    match frame patience [] ramp_eve with Done s => s | _ => initial end.

(** Every alien is Dead or of one of the kinds that have an animation. *)
Definition known_kinds (s : Sim) : Prop :=
  Forall (fun a => 0 <= Alien.type a <= Z.of_nat (length (alien_animation s))) (aliens (game s)).

(** No alien animation has time left in a frame. *)
Definition stopped (s : Sim) : Prop :=
  Forall (fun a => frame_duration a = 0) (alien_animation s).

(** ** Drawing *)

(** [struct Buffer]: the pixels of the window, row by row from the bottom. *)
Module Buffer.
Record t : Type := mk { width : Z; height : Z; m_data : list Z }.
End Buffer.

(** [struct Sprite] with its pixels.  [m_data] is a pointer into an array of
    bytes: here the array, [bytes], and the offset of the first byte of the
    sprite in it. *)
Module Bitmap.
Record t : Type := mk { width : Z; height : Z; bytes : list Z; m_data : Z }.
End Bitmap.

(** [for (size_t i = from; i < n; ++i) body] over a state of any type. *)
Fixpoint repeat_for {S : Type} (count : nat) (i : Z) (body : Z -> S -> result S) (s : S)
  : result S :=
  match count with
  | O => Done s
  | S count' => s' <- body i s ;; repeat_for count' (i + 1) body s'
  end.

(** [buffer_clear]: the counter [i] is an [unsigned int], compared with the
    [size_t] product of the sides. *)
Fixpoint clear_from (fuel : nat) (i : Z) (color : Z) (bfr : Buffer.t) : result Buffer.t :=
  match fuel with
  | O => OutOfFuel
  | S fuel' =>
      if i <? size_t (Buffer.width bfr * Buffer.height bfr) then
        data <- put (Buffer.m_data bfr) i color ;;
        clear_from fuel' (uint32_t (i + 1)) color
                   (Buffer.mk (Buffer.width bfr) (Buffer.height bfr) data)
      else Done bfr
  end.

Definition buffer_clear (fuel : nat) (bfr : Buffer.t) (color : Z) : result Buffer.t :=
  clear_from fuel 0 color bfr.

(** The body of the two loops of [buf_sprt_draw]. *)
Definition plot (sprt : Bitmap.t) (x y color xi yi : Z) (bfr : Buffer.t) : result Buffer.t :=
  let sy := size_t (Bitmap.height sprt - 1 + y - yi) in
  let sx := size_t (x + xi) in
  lit <- get (Bitmap.bytes sprt) (Bitmap.m_data sprt + size_t (yi * Bitmap.width sprt + xi)) ;;
  if negb (lit =? 0) && (sy <? Buffer.height bfr) && (sx <? Buffer.width bfr) then
    data <- put (Buffer.m_data bfr) (size_t (sy * Buffer.width bfr + sx)) color ;;
    Done (Buffer.mk (Buffer.width bfr) (Buffer.height bfr) data)
  else Done bfr.

Definition buf_sprt_draw (bfr : Buffer.t) (sprt : Bitmap.t) (x y color : Z) : result Buffer.t :=
  repeat_for (Z.to_nat (Bitmap.width sprt)) 0
    (fun xi => repeat_for (Z.to_nat (Bitmap.height sprt)) 0 (plot sprt x y color xi))
    bfr.

(** [char] as a signed byte, and the sprite of one character of a sheet:
    [sheet.m_data + character * stride]. *)
Definition to_char (z : Z) : Z := (z + 128) mod 256 - 128.

Definition glyph (sheet : Bitmap.t) (character : Z) : Bitmap.t :=
  let stride := size_t (Bitmap.width sheet * Bitmap.height sheet) in
  Bitmap.mk (Bitmap.width sheet) (Bitmap.height sheet) (Bitmap.bytes sheet)
            (Bitmap.m_data sheet + size_t (of_int character * stride)).

(** [buffer_draw_text]: [text] holds the characters up to the terminator, [xp]
    starts as [x]. *)
Fixpoint buffer_draw_text (buffer : Buffer.t) (text_spritesheet : Bitmap.t) (text : list Z)
                          (xp y color : Z) : result Buffer.t :=
  match text with
  | [] => Done buffer
  | c :: text' =>
      if c =? 0 then Done buffer
      else
        let character := to_char (c - 32) in
        if (character <? 0) || (character >=? 65)
        then buffer_draw_text buffer text_spritesheet text' xp y color
        else
          buffer <- buf_sprt_draw buffer (glyph text_spritesheet character) xp y color ;;
          buffer_draw_text buffer text_spritesheet text'
                           (size_t (xp + Bitmap.width text_spritesheet + 1)) y color
  end.

(** The [do ... while (current_number > 0)] of [buffer_draw_number]. *)
Fixpoint split_digits (fuel : nat) (digits : list Z) (num_digits current_number : Z)
  : result (list Z * Z) :=
  match fuel with
  | O => OutOfFuel
  | S fuel' =>
      digits <- put digits num_digits (uint8_t (current_number mod 10)) ;;
      let num_digits := size_t (num_digits + 1) in
      let current_number := current_number / 10 in
      if current_number >? 0 then split_digits fuel' digits num_digits current_number
      else Done (digits, num_digits)
  end.

Definition draw_digit (sheet : Bitmap.t) (digits : list Z) (num_digits y color i : Z)
                      (pen : Buffer.t * Z) : result (Buffer.t * Z) :=
  let '(buffer, xp) := pen in
  digit <- get digits (size_t (num_digits - i - 1)) ;;
  buffer <- buf_sprt_draw buffer (glyph sheet digit) xp y color ;;
  Done (buffer, size_t (xp + Bitmap.width sheet + 1)).

Definition buffer_draw_number (fuel : nat) (buffer : Buffer.t) (number_spritesheet : Bitmap.t)
                              (number x y color : Z) : result Buffer.t :=
  '(digits, num_digits) <- split_digits fuel (repeat 0 64) 0 number ;;
  '(buffer, _) <- repeat_for (Z.to_nat num_digits) 0
                    (draw_digit number_spritesheet digits num_digits y color) (buffer, x) ;;
  Done buffer.

(** The pixel of the sprite at column [xi] and row [yi] is set, and
    [buf_sprt_draw] at [(x, y)] puts it on the cell [j] of the buffer. *)
Definition lands (bfr : Buffer.t) (sprt : Bitmap.t) (x y xi yi j : Z) : Prop :=
  0 <= xi < Bitmap.width sprt /\ 0 <= yi < Bitmap.height sprt /\
  (exists lit, get (Bitmap.bytes sprt) (Bitmap.m_data sprt + (yi * Bitmap.width sprt + xi))
               = Done lit /\ lit <> 0) /\
  size_t (Bitmap.height sprt - 1 + y - yi) < Buffer.height bfr /\
  size_t (x + xi) < Buffer.width bfr /\
  j = size_t (Bitmap.height sprt - 1 + y - yi) * Buffer.width bfr + size_t (x + xi).

(** The characters [buffer_draw_text] has a sprite for: the 65 from the
    space, 32, to the backquote, 96. *)
Definition shown (c : Z) : bool := (32 <=? c) && (c <=? 96).

(** The number sheet of [main]: [number_spritesheet.m_data += 16 * 35] on a
    copy of the text sheet, 35 being the bytes of one character. *)
Definition number_sheet (text_spritesheet : Bitmap.t) : Bitmap.t :=
  Bitmap.mk (Bitmap.width text_spritesheet) (Bitmap.height text_spritesheet)
            (Bitmap.bytes text_spritesheet)
            (Bitmap.m_data text_spritesheet
             + 16 * (Bitmap.width text_spritesheet * Bitmap.height text_spritesheet)).

(** The characters of the digits that [buffer_draw_number] finds, in the
    order it draws them: ['0' + digit]. *)
Definition digit_text (fuel : nat) (number : Z) : list Z :=
  match split_digits fuel (repeat 0 64) 0 number with
  | Done (digits, num_digits) => map (Z.add 48) (rev (firstn (Z.to_nat num_digits) digits))
  | _ => []
  end.

(** ** A bullet and the aliens it passes *)

(** The alien [other] does not stop the bullet [b] in "Check hit": it is
    Dead, or its frame on screen does not overlap the bullet. *)
Definition clear_of (b : Bullet.t) (other : Alien.t) (s : Sim) : Prop :=
  Alien.type other = DEAD \/
  exists sprite,
    current_sprite s (Alien.type other) = Done sprite /\
    sprite_overlap_check bullet_sprite (Bullet.x b) (Bullet.y b)
                         sprite (Alien.x other) (Alien.y other) = false.

(** ** The keys as GLFW reports them *)

(** The keys that [key_callback] acts on with more than a flag: down or up. *)
Record Held : Type := mkHeld { held_escape : bool; held_d : bool; held_a : bool }.

Definition released : Held := mkHeld false false false.

(** What GLFW passes to a key callback.  For one key the events alternate: a
    press when the key is up, then repeats while it is down, then one release;
    a press of a key that is down is reported as a repeat, and a release of a
    key that is up is not reported.  [glfw_key h e] is the state of the keys
    after the event [e], and [None] for an event that GLFW does not deliver
    in the state [h].  The space bar and the keys without a case of their own
    in [key_callback] are left free. *)
Definition glfw_key (h : Held) (e : key * action) : option Held :=
  match e with
  | (KEY_ESCAPE, PRESS) =>
      if held_escape h then None else Some (mkHeld true (held_d h) (held_a h))
  | (KEY_ESCAPE, RELEASE) =>
      if held_escape h then Some (mkHeld false (held_d h) (held_a h)) else None
  | (KEY_ESCAPE, REPEAT) => if held_escape h then Some h else None
  | (KEY_D, PRESS) =>
      if held_d h then None else Some (mkHeld (held_escape h) true (held_a h))
  | (KEY_D, RELEASE) =>
      if held_d h then Some (mkHeld (held_escape h) false (held_a h)) else None
  | (KEY_D, REPEAT) => if held_d h then Some h else None
  | (KEY_A, PRESS) =>
      if held_a h then None else Some (mkHeld (held_escape h) (held_d h) true)
  | (KEY_A, RELEASE) =>
      if held_a h then Some (mkHeld (held_escape h) (held_d h) false) else None
  | (KEY_A, REPEAT) => if held_a h then Some h else None
  | (KEY_SPACE, _) | (KEY_OTHER, _) => Some h
  end.

Fixpoint glfw_events (h : Held) (events : list (key * action)) : option Held :=
  match events with
  | [] => Some h
  | e :: events' =>
      match glfw_key h e with
      | Some h' => glfw_events h' events'
      | None => None
      end
  end.

(** The intent of the keys that are down: one to the right for D, one to the
    left for A. *)
Definition held_intent (h : Held) : Z :=
  (if held_d h then 1 else 0) - (if held_a h then 1 else 0).

(** Where the player stands and is headed, and whether the game goes on. *)
Definition stand (s : Sim) : Z * Z * bool * Z :=
  (Player.x (player (game s)), move_dir s, game_running s, width (game s)).

(** A game of 54 frames with the A key held down from the first, which
    brings the player from the middle of the field to [x = 1]. *)
Definition hold_left : list (list (key * action)) := [(KEY_A, PRESS)] :: repeat [] 53.

(** * Properties *)

(** ** Basic facts *)

Lemma bind_done {A B : Type} (r : result A) (k : A -> result B) (b : B) :
  bind r k = Done b -> exists a, r = Done a /\ k a = Done b.
Proof. destruct r; simpl; intros H; try discriminate. eauto. Qed.

Lemma size_t_range z : 0 <= size_t z < 2 ^ 64.
Proof. unfold size_t. apply Z.mod_pos_bound. lia. Qed.

Lemma size_t_small z : 0 <= z < 2 ^ 64 -> size_t z = z.
Proof. unfold size_t. apply Z.mod_small. Qed.

Lemma of_int_small z : 0 <= z < 2 ^ 64 -> of_int z = z.
Proof. unfold of_int. apply Z.mod_small. Qed.

Lemma size_t_add_of_int a b : size_t (a + of_int b) = size_t (a + b).
Proof. unfold size_t, of_int. apply Zplus_mod_idemp_r. Qed.

Lemma to_int_small z : 0 <= z < 2 ^ 31 -> to_int z = z.
Proof.
  intros H. unfold to_int. rewrite Z.mod_small by lia.
  destruct (Z.ltb_spec z (2 ^ 31)); lia.
Qed.

(** ** The bullet-versus-bullet block *)

Lemma bullet_vs_bullet_rounds (s : Sim) (fuel : nat) (i : Z) :
  (Z.to_nat (num_bullets (game s) - i) < fuel)%nat ->
  for_while fuel bullets_left bullet_vs_bullet_body i s = Done s.
Proof.
  revert i. induction fuel as [|fuel IH]; intros i H; [lia|].
  simpl. unfold bullets_left at 1.
  destruct (Z.ltb_spec i (num_bullets (game s))) as [Hlt|Hge]; [|reflexivity].
  unfold bullet_vs_bullet_body. rewrite Z.eqb_refl. simpl.
  apply IH. lia.
Qed.

(** C9. In every state the block "Check if player bullet hits an alien
    bullet" returns the state it was given: the self-comparison [i == i] sends
    every round to [continue], so neither the pool, nor its count, nor anything
    else changes, and the block is the same as no block. *)
Theorem bullet_vs_bullet_is_skip (s : Sim) : bullet_vs_bullet s = Done s.
Proof.
  unfold bullet_vs_bullet. apply bullet_vs_bullet_rounds.
  rewrite Z.sub_0_r. lia.
Qed.

(** ** Fire *)

Lemma process_events_clears (s s' : Sim) :
  process_events s = Done s' -> fire_pressed s' = false.
Proof.
  unfold process_events. intros H.
  apply bind_done in H. destruct H as [s1 [_ H]].
  injection H as <-. reflexivity.
Qed.

Lemma simulate_clears_fire (fuel : nat) (s s' : Sim) :
  simulate fuel s = Done s' -> fire_pressed s' = false.
Proof.
  unfold simulate. intros H.
  do 5 (apply bind_done in H; destruct H as [? [_ H]]).
  eapply process_events_clears; eassumption.
Qed.

(** C6. With the fire flag set and 128 bullets in the pool, the fire step
    spawns nothing and raises nothing: it returns the state it was given with
    only the flag cleared.  The step is the last one of the simulation, so the
    flag is clear whenever a simulated tick ends. *)
Theorem fire_on_full_pool_is_ignored (s : Sim) :
  fire_pressed s = true ->
  num_bullets (game s) = game_max_bullets ->
  process_events s = Done (set_fire_pressed false s) /\
  (forall fuel s0 s1, simulate fuel s0 = Done s1 -> fire_pressed s1 = false).
Proof.
  intros Hf Hn. split.
  - unfold process_events. rewrite Hf, Hn. reflexivity.
  - apply simulate_clears_fire.
Qed.

Lemma fire_on_full_pool_is_ignored_witness :
  let s := set_fire_pressed true (with_game (set_num_bullets 128) initial) in
  process_events s = Done (set_fire_pressed false s).
Proof.
  intros s. apply (fire_on_full_pool_is_ignored s); reflexivity.
Defined.

(** ** Game over *)

Lemma same_simulation_refl (s : Sim) : same_simulation s s.
Proof. unfold same_simulation. repeat split. Qed.

Lemma same_simulation_trans (s1 s2 s3 : Sim) :
  same_simulation s1 s2 -> same_simulation s2 s3 -> same_simulation s1 s3.
Proof.
  unfold same_simulation. intros H1 H2.
  decompose [and] H1. decompose [and] H2. repeat split; congruence.
Qed.

Lemma key_callback_same (k : key) (a : action) (s : Sim) :
  same_simulation s (key_callback k a s).
Proof. destruct k, a; unfold same_simulation; simpl; repeat split. Qed.

Lemma glfwPollEvents_same (events : list (key * action)) (s : Sim) :
  same_simulation s (glfwPollEvents events s).
Proof.
  unfold glfwPollEvents. revert s.
  induction events as [|e events IH]; intros s; simpl.
  - apply same_simulation_refl.
  - eapply same_simulation_trans; [apply key_callback_same | apply IH].
Qed.

(** C7. From a state with no lives left, every run of the loop, whatever the
    keys and however long, ends normally in a state with the same aliens,
    bullets, bullet count, player record and score, and the same clocks and
    swarm variables: only what the key callback writes (movement intent, fire
    flag, the running flag) may differ. *)
Theorem game_over_is_frozen (s : Sim) :
  Player.lives (player (game s)) = 0 ->
  forall (fuel : nat) (input : list (list (key * action))),
  exists s', main_loop fuel input s = Done s' /\ same_simulation s s'.
Proof.
  intros Hl fuel input. revert s Hl.
  induction input as [|events input IH]; intros s Hl; simpl.
  - exists s. split; [reflexivity | apply same_simulation_refl].
  - destruct (game_running s).
    + unfold frame. rewrite Hl. simpl.
      pose proof (glfwPollEvents_same events s) as Hs.
      destruct (IH (glfwPollEvents events s)) as [s' [Hrun Hs']].
      { assert (game (glfwPollEvents events s) = game s) as -> by apply Hs. exact Hl. }
      exists s'. split; [exact Hrun|].
      eapply same_simulation_trans; eassumption.
    + exists s. split; [reflexivity | apply same_simulation_refl].
Qed.

Lemma game_over_is_frozen_witness :
  let s := with_game (set_player (Player.mk 107 32 0)) initial in
  exists s', main_loop 0 [[(KEY_A, PRESS)]; [(KEY_SPACE, PRESS)]; []] s = Done s'
             /\ same_simulation s s'.
Proof.
  intros s. apply (game_over_is_frozen s). reflexivity.
Defined.

(** ** Player motion *)

Section PlayerMotion.

Variable s : Sim.
Hypothesis field : width (game s) = 224.
Hypothesis on_field : 0 <= Player.x (player (game s)) <= 213.
(** [2 * move_dir] is an [int]. *)
Hypothesis intent : - 2 ^ 30 <= move_dir s < 2 ^ 30.

Let x := Player.x (player (game s)).
Let x' := Player.x (player (game (simulate_player s))).

Lemma simulate_player_cases :
  (2 * move_dir s = 0 /\ x' = x) \/
  (2 * move_dir s <> 0 /\ size_t (x + 11 + 2 * move_dir s) >= 224 /\ x' = 213) \/
  (2 * move_dir s <> 0 /\ size_t (x + 11 + 2 * move_dir s) < 224
     /\ x + 2 * move_dir s <= 0 /\ x' = 0) \/
  (2 * move_dir s <> 0 /\ size_t (x + 11 + 2 * move_dir s) < 224
     /\ 0 < x + 2 * move_dir s /\ x' = size_t (x + 2 * move_dir s)).
Proof.
  subst x x'. unfold simulate_player.
  cbn -[Z.mul Z.add Z.sub Z.pow size_t of_int to_int].
  destruct (Z.eqb_spec (2 * move_dir s) 0) as [Hz|Hz]; [left; auto|right].
  rewrite field, size_t_add_of_int.
  destruct (Z.geb_spec (size_t (Player.x (player (game s)) + 11 + 2 * move_dir s)) 224)
    as [Hr|Hr].
  - left. repeat split; auto; lia.
  - right. rewrite to_int_small by lia.
    destruct (Z.leb_spec (Player.x (player (game s)) + 2 * move_dir s) 0) as [Hl|Hl].
    + left. repeat split; auto.
    + right. cbn -[Z.mul Z.add Z.sub Z.pow size_t of_int to_int].
      rewrite size_t_add_of_int. repeat split; auto.
Qed.

(** X9. On a playfield 224 wide, a player that stands on it stays on it
    after every move, whatever the intent: [x] ends between 0 and 213. *)
Lemma player_stays_on_field : 0 <= x' <= 213.
Proof.
  destruct simulate_player_cases as [[_ H]|[[_ [_ H]]|[[_ [_ [_ H]]]|[_ [Hr [Hl H]]]]]];
    rewrite H; try (subst x; lia).
  rewrite size_t_small in Hr by (subst x; lia).
  rewrite size_t_small by (subst x; lia). subst x; lia.
Qed.

(** X10. With at most five units of leftward intent the move is clamped: a
    move that would cross a bound ends on that bound. *)
Lemma player_clamped_for_small_intent :
  -5 <= move_dir s -> x' = Z.max 0 (Z.min 213 (x + 2 * move_dir s)).
Proof.
  intros Hsmall.
  destruct simulate_player_cases as [[Hz H]|[[_ [Hr H]]|[[_ [Hr [Hl H]]]|[_ [Hr [Hl H]]]]]];
    rewrite H; try rewrite size_t_small in Hr by (subst x; lia);
    try rewrite size_t_small by (subst x; lia); subst x; lia.
Qed.

End PlayerMotion.

(** Outside what the keys can produce: were the intent ever -6 with the
    player at x = 0, the motion step would put the player on the right bound,
    x = 213.  The first test, [x + width + player_move >= game.width], is
    unsigned, and [0 + 11 - 12] wraps to a huge value.  GLFW reports no second
    press of a key that is down, so the intent never leaves -1 .. 1. *)
Example left_move_lands_on_right_bound :
  move_dir at_left_wall = -6 /\
  Player.x (player (game at_left_wall)) = 0 /\
  Player.x (player (game (simulate_player at_left_wall))) = 213.
Proof. vm_compute. repeat split. Qed.

(** ** Wave reset *)

Ltac fixed_length l :=
  do 55 (destruct l as [|? l]; [discriminate|]);
  destruct l; [|discriminate].

Ltac each_cell xi yi :=
  let Hx := fresh in let Hy := fresh in
  assert (Hx : xi = 0 \/ xi = 1 \/ xi = 2 \/ xi = 3 \/ xi = 4 \/ xi = 5 \/ xi = 6
               \/ xi = 7 \/ xi = 8 \/ xi = 9 \/ xi = 10) by lia;
  assert (Hy : yi = 0 \/ yi = 1 \/ yi = 2 \/ yi = 3 \/ yi = 4) by lia;
  repeat (destruct Hx as [Hx|Hx]); repeat (destruct Hy as [Hy|Hy]); subst xi yi.

Lemma reset_wave_result (s : Sim) :
  length (aliens (game s)) = 55%nat ->
  length (alien_death_counter s) = 55%nat ->
  exists s', reset_wave s = Done s' /\
    aliens_killed s' = 0 /\
    alien_death_counter s' = repeat 10 55 /\
    aliens (game s') =
      flat_map (fun xi => map (fresh_alien xi) [0; 1; 2; 3; 4]) [0; 1; 2; 3; 4; 5; 6; 7; 8; 9; 10].
Proof.
  destruct s as [? ? ? ? ? ? ? ? g counters ? ? ? ? ? ? ?].
  destruct g as [? ? ? ? l ? ?]. simpl. intros Hl Hc.
  fixed_length l. fixed_length counters.
  eexists. split; [vm_compute; reflexivity|].
  repeat split.
Qed.

(** C3. When the kill count has reached the alien total, 55, the bounds step
    is the wave reset: it ends normally with the kill count 0 and 55 aliens,
    none of them Dead.  The alien written for column [xi] and row [yi] has the
    kind of its row and the position of its cell, and it is the very record
    that the initial spawn wrote for that cell.  (The reset stores the cell at
    index [xi * 5 + yi], the initial spawn at [yi * 11 + xi].) *)
Theorem wave_reset_restores_formation (s : Sim) :
  num_aliens (game s) = 55 ->
  aliens_killed s = 55 ->
  length (aliens (game s)) = 55%nat ->
  length (alien_death_counter s) = 55%nat ->
  exists s', bounds_or_reset s = Done s' /\
    aliens_killed s' = 0 /\
    length (aliens (game s')) = 55%nat /\
    Forall (fun a => Alien.type a <> DEAD) (aliens (game s')) /\
    forall xi yi, 0 <= xi < 11 -> 0 <= yi < 5 ->
      get (aliens (game s')) (xi * 5 + yi) = Done (fresh_alien xi yi) /\
      get (aliens (game initial)) (yi * 11 + xi) = Done (fresh_alien xi yi).
Proof.
  intros Hn Hk Hl Hc.
  destruct (reset_wave_result s Hl Hc) as [s' [Hr [Hk' [_ Ha]]]].
  exists s'. unfold bounds_or_reset. rewrite Hn, Hk. split; [exact Hr|].
  split; [exact Hk'|]. rewrite Ha.
  split; [reflexivity|]. split.
  - repeat constructor; discriminate.
  - intros xi yi Hx Hy. each_cell xi yi; split; reflexivity.
Qed.

Lemma wave_reset_restores_formation_witness :
  exists s', bounds_or_reset (set_aliens_killed 55 initial) = Done s' /\
             aliens_killed s' = 0.
Proof.
  destruct (wave_reset_restores_formation (set_aliens_killed 55 initial))
    as [s' [H1 [H2 _]]]; try reflexivity.
  exists s'. split; assumption.
Defined.

(** ** A player bullet hits an alien *)

Lemma put_done {A : Type} (l l' : list A) (i : Z) (a : A) :
  put l i a = Done l' ->
  0 <= i < Z.of_nat (length l) /\ l' = replace l (Z.to_nat i) a.
Proof.
  unfold put.
  destruct (Z.leb_spec 0 i) as [Hlo|Hlo];
    destruct (Z.ltb_spec i (Z.of_nat (length l))) as [Hhi|Hhi];
    simpl; intros Hput; try discriminate.
  injection Hput as <-. split; [lia | reflexivity].
Qed.

Tactic Notation "fields" :=
  cbn -[Z.mul Z.add Z.sub Z.pow Z.div Z.rem Z.modulo size_t of_int to_int replace].
Tactic Notation "fields" "in" hyp(H) :=
  cbn -[Z.mul Z.add Z.sub Z.pow Z.div Z.rem Z.modulo size_t of_int to_int replace] in H.

(** What the body of the hit does to the state. *)
Lemma hit_alien_effect (i j : Z) (alien_sprite : Sprite) (alien : Alien.t) (s s' : Sim) :
  get (aliens (game s)) j = Done alien ->
  hit_alien i j alien_sprite s = Done s' ->
  score s' = size_t (score s + of_int (10 * (4 - Alien.type alien))) /\
  aliens (game s') =
    replace (aliens (game s)) (Z.to_nat j)
      (Alien.mk (size_t (Alien.x alien
                  - size_t (sprite_width alien_death_sprite - sprite_width alien_sprite) / 2))
                (Alien.y alien) DEAD) /\
  num_bullets (game s') = size_t (num_bullets (game s) - 1) /\
  (exists last, get (bullets (game s)) (size_t (num_bullets (game s) - 1)) = Done last /\
                bullets (game s') = replace (bullets (game s)) (Z.to_nat i) last) /\
  aliens_killed s' = aliens_killed s + 1 /\
  should_change_speed s' =
    should_change_speed s || (Z.rem (aliens_killed s + 1) 15 =? 0) /\
  player (game s') = player (game s).
Proof.
  intros Hj H. unfold hit_alien in H. rewrite Hj in H. fields in H.
  apply bind_done in H. destruct H as [l [Hput H]].
  apply put_done in Hput. destruct Hput as [_ ->].
  apply bind_done in H. destruct H as [s3 [Hrm H]].
  unfold remove_bullet in Hrm. fields in Hrm.
  apply bind_done in Hrm. destruct Hrm as [last [Hlast Hrm]].
  apply bind_done in Hrm. destruct Hrm as [l' [Hput Hrm]].
  apply put_done in Hput. destruct Hput as [_ ->].
  injection Hrm as <-. fields in H.
  destruct (Z.rem (aliens_killed s + 1) 15 =? 0); injection H as <-; fields;
    rewrite ?orb_true_r, ?orb_false_r; repeat split; eauto.
Qed.

(** The loop of "Check hit" from index [k] on: either no alien is hit and the
    state is untouched, or the first live alien under the bullet is hit, once,
    and the loop ends there. *)
Lemma check_hit_rounds (i : Z) (n : nat) :
  forall (k : Z) (s s' : Sim),
  for_each n k (check_hit i) s = Done s' ->
  s' = s \/
  exists j alien alien_sprite b,
    k <= j < k + Z.of_nat n /\
    (forall k', k <= k' < j -> check_hit i k' s = Done (Next, s)) /\
    get (aliens (game s)) j = Done alien /\
    Alien.type alien <> DEAD /\
    current_sprite s (Alien.type alien) = Done alien_sprite /\
    get (bullets (game s)) i = Done b /\
    sprite_overlap_check bullet_sprite (Bullet.x b) (Bullet.y b)
                         alien_sprite (Alien.x alien) (Alien.y alien) = true /\
    hit_alien i j alien_sprite s = Done s'.
Proof.
  induction n as [|n IH]; intros k s s' H.
  - left. simpl in H. congruence.
  - cbn [for_each] in H. apply bind_done in H. destruct H as [[c s1] [Hbody H]].
    assert (Hcases :
      (c = Next /\ s1 = s) \/
      (c = Break /\ exists alien alien_sprite b,
          get (aliens (game s)) k = Done alien /\ Alien.type alien <> DEAD /\
          current_sprite s (Alien.type alien) = Done alien_sprite /\
          get (bullets (game s)) i = Done b /\
          sprite_overlap_check bullet_sprite (Bullet.x b) (Bullet.y b)
                               alien_sprite (Alien.x alien) (Alien.y alien) = true /\
          hit_alien i k alien_sprite s = Done s1)).
    { unfold check_hit in Hbody.
      apply bind_done in Hbody. destruct Hbody as [alien [Ha Hbody]].
      destruct (Z.eqb_spec (Alien.type alien) DEAD) as [Hd|Hd].
      - left. injection Hbody as <- <-. auto.
      - apply bind_done in Hbody. destruct Hbody as [sp [Hsp Hbody]].
        apply bind_done in Hbody. destruct Hbody as [b [Hb Hbody]].
        destruct (sprite_overlap_check bullet_sprite (Bullet.x b) (Bullet.y b) sp
                    (Alien.x alien) (Alien.y alien)) eqn:Hov.
        + right. apply bind_done in Hbody. destruct Hbody as [s2 [Hhit Hbody]].
          injection Hbody as <- <-. split; [reflexivity|].
          exists alien, sp, b. auto 10.
        + left. injection Hbody as <- <-. auto. }
    destruct Hcases as [[-> ->]|[-> [alien [sp [b Hhit]]]]].
    + apply IH in H. destruct H as [->|[j [alien [sp [b [Hr [Hfirst Hrest]]]]]]];
        [left; reflexivity|right].
      exists j, alien, sp, b. split; [lia|]. split; [|exact Hrest].
      intros k' Hk'. destruct (Z.eq_dec k' k) as [->|Hne]; [exact Hbody|].
      apply Hfirst. lia.
    + right. injection H as <-. exists k, alien, sp, b.
      split; [lia|]. split; [intros k' Hk'; lia|]. exact Hhit.
Qed.

(** Whenever the loop "Check hit" for bullet [i] ends, it has left the state
    alone or hit exactly one alien, the first live one, in index order, whose
    frame on screen overlaps the bullet, with the effects of [hit_alien] on
    the score, the alien, the pool, the kill count and the ramp flag. *)
Lemma check_hits_first_live (i : Z) (s s' : Sim) :
  check_hits i s = Done s' ->
  s' = s \/
  exists j alien alien_sprite b,
    0 <= j < Z.of_nat (all_aliens s) /\
    (forall k, 0 <= k < j -> check_hit i k s = Done (Next, s)) /\
    get (aliens (game s)) j = Done alien /\
    Alien.type alien <> DEAD /\
    current_sprite s (Alien.type alien) = Done alien_sprite /\
    get (bullets (game s)) i = Done b /\
    sprite_overlap_check bullet_sprite (Bullet.x b) (Bullet.y b)
                         alien_sprite (Alien.x alien) (Alien.y alien) = true /\
    score s' = size_t (score s + of_int (10 * (4 - Alien.type alien))) /\
    (ALIEN1 <= Alien.type alien <= ALIEN3 -> 0 <= score s -> score s + 30 < 2 ^ 64 ->
     score s' = score s + 10 * (4 - Alien.type alien)) /\
    aliens (game s') =
      replace (aliens (game s)) (Z.to_nat j)
        (Alien.mk (size_t (Alien.x alien
                    - size_t (sprite_width alien_death_sprite - sprite_width alien_sprite) / 2))
                  (Alien.y alien) DEAD) /\
    num_bullets (game s') = size_t (num_bullets (game s) - 1) /\
    (exists last, get (bullets (game s)) (size_t (num_bullets (game s) - 1)) = Done last /\
                  bullets (game s') = replace (bullets (game s)) (Z.to_nat i) last) /\
    aliens_killed s' = aliens_killed s + 1 /\
    should_change_speed s' =
      should_change_speed s || (Z.rem (aliens_killed s + 1) 15 =? 0).
Proof.
  unfold check_hits. intros H. apply check_hit_rounds in H.
  destruct H as [->|[j [alien [sp [b [Hr [Hfirst [Ha [Hlive [Hsp [Hb [Hov Hhit]]]]]]]]]]]];
    [left; reflexivity|right].
  destruct (hit_alien_effect i j sp alien s s' Ha Hhit)
    as [Hscore [Haliens [Hn [Hlast [Hk [Hflag _]]]]]].
  exists j, alien, sp, b.
  repeat (split; [solve [assumption | lia]|]).
  split; [|auto 10].
  intros Hkind H0 Hmax. rewrite Hscore.
  unfold ALIEN1, ALIEN3 in Hkind.
  rewrite (of_int_small (10 * (4 - Alien.type alien))) by lia.
  apply size_t_small. lia.
Qed.

(** The shot of [one_shot] does hit: kind 1, thirty points. *)
Example one_shot_scores :
  score after_shot = 30 /\ aliens_killed after_shot = 1 /\
  num_bullets (game after_shot) = 0 /\
  get (aliens (game after_shot)) 44 = Done (Alien.mk 24 196 DEAD).
Proof. vm_compute. repeat split. Qed.

(** ** The order of the steps in a tick *)

Lemma bind_assoc {A B C : Type} (r : result A) (f : A -> result B) (g : B -> result C) :
  bind (bind r f) g = bind r (fun a => bind (f a) g).
Proof. destruct r; reflexivity. Qed.

Lemma fold_bind_stuck {A : Type} (steps : list (A -> result A)) (r : result A) :
  is_done r = false -> fold_left (fun r f => bind r f) steps r = r.
Proof.
  revert r. induction steps as [|f steps IH]; intros r H; simpl; [reflexivity|].
  destruct r; try discriminate; simpl; apply IH; reflexivity.
Qed.

Lemma in_order_cons (f : step) (steps : list step) (s : Sim) :
  in_order (f :: steps) s = bind (f s) (in_order steps).
Proof.
  unfold in_order. simpl. destruct (f s) as [s'| |e]; simpl; try reflexivity;
    apply fold_bind_stuck; reflexivity.
Qed.

(** C5 (as amended). A simulated tick runs the vertical wrap/descend pass
    first and bullet advancement with collision resolution second; then come
    the difficulty ramp, the death countdowns, the timer-gated formation step
    with its alien bullet, the animation clocks and step timer, the player's
    lateral motion, the swarm bounds or wave reset, and last the fire spawn
    with the clearing of the fire flag. *)
Theorem simulate_runs_in_source_order (fuel : nat) (s : Sim) :
  simulate fuel s = in_order (source_order fuel) s.
Proof.
  unfold source_order, simulate, always.
  rewrite in_order_cons.
  destruct (update_aliens_position s) as [s1| |]; cbn [bind]; try reflexivity.
  rewrite in_order_cons.
  destruct (simulate_bullets s1) as [s2| |]; cbn [bind]; try reflexivity.
  rewrite in_order_cons; cbn [bind]. rewrite in_order_cons.
  destruct (count_deaths (change_speed s2)) as [s3| |]; cbn [bind]; try reflexivity.
  rewrite in_order_cons.
  destruct (formation_step fuel s3) as [s4| |]; cbn [bind]; reflexivity.
Qed.

(** C5 as stated fails: with bullets before the vertical pass the tick after
    [before_wrap], a state the game reaches from its start, ends with another
    score than the tick of the source (the bullet meets the bottom row only
    after the pass has moved it). *)
Lemma specified_order_differs :
  main_loop 64 one_press initial = Done before_wrap /\
  in_order (specified_order 64) before_wrap <> simulate 64 before_wrap.
Proof.
  split; [vm_compute; reflexivity|].
  intros H. apply (f_equal score_of) in H. vm_compute in H. discriminate.
Qed.

Example tick_after_before_wrap :
  score_of (simulate 64 before_wrap) = 10 /\
  score_of (in_order (specified_order 64) before_wrap) = 0.
Proof. vm_compute. split; reflexivity. Qed.

(** ** The random number generator *)

Lemma lxor_swap (a b c d : Z) :
  Z.lxor (Z.lxor a b) (Z.lxor c d) = Z.lxor (Z.lxor a c) (Z.lxor b d).
Proof.
  apply Z.bits_inj'. intros n _. rewrite !Z.lxor_spec.
  destruct (Z.testbit a n), (Z.testbit b n), (Z.testbit c n), (Z.testbit d n); reflexivity.
Qed.

Lemma uint32_lxor (a b : Z) : uint32_t (Z.lxor a b) = Z.lxor (uint32_t a) (uint32_t b).
Proof.
  unfold uint32_t. rewrite <- !Z.land_ones by lia.
  apply Z.bits_inj'. intros n _. rewrite !Z.land_spec, !Z.lxor_spec, !Z.land_spec.
  destruct (Z.testbit a n), (Z.testbit b n), (Z.testbit (Z.ones 32) n); reflexivity.
Qed.

Lemma linear_id_xor (g : Z -> Z) : linear g -> linear (fun x => Z.lxor x (g x)).
Proof.
  intros [g0 gx]. split.
  - rewrite g0. reflexivity.
  - intros a b. rewrite gx. apply lxor_swap.
Qed.

Lemma linear_compose (f g : Z -> Z) : linear f -> linear g -> linear (fun x => f (g x)).
Proof.
  intros [f0 fx] [g0 gx]. split.
  - rewrite g0. exact f0.
  - intros a b. rewrite gx. apply fx.
Qed.

Lemma linear_shiftl_32 (n : Z) : linear (fun x => uint32_t (Z.shiftl x n)).
Proof.
  split.
  - rewrite Z.shiftl_0_l. reflexivity.
  - intros a b. rewrite Z.shiftl_lxor. apply uint32_lxor.
Qed.

Lemma linear_shiftr (n : Z) : linear (fun x => Z.shiftr x n).
Proof.
  split.
  - apply Z.shiftr_0_l.
  - intros a b. apply Z.shiftr_lxor.
Qed.

Lemma next_stages (x : Z) :
  next x = stage (fun x => uint32_t (Z.shiftl x 5))
             (stage (fun x => Z.shiftr x 17)
                (stage (fun x => uint32_t (Z.shiftl x 13)) x)).
Proof. reflexivity. Qed.

Lemma next_linear : linear next.
Proof.
  pose proof (linear_id_xor _ (linear_shiftl_32 13)) as H1.
  pose proof (linear_id_xor _ (linear_shiftr 17)) as H2.
  pose proof (linear_id_xor _ (linear_shiftl_32 5)) as H3.
  pose proof (linear_compose _ _ H3 (linear_compose _ _ H2 H1)) as [H0 Hx].
  split.
  - rewrite next_stages. exact H0.
  - intros a b. rewrite !next_stages. apply Hx.
Qed.

Lemma lxor_range (n a b : Z) :
  0 <= n -> 0 <= a < 2 ^ n -> 0 <= b < 2 ^ n -> 0 <= Z.lxor a b < 2 ^ n.
Proof.
  intros Hn Ha Hb.
  assert (H0 : 0 <= Z.lxor a b) by (apply Z.lxor_nonneg; lia).
  split; [exact H0|].
  destruct (Z.eq_dec (Z.lxor a b) 0) as [->|Hne]; [lia|].
  assert (Hpos : 0 < n).
  { destruct (Z.eq_dec n 0) as [->|]; [exfalso|lia].
    assert (a = 0) by lia. assert (b = 0) by lia. subst. apply Hne. reflexivity. }
  apply Z.log2_lt_pow2; [lia|].
  eapply Z.le_lt_trans; [apply Z.log2_lxor; lia|].
  apply Z.max_lub_lt.
  - destruct (Z.eq_dec a 0) as [->|]; [simpl|apply Z.log2_lt_pow2]; lia.
  - destruct (Z.eq_dec b 0) as [->|]; [simpl|apply Z.log2_lt_pow2]; lia.
Qed.

Lemma uint32_range (z : Z) : 0 <= uint32_t z < 2 ^ 32.
Proof. unfold uint32_t. apply Z.mod_pos_bound. lia. Qed.

Lemma next_range (x : Z) : 0 <= x < 2 ^ 32 -> 0 <= next x < 2 ^ 32.
Proof.
  intros Hx. unfold next, xorshift32. cbn [snd].
  assert (H1 : 0 <= Z.lxor x (uint32_t (Z.shiftl x 13)) < 2 ^ 32)
    by (apply lxor_range; [lia | exact Hx | apply uint32_range]).
  set (x1 := Z.lxor x (uint32_t (Z.shiftl x 13))) in *.
  assert (H2 : 0 <= Z.lxor x1 (Z.shiftr x1 17) < 2 ^ 32).
  { apply lxor_range; [lia | exact H1 |].
    rewrite Z.shiftr_div_pow2 by lia. split.
    - apply Z.div_pos; lia.
    - apply Z.div_lt_upper_bound; lia. }
  set (x2 := Z.lxor x1 (Z.shiftr x1 17)) in *.
  apply lxor_range; [lia | exact H2 | apply uint32_range].
Qed.

Lemma select_xorb (p q : bool) (c : Z) :
  (if xorb p q then c else 0) = Z.lxor (if p then c else 0) (if q then c else 0).
Proof.
  destruct p, q; simpl;
    rewrite ?Z.lxor_nilpotent, ?Z.lxor_0_l, ?Z.lxor_0_r; reflexivity.
Qed.

Lemma apply_linear (columns : list Z) : linear (apply columns).
Proof.
  split.
  - induction columns as [|c columns IH]; simpl; [reflexivity|].
    rewrite IH. reflexivity.
  - induction columns as [|c columns IH]; intros a b; simpl; [reflexivity|].
    rewrite <- !Z.bit0_odd, Z.lxor_spec, !Z.div2_spec, Z.shiftr_lxor, IH, select_xorb.
    apply lxor_swap.
Qed.

Lemma apply_compose (a b : list Z) (x : Z) :
  apply (compose a b) x = apply a (apply b x).
Proof.
  destruct (apply_linear a) as [a0 ax].
  revert x. induction b as [|c b IH]; intros x; simpl.
  - symmetry. exact a0.
  - rewrite ax, IH. destruct (Z.odd x); [reflexivity | rewrite a0; reflexivity].
Qed.

(** A word shifted left, split into its lowest bit and the rest. *)
Lemma shiftl_split (x i : Z) :
  0 <= i ->
  Z.shiftl x i = Z.lxor (if Z.odd x then 2 ^ i else 0) (Z.shiftl (Z.div2 x) (i + 1)).
Proof.
  intros Hi. apply Z.bits_inj'. intros k Hk.
  rewrite Z.lxor_spec, !Z.shiftl_spec by lia.
  assert (Hlow : Z.testbit (if Z.odd x then 2 ^ i else 0) k = Z.odd x && (i =? k)).
  { destruct (Z.odd x); simpl; [apply Z.pow2_bits_eqb; lia | apply Z.bits_0]. }
  rewrite Hlow.
  destruct (Z.eqb_spec i k) as [->|Hne].
  - rewrite Z.sub_diag, Z.bit0_odd, andb_true_r.
    rewrite Z.testbit_neg_r by lia. apply eq_sym, xorb_false_r.
  - rewrite andb_false_r, xorb_false_l.
    destruct (Z.lt_ge_cases k i) as [Hlt|Hge].
    + rewrite !Z.testbit_neg_r by lia. reflexivity.
    + rewrite Z.div2_spec, Z.shiftr_spec by lia. f_equal. lia.
Qed.

(** A linear map is its matrix. *)
Lemma linear_is_apply (f : Z -> Z) :
  linear f ->
  forall (n : nat) (i x : Z),
  0 <= i -> 0 <= x < 2 ^ Z.of_nat n ->
  f (Z.shiftl x i) = apply (map f (unit_vectors i n)) x.
Proof.
  intros [f0 fx]. induction n as [|n IH]; intros i x Hi Hx.
  - assert (x = 0) as -> by (simpl in Hx; lia).
    rewrite Z.shiftl_0_l. exact f0.
  - cbn [unit_vectors map apply].
    rewrite shiftl_split, fx by lia.
    rewrite <- IH.
    + destruct (Z.odd x); [reflexivity | rewrite f0; reflexivity].
    + lia.
    + rewrite Z.div2_div. split.
      * apply Z.div_pos; lia.
      * apply Z.div_lt_upper_bound; [lia|].
        rewrite Nat2Z.inj_succ, Z.pow_succ_r in Hx by lia. lia.
Qed.

Lemma next_is_matrix (x : Z) : 0 <= x < 2 ^ 32 -> next x = apply xorshift_matrix x.
Proof.
  intros Hx. rewrite <- (Z.shiftl_0_r x) at 1.
  apply (linear_is_apply next next_linear 32 0 x); [lia | exact Hx].
Qed.

Lemma iter_next_range (p : positive) (x : Z) :
  0 <= x < 2 ^ 32 -> 0 <= Pos.iter next x p < 2 ^ 32.
Proof.
  intros Hx. apply Pos.iter_invariant; [|exact Hx].
  intros y Hy. apply next_range. exact Hy.
Qed.

(** [p] calls of the generator are one application of the [p]-th power of
    its matrix. *)
Lemma iter_next_is_power (p : positive) :
  forall x, 0 <= x < 2 ^ 32 -> Pos.iter next x p = apply (power p) x.
Proof.
  induction p as [p IH|p IH|]; intros x Hx; cbn [Pos.iter power].
  - rewrite next_is_matrix by (do 2 apply iter_next_range; exact Hx).
    rewrite !apply_compose.
    rewrite (IH (Pos.iter next x p)) by (apply iter_next_range; exact Hx).
    rewrite (IH x) by exact Hx. reflexivity.
  - rewrite apply_compose.
    rewrite (IH (Pos.iter next x p)) by (apply iter_next_range; exact Hx).
    rewrite (IH x) by exact Hx. reflexivity.
  - apply next_is_matrix. exact Hx.
Qed.

(** C8 (the code departs from it). Seeded with 13, the generator is in state
    1584200935 after 4202370164 calls; there [xorshift32] returns
    [2^32 - 1], [random] returns exactly 1.0, not a value below 1, and the
    alien index computed from it is 55, one past the last alien. *)
Theorem random_returns_one :
  Pos.iter next (rng initial) calls_before_one = state_before_one /\
  fst (xorshift32 state_before_one) = uint32_max /\
  fst (random state_before_one) = 1%float /\
  fst (random_alien (set_rng state_before_one initial)) = 55 /\
  get (aliens (game initial)) 55 = Fault OutOfRange.
Proof.
  split.
  - rewrite iter_next_is_power by (vm_compute; split; [discriminate | reflexivity]).
    vm_compute. reflexivity.
  - vm_compute. repeat split.
Qed.

(** ** The formation step needs a live alien *)

Lemma bind_stuck {A B : Type} (r : result A) (k : A -> result B) :
  (forall a, r = Done a -> is_done (k a) = false) -> is_done (bind r k) = false.
Proof. destruct r; simpl; intros H; [apply H|..]; reflexivity. Qed.

Lemma get_in {A : Type} (l : list A) (i : Z) (a : A) : get l i = Done a -> In a l.
Proof.
  unfold get. destruct (i <? 0); [discriminate|].
  destruct (nth_error l (Z.to_nat i)) eqn:E; intros H; [|discriminate].
  injection H as <-. eapply nth_error_In. exact E.
Qed.

Lemma Forall_replace {A : Type} (P : A -> Prop) (l : list A) (n : nat) (a : A) :
  Forall P l -> P a -> Forall P (replace l n a).
Proof.
  intros Hl Ha. revert n. induction Hl as [|b l Hb Hl IH]; intros n; simpl.
  - constructor.
  - destruct n; constructor; auto.
Qed.

Lemma for_each_keeps (P : Sim -> Prop) (body : Z -> Sim -> result (flow * Sim)) :
  (forall i s c s', P s -> body i s = Done (c, s') -> P s') ->
  forall n i s s', P s -> for_each n i body s = Done s' -> P s'.
Proof.
  intros Hbody. induction n as [|n IH]; intros i s s' Hs H; simpl in H.
  - injection H as <-. exact Hs.
  - apply bind_done in H. destruct H as [[c s1] [Hb H]].
    pose proof (Hbody _ _ _ _ Hs Hb) as Hs1.
    destruct c; [eapply IH; eassumption | injection H as <-; exact Hs1].
Qed.

(** With every alien Dead, the loop that picks a live alien never ends
    normally, whatever the fuel. *)
Lemma pick_alive_needs_live_alien (fuel : nat) :
  forall rai s, all_dead s -> is_done (pick_alive fuel rai s) = false.
Proof.
  induction fuel as [|fuel IH]; intros rai s Hs; simpl; [reflexivity|].
  apply bind_stuck. intros alien Ha.
  pose proof (get_in _ _ _ Ha) as Hin.
  unfold all_dead in Hs. rewrite Forall_forall in Hs.
  rewrite (Hs alien Hin), Z.eqb_refl.
  unfold random_alien. destruct (random (rng s)) as [r rng'].
  apply IH. unfold all_dead. rewrite Forall_forall. exact Hs.
Qed.

Lemma march_keeps (i : Z) (s : Sim) (c : flow) (s' : Sim) :
  all_dead s /\ guard_holds s -> march i s = Done (c, s') -> all_dead s' /\ guard_holds s'.
Proof.
  intros [Hd Hg] H. unfold march in H.
  apply bind_done in H. destruct H as [alien [Ha H]].
  apply bind_done in H. destruct H as [l [Hput H]].
  apply put_done in Hput. destruct Hput as [_ ->].
  injection H as <- <-. split; [|exact Hg].
  unfold all_dead in *. cbn [with_game set_game game set_aliens aliens].
  apply Forall_replace; [exact Hd|]. cbn [Alien.type].
  rewrite Forall_forall in Hd. apply Hd. eapply get_in. exact Ha.
Qed.

Lemma descend_keeps (i : Z) (s : Sim) (c : flow) (s' : Sim) :
  all_dead s /\ guard_holds s -> descend i s = Done (c, s') -> all_dead s' /\ guard_holds s'.
Proof.
  intros [Hd Hg] H. unfold descend in H.
  apply bind_done in H. destruct H as [alien [Ha H]].
  apply bind_done in H. destruct H as [l [Hput H]].
  apply put_done in Hput. destruct Hput as [_ ->].
  injection H as <- <-. split; [|exact Hg].
  unfold all_dead in *. cbn [with_game set_game game set_aliens aliens].
  apply Forall_replace; [exact Hd|]. cbn [Alien.type].
  rewrite Forall_forall in Hd. apply Hd. eapply get_in. exact Ha.
Qed.

Lemma alien_fire_needs_live_alien (fuel : nat) (s : Sim) :
  all_dead s -> guard_holds s -> is_done (alien_fire fuel s) = false.
Proof.
  intros Hd Hg. unfold alien_fire.
  unfold guard_holds in Hg. apply Z.ltb_lt in Hg. rewrite Hg.
  unfold random_alien. destruct (random (rng s)) as [r rng'].
  apply bind_stuck. intros [rai s'] Hpick.
  pose proof (pick_alive_needs_live_alien fuel
                (size_t_of_double (double_of_unsigned (num_aliens (game s)) * r))
                (set_rng rng' s) Hd) as Hno.
  rewrite Hpick in Hno. discriminate.
Qed.

(** Whenever the formation step is due, the guard [aliens_killed <
    num_aliens] holds and every alien is Dead, it does not end normally. *)
Lemma formation_step_needs_live_alien (fuel : nat) (s : Sim) :
  alien_update_timer s >= alien_update_frequency s ->
  all_dead s -> guard_holds s ->
  is_done (formation_step fuel s) = false.
Proof.
  intros Hdue Hd Hg. unfold formation_step.
  assert (Hdue' : (alien_update_timer s >=? alien_update_frequency s) = true)
    by (apply Z.geb_le; lia).
  rewrite Hdue'.
  apply bind_stuck. intros s1 H1.
  assert (Hs1 : all_dead s1 /\ guard_holds s1).
  { cbn [set_alien_update_timer] in H1.
    match type of H1 with (if ?c then _ else _) = _ => destruct c end.
    - eapply (for_each_keeps _ _ descend_keeps); [|exact H1]. split; assumption.
    - match type of H1 with (if ?c then _ else _) = _ => destruct c end;
        injection H1 as <-; split; assumption. }
  apply bind_stuck. intros s2 H2.
  apply (for_each_keeps _ _ march_keeps) in H2; [|exact Hs1].
  destruct H2. apply alien_fire_needs_live_alien; assumption.
Qed.

Lemma frame_in_two (fuel : nat) (events : list (key * action)) (s : Sim) :
  Player.lives (player (game s)) <> 0 ->
  frame fuel events s = bind (until_formation s) (from_formation fuel events).
Proof.
  intros Hl. unfold frame, until_formation, from_formation, simulate.
  apply Z.eqb_neq in Hl. rewrite Hl.
  destruct (draw s) as [s0| |]; cbn [bind]; try reflexivity.
  destruct (update_aliens_position s0) as [s1| |]; cbn [bind]; try reflexivity.
  destruct (simulate_bullets s1) as [s2| |]; cbn [bind]; try reflexivity.
  destruct (count_deaths (change_speed s2)) as [s3| |]; cbn [bind]; try reflexivity.
  destruct (formation_step fuel s3) as [s4| |]; cbn [bind]; try reflexivity.
  all: destruct (bounds_or_reset (simulate_player (update_animations s4))) as [s5| |];
    cbn [bind]; try reflexivity.
Qed.

(** C2 (the code departs from it). The recorded game [doomed_input], played
    from the start, reaches [last_stand]: one alien alive, 32 kills counted,
    the other 22 aliens marked Dead by the vertical pass, which does not
    count them.  In the next frame the player's bullet kills the last alien
    and the formation step is due: the guard [aliens_killed < num_aliens]
    holds (33 < 55), no alien is alive, and the loop that picks a live alien
    never ends normally, whatever the fuel. *)
Theorem rejection_loop_without_live_alien :
  main_loop patience doomed_input initial = Done last_stand /\
  until_formation last_stand = Done no_alien_left /\
  alien_update_timer no_alien_left >= alien_update_frequency no_alien_left /\
  aliens_killed no_alien_left = 33 /\
  num_aliens (game no_alien_left) = 55 /\
  all_dead no_alien_left /\
  forall fuel events, is_done (frame fuel events last_stand) = false.
Proof.
  assert (Hpre : until_formation last_stand = Done no_alien_left)
    by (vm_compute; reflexivity).
  assert (Hdead : all_dead no_alien_left)
    by (unfold all_dead; cbn [no_alien_left game aliens]; repeat constructor).
  assert (Hdue : alien_update_timer no_alien_left >= alien_update_frequency no_alien_left)
    by (vm_compute; discriminate).
  split; [vm_compute; reflexivity|].
  split; [exact Hpre|]. split; [exact Hdue|].
  split; [reflexivity|]. split; [reflexivity|]. split; [exact Hdead|].
  intros fuel events.
  rewrite frame_in_two by (cbn [last_stand game player Player.lives]; discriminate).
  rewrite Hpre. cbn [bind]. unfold from_formation.
  apply bind_stuck. intros s H.
  pose proof (formation_step_needs_live_alien fuel no_alien_left Hdue Hdead) as Hno.
  rewrite H in Hno. exfalso.
  assert (Hguard : guard_holds no_alien_left) by (unfold guard_holds; vm_compute; reflexivity).
  specialize (Hno Hguard). discriminate.
Qed.

(** ** The bullet pool *)

Lemma pick_alive_game (fuel : nat) :
  forall rai s rai' s', pick_alive fuel rai s = Done (rai', s') -> game s' = game s.
Proof.
  induction fuel as [|fuel IH]; intros rai s rai' s' H; simpl in H; [discriminate|].
  apply bind_done in H. destruct H as [alien [_ H]].
  destruct (Alien.type alien =? DEAD).
  - unfold random_alien in H. destruct (random (rng s)) as [r rng'].
    apply IH in H. exact H.
  - injection H as _ <-. reflexivity.
Qed.

(** The player's shot is guarded: the fire step never takes the count past
    the capacity. *)
Lemma process_events_keeps_bound (s s' : Sim) :
  0 <= num_bullets (game s) <= game_max_bullets ->
  process_events s = Done s' ->
  0 <= num_bullets (game s') <= game_max_bullets.
Proof.
  unfold process_events, game_max_bullets. intros Hn H.
  apply bind_done in H. destruct H as [s1 [H1 H]]. injection H as <-.
  cbn [set_fire_pressed game].
  destruct (fire_pressed s && (num_bullets (game s) <? 128)) eqn:E.
  - apply andb_prop in E. destruct E as [_ E]. apply Z.ltb_lt in E.
    apply bind_done in H1. destruct H1 as [l [_ H1]]. injection H1 as <-.
    cbn [with_game set_game game set_num_bullets set_bullets num_bullets].
    rewrite size_t_small by lia. lia.
  - injection H1 as <-. exact Hn.
Qed.

Lemma get_outcome {A : Type} (l : list A) (i : Z) :
  (exists a, get l i = Done a) \/ get l i = Fault OutOfRange.
Proof.
  unfold get. destruct (i <? 0); [right; reflexivity|].
  destruct (nth_error l (Z.to_nat i)) as [a|]; [left; exists a|right]; reflexivity.
Qed.

Lemma pick_alive_outcome (fuel : nat) :
  forall rai s,
  (exists r, pick_alive fuel rai s = Done r) \/
  pick_alive fuel rai s = OutOfFuel \/ pick_alive fuel rai s = Fault OutOfRange.
Proof.
  induction fuel as [|fuel IH]; intros rai s; simpl; [auto|].
  destruct (get_outcome (aliens (game s)) rai) as [[alien ->]| ->]; cbn [bind]; [|auto].
  destruct (Alien.type alien =? DEAD); [|left; eexists; reflexivity].
  unfold random_alien. destruct (random (rng s)) as [r rng']. apply IH.
Qed.

(** The alien's shot is not: when the pool is full and an alien is to fire,
    the spawn writes [game.bullets[128]], outside the array.  It never ends
    normally; it is not a skipped spawn. *)
Lemma alien_fire_on_full_pool (fuel : nat) (s : Sim) :
  num_bullets (game s) = game_max_bullets ->
  length (bullets (game s)) = Z.to_nat game_max_bullets ->
  guard_holds s ->
  alien_fire fuel s = OutOfFuel \/ alien_fire fuel s = Fault OutOfRange.
Proof.
  intros Hn Hlen Hg. unfold alien_fire.
  unfold guard_holds in Hg. apply Z.ltb_lt in Hg. rewrite Hg.
  unfold random_alien. destruct (random (rng s)) as [r rng'].
  destruct (pick_alive_outcome fuel
              (size_t_of_double (double_of_unsigned (num_aliens (game s)) * r))
              (set_rng rng' s)) as [[[rai s'] Hpick]|[Hpick|Hpick]];
    rewrite Hpick; cbn [bind]; auto.
  apply pick_alive_game in Hpick. cbn [set_rng game] in Hpick. rewrite Hpick.
  destruct (get_outcome (aliens (game s)) rai) as [[alien ->]| ->]; cbn [bind]; auto.
  destruct (get_outcome (alien_animation s') (Alien.type alien - 1)) as [[an ->]| ->];
    cbn [bind]; auto.
  destruct (get_outcome (frames an) 0) as [[sp ->]| ->]; cbn [bind]; auto.
  unfold put. rewrite Hn, Hlen. right. reflexivity.
Qed.

Lemma march_keeps_pool (i : Z) (s : Sim) (c : flow) (s' : Sim) :
  full s /\ guard_holds s -> march i s = Done (c, s') -> full s' /\ guard_holds s'.
Proof.
  intros Hs H. unfold march in H.
  apply bind_done in H. destruct H as [alien [_ H]].
  apply bind_done in H. destruct H as [l [_ H]].
  injection H as <- <-. exact Hs.
Qed.

Lemma descend_keeps_pool (i : Z) (s : Sim) (c : flow) (s' : Sim) :
  full s /\ guard_holds s -> descend i s = Done (c, s') -> full s' /\ guard_holds s'.
Proof.
  intros Hs H. unfold descend in H.
  apply bind_done in H. destruct H as [alien [_ H]].
  apply bind_done in H. destruct H as [l [_ H]].
  injection H as <- <-. exact Hs.
Qed.

(** Whenever the formation step is due, the guard holds and the pool is full,
    it does not end normally: the alien's shot is written past the array. *)
Lemma formation_step_on_full_pool (fuel : nat) (s : Sim) :
  alien_update_timer s >= alien_update_frequency s ->
  full s -> guard_holds s ->
  is_done (formation_step fuel s) = false.
Proof.
  intros Hdue Hf Hg. unfold formation_step.
  assert (Hdue' : (alien_update_timer s >=? alien_update_frequency s) = true)
    by (apply Z.geb_le; lia).
  rewrite Hdue'.
  apply bind_stuck. intros s1 H1.
  assert (Hs1 : full s1 /\ guard_holds s1).
  { cbn [set_alien_update_timer] in H1.
    match type of H1 with (if ?c then _ else _) = _ => destruct c end.
    - eapply (for_each_keeps _ _ descend_keeps_pool); [|exact H1]. split; assumption.
    - match type of H1 with (if ?c then _ else _) = _ => destruct c end;
        injection H1 as <-; split; assumption. }
  apply bind_stuck. intros s2 H2.
  apply (for_each_keeps _ _ march_keeps_pool) in H2; [|exact Hs1].
  destruct H2 as [[Hn Hlen] Hg2].
  destruct (alien_fire_on_full_pool fuel s2 Hn Hlen Hg2) as [-> | ->]; reflexivity.
Qed.

(** C1 (the code departs from it). The recorded game [crowded_input], played
    from the start, reaches [crowded] with all 128 slots of the pool live (116
    player bullets, 12 alien bullets).  In the next frame no bullet leaves the
    pool and the formation step is due with aliens alive: the alien's shot is
    written to [game.bullets[128]], past the array.  The frame does not end
    normally for any fuel; with the fuel of the recorded games it stops with
    the out-of-range fault.  The player's shot has the guard
    [game.num_bullets < game_max_bullets]; the alien's shot has none. *)
Theorem alien_shot_overflows_pool :
  main_loop patience crowded_input initial = Done crowded /\
  num_bullets (game crowded) = game_max_bullets /\
  until_formation crowded = Done pool_full /\
  full pool_full /\
  alien_update_timer pool_full >= alien_update_frequency pool_full /\
  guard_holds pool_full /\
  (forall fuel events, is_done (frame fuel events crowded) = false) /\
  frame patience [] crowded = Fault OutOfRange.
Proof.
  assert (Hpre : until_formation crowded = Done pool_full)
    by (vm_compute; reflexivity).
  assert (Hfull : full pool_full) by (split; reflexivity).
  assert (Hdue : alien_update_timer pool_full >= alien_update_frequency pool_full)
    by (vm_compute; discriminate).
  assert (Hguard : guard_holds pool_full) by (unfold guard_holds; vm_compute; reflexivity).
  split; [vm_compute; reflexivity|].
  split; [reflexivity|]. split; [exact Hpre|]. split; [exact Hfull|].
  split; [exact Hdue|]. split; [exact Hguard|]. split.
  - intros fuel events.
    rewrite frame_in_two by (cbn [crowded game player Player.lives]; discriminate).
    rewrite Hpre. cbn [bind]. unfold from_formation.
    apply bind_stuck. intros s H.
    pose proof (formation_step_on_full_pool fuel pool_full Hdue Hfull Hguard) as Hno.
    rewrite H in Hno. discriminate.
  - vm_compute. reflexivity.
Qed.

(** ** The bullet loop needs no more fuel than it is given *)

Lemma bind_fuel {A B : Type} (r : result A) (k : A -> result B) :
  r <> OutOfFuel -> (forall a, r = Done a -> k a <> OutOfFuel) -> bind r k <> OutOfFuel.
Proof. destruct r; simpl; intros H1 H2; [apply H2; reflexivity | congruence | discriminate]. Qed.

Lemma get_fuel {A : Type} (l : list A) (i : Z) : get l i <> OutOfFuel.
Proof. destruct (get_outcome l i) as [[a ->]| ->]; discriminate. Qed.

Lemma put_fuel {A : Type} (l : list A) (i : Z) (a : A) : put l i a <> OutOfFuel.
Proof. unfold put. destruct (_ && _); discriminate. Qed.

Lemma udiv_fuel (a b : Z) : udiv a b <> OutOfFuel.
Proof. unfold udiv. destruct (b =? 0); discriminate. Qed.

Ltac no_fuel :=
  repeat first
    [ apply bind_fuel; [solve [apply get_fuel | apply put_fuel | apply udiv_fuel]|intros ? _]
    | match goal with
      | |- (if ?c then _ else _) <> OutOfFuel => destruct c
      | |- Done _ <> OutOfFuel => discriminate
      end ].

Lemma remove_bullet_fuel (i : Z) (s : Sim) : remove_bullet i s <> OutOfFuel.
Proof. unfold remove_bullet. no_fuel. Qed.

Lemma current_sprite_fuel (s : Sim) (type : Z) : current_sprite s type <> OutOfFuel.
Proof. unfold current_sprite. no_fuel. apply get_fuel. Qed.

Lemma hit_alien_fuel (i j : Z) (sp : Sprite) (s : Sim) : hit_alien i j sp s <> OutOfFuel.
Proof.
  unfold hit_alien. no_fuel.
  apply bind_fuel; [apply remove_bullet_fuel | intros ? _]. no_fuel.
Qed.

Lemma check_hit_fuel (i j : Z) (s : Sim) : check_hit i j s <> OutOfFuel.
Proof.
  unfold check_hit. no_fuel.
  apply bind_fuel; [apply current_sprite_fuel | intros ? _]. no_fuel.
  apply bind_fuel; [apply hit_alien_fuel | intros ? _]. no_fuel.
Qed.

Lemma for_each_fuel (body : Z -> Sim -> result (flow * Sim)) :
  (forall i s, body i s <> OutOfFuel) ->
  forall n i s, for_each n i body s <> OutOfFuel.
Proof.
  intros Hbody. induction n as [|n IH]; intros i s; simpl; [discriminate|].
  apply bind_fuel; [apply Hbody|]. intros [c s'] _. destruct c; [apply IH | discriminate].
Qed.

Lemma remove_bullet_count (i : Z) (s s' : Sim) :
  1 <= num_bullets (game s) < 2 ^ 64 ->
  remove_bullet i s = Done s' ->
  num_bullets (game s') = num_bullets (game s) - 1.
Proof.
  intros Hn H. unfold remove_bullet in H.
  apply bind_done in H. destruct H as [last [_ H]].
  apply bind_done in H. destruct H as [l [_ H]].
  injection H as <-. cbn [with_game set_game game set_num_bullets set_bullets num_bullets].
  apply size_t_small. lia.
Qed.

(** One round of the bullet loop never adds a bullet. *)
Lemma simulate_bullet_count (i : Z) (s s' : Sim) (c : flow) :
  1 <= num_bullets (game s) < 2 ^ 64 ->
  simulate_bullet i s = Done (c, s') ->
  num_bullets (game s') <= num_bullets (game s).
Proof.
  intros Hn H. unfold simulate_bullet in H.
  apply bind_done in H. destruct H as [b [_ H]].
  apply bind_done in H. destruct H as [l [_ H]].
  set (s1 := with_game (set_bullets l) s) in *.
  assert (Hn1 : num_bullets (game s1) = num_bullets (game s)) by reflexivity.
  cbn [Bullet.y Bullet.x Bullet.dir] in H.
  match type of H with (if ?c then _ else _) = _ => destruct c end.
  - apply bind_done in H. destruct H as [s2 [Hrm H]]. injection H as _ <-.
    apply remove_bullet_count in Hrm; lia.
  - match type of H with (if ?c then _ else _) = _ => destruct c end.
    + apply bind_done in H. destruct H as [shot [_ H]].
      match type of H with (if ?c then _ else _) = _ => destruct c end.
      * apply bind_done in H. destruct H as [s2 [Hrm H]]. injection H as _ <-.
        apply remove_bullet_count in Hrm; [|cbn [with_game set_game game set_player num_bullets]; lia].
        cbn [with_game set_game game set_player num_bullets] in Hrm. lia.
      * injection H as _ <-. lia.
    + apply bind_done in H. destruct H as [s2 [Hbb H]].
      unfold bullet_vs_bullet in Hbb.
      rewrite bullet_vs_bullet_rounds in Hbb by (rewrite Z.sub_0_r; lia).
      injection Hbb as <-.
      apply bind_done in H. destruct H as [s3 [Hhit H]]. injection H as _ <-.
      unfold check_hits in Hhit. apply check_hit_rounds in Hhit.
      destruct Hhit as [->|[j [alien [sp [b' [_ [_ [Ha [_ [_ [_ [_ Hhit]]]]]]]]]]]]; [lia|].
      destruct (hit_alien_effect _ _ _ _ _ _ Ha Hhit) as [_ [_ [Hcount _]]].
      rewrite Hcount, size_t_small; lia.
Qed.

Lemma simulate_bullet_fuel (i : Z) (s : Sim) : simulate_bullet i s <> OutOfFuel.
Proof.
  unfold simulate_bullet. no_fuel.
  - apply bind_fuel; [apply remove_bullet_fuel | intros ? _]. no_fuel.
  - apply bind_fuel; [apply remove_bullet_fuel | intros ? _]. no_fuel.
  - apply bind_fuel.
    + unfold bullet_vs_bullet. rewrite bullet_vs_bullet_rounds; [discriminate|].
      rewrite Z.sub_0_r. lia.
    + intros s2 _. apply bind_fuel; [apply for_each_fuel, check_hit_fuel | intros ? _].
      no_fuel.
Qed.

Lemma bullet_rounds_fuel (fuel : nat) :
  forall i s,
  0 <= i -> num_bullets (game s) < 2 ^ 64 ->
  (Z.to_nat (num_bullets (game s) - i) < fuel)%nat ->
  for_while fuel bullets_left simulate_bullet i s <> OutOfFuel.
Proof.
  induction fuel as [|fuel IH]; intros i s Hi Hn Hfuel; [lia|].
  simpl. unfold bullets_left at 1.
  destruct (Z.ltb_spec i (num_bullets (game s))) as [Hlt|Hge]; [|discriminate].
  apply bind_fuel; [apply simulate_bullet_fuel|].
  intros [c s'] Hbody. destruct c; [|discriminate].
  apply simulate_bullet_count in Hbody; [|lia].
  apply IH; lia.
Qed.

(** X27. "Simulate bullets" ends within the fuel the embedding gives it, one
    round for each bullet counted at the start and one more: no round adds a
    bullet, so the loop of the source always terminates. *)
Lemma simulate_bullets_terminates (s : Sim) :
  num_bullets (game s) < 2 ^ 64 -> simulate_bullets s <> OutOfFuel.
Proof.
  intros Hn. unfold simulate_bullets. apply bullet_rounds_fuel; [lia | exact Hn |].
  rewrite Z.sub_0_r. lia.
Qed.

(** ** The scans of the bounds step stay within their fuel *)

Lemma get_past_end {A : Type} (l : list A) (i : Z) :
  Z.of_nat (length l) <= i -> get l i = Fault OutOfRange.
Proof.
  intros Hi. unfold get. destruct (Z.ltb_spec i 0); [reflexivity|].
  destruct (nth_error l (Z.to_nat i)) eqn:E; [|reflexivity].
  assert (Hsome : nth_error l (Z.to_nat i) <> None) by congruence.
  apply nth_error_Some in Hsome. lia.
Qed.

Lemma skip_dead_up_fuel (l : list Alien.t) (fuel : nat) :
  forall ai,
  Z.of_nat (length l) < 2 ^ 64 -> 0 <= ai ->
  (1 <= fuel)%nat -> Z.of_nat (length l) - ai < Z.of_nat fuel ->
  skip_dead fuel 1 ai l <> OutOfFuel.
Proof.
  induction fuel as [|fuel IH]; intros ai Hlen Hai H1 Hfuel; [lia|].
  simpl. destruct (Z.lt_ge_cases ai (Z.of_nat (length l))) as [Hin|Hout].
  - apply bind_fuel; [apply get_fuel|]. intros alien _.
    destruct (Alien.type alien =? DEAD); [|discriminate].
    rewrite size_t_small by lia. apply IH; lia.
  - rewrite get_past_end by lia. discriminate.
Qed.

Lemma skip_dead_down_fuel (l : list Alien.t) (fuel : nat) :
  forall ai,
  Z.of_nat (length l) < 2 ^ 64 -> 0 <= ai < 2 ^ 64 ->
  (ai + 1 < Z.of_nat fuel \/ Z.of_nat (length l) <= ai /\ (1 <= fuel)%nat) ->
  skip_dead fuel (-1) ai l <> OutOfFuel.
Proof.
  induction fuel as [|fuel IH]; intros ai Hlen Hai Hfuel; [lia|].
  simpl. destruct (Z.lt_ge_cases ai (Z.of_nat (length l))) as [Hin|Hout].
  - apply bind_fuel; [apply get_fuel|]. intros alien _.
    destruct (Alien.type alien =? DEAD); [|discriminate].
    destruct (Z.eq_dec ai 0) as [->|Hne].
    + assert (E : size_t (0 + -1) = 2 ^ 64 - 1) by reflexivity.
      apply IH; [lia | apply size_t_range |].
      right. rewrite E. lia.
    + rewrite size_t_small by lia. apply IH; lia.
  - rewrite get_past_end by lia. discriminate.
Qed.

(** X28. The bounds step ends within the fuel the embedding gives its two
    scans, one round for each alien of the vector and one more: a scan either
    finds a live alien or runs off the vector and faults, it never goes on
    for ever. *)
Lemma track_bounds_terminates (s : Sim) :
  Z.of_nat (length (aliens (game s))) < 2 ^ 64 ->
  0 <= num_aliens (game s) <= Z.of_nat (length (aliens (game s))) ->
  track_bounds s <> OutOfFuel.
Proof.
  intros Hlen Hn. unfold track_bounds.
  apply bind_fuel.
  { apply skip_dead_up_fuel; lia. }
  intros ai _. no_fuel.
  apply bind_fuel.
  { match goal with |- skip_dead _ _ ?a _ <> _ => set (start := a) end.
    assert (Hs : 0 <= start < 2 ^ 64) by apply size_t_range.
    apply skip_dead_down_fuel; [lia | exact Hs |].
    destruct (Z.eq_dec (num_aliens (game s)) 0) as [Hz|Hz].
    - right. subst start. cbn [game set_alien_swarm_position] in *.
      split; [|lia].
      match goal with |- _ <= size_t ?e => replace e with (-1) end.
      + assert (E : size_t (-1) = 2 ^ 64 - 1) by reflexivity. rewrite E. lia.
      + destruct (_ >? _); cbn [game set_alien_swarm_position]; lia.
    - left. subst start.
      match goal with |- size_t ?e + 1 < _ =>
        assert (He : e = num_aliens (game s) - 1)
          by (destruct (_ >? _); reflexivity)
      end.
      rewrite He, size_t_small by lia. lia. }
  intros ai' _. no_fuel.
Qed.

(** * Further properties of the code *)

(** ** [rgb_uint32] *)

Lemma byte_high_bits (v k : Z) : 0 <= v < 256 -> 8 <= k -> Z.testbit v k = false.
Proof.
  intros Hv Hk. destruct (Z.eq_dec v 0) as [->|Hne]; [apply Z.bits_0|].
  apply Z.bits_above_log2; [lia|].
  assert (Z.log2 v < 8) by (apply Z.log2_lt_pow2; lia). lia.
Qed.

Lemma testbit_to_int (z m : Z) : 0 <= m < 32 -> Z.testbit (to_int z) m = Z.testbit z m.
Proof.
  intros Hm. unfold to_int. cbv zeta.
  rewrite <- (Z.mod_pow2_bits_low z 32 m) by lia.
  destruct (z mod 2 ^ 32 <? 2 ^ 31); [reflexivity|].
  rewrite <- (Z.mod_pow2_bits_low (z mod 2 ^ 32 - 2 ^ 32) 32 m) by lia.
  f_equal. replace (z mod 2 ^ 32 - 2 ^ 32) with (z mod 2 ^ 32 + (-1) * 2 ^ 32) by lia.
  rewrite Z.mod_add by lia. apply Z.mod_mod. lia.
Qed.

(** The bit [m < 32] of a colour, by channel. *)
Lemma rgb_bit (r g b m : Z) :
  0 <= m < 32 ->
  Z.testbit (rgb_uint32 r g b) m =
  Z.testbit r (m - 24) || Z.testbit g (m - 16) || Z.testbit b (m - 8) || Z.testbit 255 m.
Proof.
  intros Hm. unfold rgb_uint32, uint32_t.
  rewrite Z.mod_pow2_bits_low, !Z.lor_spec, !testbit_to_int, !Z.shiftl_spec by lia.
  reflexivity.
Qed.

Lemma alpha_bit (k : Z) : 0 <= k -> Z.testbit 255 k = (k <? 8).
Proof.
  intros Hk. change 255 with (Z.ones 8).
  destruct (Z.ltb_spec k 8); [apply Z.ones_spec_low | apply Z.ones_spec_high]; lia.
Qed.

Lemma byte_at (c r s : Z) :
  0 <= s -> 0 <= r < 256 ->
  (forall k, 0 <= k < 8 -> Z.testbit c (k + s) = Z.testbit r k) ->
  Z.land (Z.shiftr c s) 255 = r.
Proof.
  intros Hs Hr H. apply Z.bits_inj'. intros k Hk.
  rewrite Z.land_spec, Z.shiftr_spec, alpha_bit by lia.
  destruct (Z.ltb_spec k 8) as [Hlow|Hhigh].
  - rewrite H by lia. apply andb_true_r.
  - rewrite andb_false_r. symmetry. apply byte_high_bits; lia.
Qed.

(** X1. A colour packs its three bytes and an opaque alpha: the value is
    below 2^32, the bytes at bits 24, 16 and 8 are the red, green and blue it
    was made from, and the lowest byte is 255. *)
Theorem rgb_uint32_channels (r g b : Z) :
  0 <= r < 256 -> 0 <= g < 256 -> 0 <= b < 256 ->
  0 <= rgb_uint32 r g b < 2 ^ 32 /\
  Z.land (Z.shiftr (rgb_uint32 r g b) 24) 255 = r /\
  Z.land (Z.shiftr (rgb_uint32 r g b) 16) 255 = g /\
  Z.land (Z.shiftr (rgb_uint32 r g b) 8) 255 = b /\
  Z.land (rgb_uint32 r g b) 255 = 255.
Proof.
  intros Hr Hg Hb.
  split; [apply Z.mod_pos_bound; lia|].
  split; [|split; [|split]].
  - apply byte_at; [lia | exact Hr |]. intros k Hk. rewrite rgb_bit by lia.
    rewrite (byte_high_bits g), (byte_high_bits b), alpha_bit by lia.
    replace (k + 24 - 24) with k by lia.
    destruct (Z.ltb_spec (k + 24) 8); [lia|]. rewrite !orb_false_r. reflexivity.
  - apply byte_at; [lia | exact Hg |]. intros k Hk. rewrite rgb_bit by lia.
    rewrite (Z.testbit_neg_r r), (byte_high_bits b), alpha_bit by lia.
    replace (k + 16 - 16) with k by lia.
    destruct (Z.ltb_spec (k + 16) 8); [lia|]. rewrite !orb_false_r. reflexivity.
  - apply byte_at; [lia | exact Hb |]. intros k Hk. rewrite rgb_bit by lia.
    rewrite (Z.testbit_neg_r r), (Z.testbit_neg_r g), alpha_bit by lia.
    replace (k + 8 - 8) with k by lia.
    destruct (Z.ltb_spec (k + 8) 8); [lia|]. rewrite !orb_false_r. reflexivity.
  - rewrite <- (Z.shiftr_0_r (rgb_uint32 r g b)).
    apply byte_at; [lia | lia |]. intros k Hk. rewrite rgb_bit by lia.
    rewrite (Z.testbit_neg_r r), (Z.testbit_neg_r g), (Z.testbit_neg_r b) by lia.
    rewrite Z.add_0_r. reflexivity.
Qed.

Lemma rgb_uint32_channels_witness :
  Z.land (Z.shiftr (rgb_uint32 128 0 0) 24) 255 = 128.
Proof.
  apply (rgb_uint32_channels 128 0 0); lia.
Defined.

(** ** [sprite_overlap_check] *)

(** X2. The overlap test is symmetric in its two sprites, for all operands
    (also those on which the unsigned sums wrap). *)
Theorem sprite_overlap_check_sym (sp_a sp_b : Sprite) (x_a y_a x_b y_b : Z) :
  sprite_overlap_check sp_a x_a y_a sp_b x_b y_b =
  sprite_overlap_check sp_b x_b y_b sp_a x_a y_a.
Proof.
  unfold sprite_overlap_check. rewrite !Z.gtb_ltb.
  destruct (x_a <? size_t (x_b + sprite_width sp_b)),
           (x_b <? size_t (x_a + sprite_width sp_a)),
           (y_a <? size_t (y_b + sprite_height sp_b)),
           (y_b <? size_t (y_a + sprite_height sp_a)); reflexivity.
Qed.

(** X3. For sprites that are not empty and where no sum wraps, two sprites
    overlap exactly when their boxes share a pixel; boxes that only touch
    along an edge do not overlap. *)
Theorem sprite_overlap_check_shares_pixel (sp_a sp_b : Sprite) (x_a y_a x_b y_b : Z) :
  0 <= x_a -> 0 <= y_a -> 0 <= x_b -> 0 <= y_b ->
  0 < sprite_width sp_a -> 0 < sprite_height sp_a ->
  0 < sprite_width sp_b -> 0 < sprite_height sp_b ->
  x_a + sprite_width sp_a < 2 ^ 64 -> y_a + sprite_height sp_a < 2 ^ 64 ->
  x_b + sprite_width sp_b < 2 ^ 64 -> y_b + sprite_height sp_b < 2 ^ 64 ->
  (sprite_overlap_check sp_a x_a y_a sp_b x_b y_b = true <->
   exists px py,
     x_a <= px < x_a + sprite_width sp_a /\ x_b <= px < x_b + sprite_width sp_b /\
     y_a <= py < y_a + sprite_height sp_a /\ y_b <= py < y_b + sprite_height sp_b) /\
  (x_a + sprite_width sp_a = x_b \/ y_a + sprite_height sp_a = y_b ->
   sprite_overlap_check sp_a x_a y_a sp_b x_b y_b = false).
Proof.
  intros Hxa Hya Hxb Hyb Hwa Hha Hwb Hhb Ha1 Ha2 Hb1 Hb2. unfold sprite_overlap_check.
  rewrite (size_t_small (x_b + sprite_width sp_b)), (size_t_small (x_a + sprite_width sp_a)),
    (size_t_small (y_b + sprite_height sp_b)), (size_t_small (y_a + sprite_height sp_a))
    by lia.
  rewrite !Z.gtb_ltb. split.
  - rewrite !andb_true_iff, !Z.ltb_lt. split.
    + intros E. exists (Z.max x_a x_b), (Z.max y_a y_b). lia.
    + intros [px [py Hp]]. lia.
  - intros E. apply not_true_is_false. rewrite !andb_true_iff, !Z.ltb_lt. lia.
Qed.

Lemma sprite_overlap_check_shares_pixel_witness :
  sprite_overlap_check bullet_sprite 28 196 (mkSprite 8 8) 26 196 = true <->
  exists px py,
    28 <= px < 28 + 1 /\ 26 <= px < 26 + 8 /\ 196 <= py < 196 + 3 /\ 196 <= py < 196 + 8.
Proof.
  apply (sprite_overlap_check_shares_pixel bullet_sprite (mkSprite 8 8) 28 196 26 196);
    simpl; lia.
Defined.

(** ** [xorshift32] *)

Lemma identity_matrix (x : Z) : 0 <= x < 2 ^ 32 -> apply (unit_vectors 0 32) x = x.
Proof.
  intros Hx.
  assert (Hid : linear (fun z => z)) by (split; reflexivity).
  pose proof (linear_is_apply _ Hid 32 0 x) as H.
  rewrite map_id, Z.shiftl_0_r in H. symmetry. apply H; [lia | exact Hx].
Qed.

Lemma next_period (x : Z) : 0 <= x < 2 ^ 32 -> Pos.iter next x full_period = x.
Proof.
  intros Hx. rewrite iter_next_is_power by exact Hx.
  replace (power full_period) with (unit_vectors 0 32) by (vm_compute; reflexivity).
  apply identity_matrix. exact Hx.
Qed.

(** X4. The generator has a period that divides 2^32 - 1: after that many
    calls every 32-bit state is back where it started. *)
Theorem xorshift32_comes_back (x : Z) :
  0 <= x < 2 ^ 32 -> Pos.iter next x full_period = x.
Proof. apply next_period. Qed.

Lemma xorshift32_comes_back_witness : Pos.iter next 13 full_period = 13.
Proof. apply (xorshift32_comes_back 13). lia. Defined.

Lemma next_back (x : Z) :
  0 <= x < 2 ^ 32 -> Pos.iter next (next x) (Pos.pred full_period) = x.
Proof.
  intros Hx. rewrite Pos.iter_swap, <- Pos.iter_succ.
  change (Pos.succ (Pos.pred full_period)) with full_period.
  apply next_period. exact Hx.
Qed.

(** X5. One call is a bijection of the 32-bit states that keeps zero apart:
    the new state is again a 32-bit value, different states have different
    successors, and the successor is zero only for the state zero, so a
    generator seeded with a non-zero value never gets stuck at zero. *)
Theorem xorshift32_is_injective (x y : Z) :
  0 <= x < 2 ^ 32 -> 0 <= y < 2 ^ 32 ->
  0 <= next x < 2 ^ 32 /\
  (next x = next y -> x = y) /\
  (next x = 0 <-> x = 0).
Proof.
  intros Hx Hy. split; [apply next_range; exact Hx|].
  assert (Hinj : forall a b, 0 <= a < 2 ^ 32 -> 0 <= b < 2 ^ 32 -> next a = next b -> a = b).
  { intros a b Ha Hb E. rewrite <- (next_back a Ha), <- (next_back b Hb), E. reflexivity. }
  split; [apply Hinj; assumption|].
  split.
  - intros E. apply (Hinj x 0); [exact Hx | lia | rewrite E; reflexivity].
  - intros ->. reflexivity.
Qed.

Lemma xorshift32_is_injective_witness : next 13 = 0 <-> 13 = 0.
Proof. apply (xorshift32_is_injective 13 13); lia. Defined.

(** ** [key_callback] and the event queue *)

Lemma key_callback_flags (k : key) (a : action) (s : Sim) :
  (game_running (key_callback k a s) = true -> game_running s = true) /\
  (fire_pressed s = true -> fire_pressed (key_callback k a s) = true) /\
  move_dir (key_callback k a s) = move_dir s + intent_of (k, a).
Proof. destruct k, a; cbn; repeat split; auto; try discriminate; lia. Qed.

Lemma poll_flags (events : list (key * action)) (s : Sim) :
  (game_running (glfwPollEvents events s) = true -> game_running s = true) /\
  (fire_pressed s = true -> fire_pressed (glfwPollEvents events s) = true).
Proof.
  unfold glfwPollEvents. revert s.
  induction events as [|[k a] events IH]; intros s; simpl; [auto|].
  destruct (IH (key_callback k a s)) as [IH1 IH2].
  destruct (key_callback_flags k a s) as [H1 [H2 _]]. auto.
Qed.

(** X6. Polling events never restarts a stopped game and never takes back a
    fire request: [game_running] can only go from true to false, and
    [fire_pressed] only from false to true. *)
Theorem glfwPollEvents_flags (events : list (key * action)) (s : Sim) :
  (game_running (glfwPollEvents events s) = true -> game_running s = true) /\
  (fire_pressed s = true -> fire_pressed (glfwPollEvents events s) = true).
Proof. apply poll_flags. Qed.

(** X7. The movement intent after polling is the old one plus one for every
    press of D and release of A, minus one for every release of D and press of
    A, and minus one for every release of Escape, whose case falls through
    into the case of D.  No other event counts. *)
Theorem glfwPollEvents_move_dir (events : list (key * action)) (s : Sim) :
  move_dir (glfwPollEvents events s) = move_dir s + sum (map intent_of events).
Proof.
  unfold glfwPollEvents. revert s.
  induction events as [|[k a] events IH]; intros s; cbn [fold_left map sum fold_right fst snd];
    [lia|].
  rewrite IH. destruct (key_callback_flags k a s) as [_ [_ ->]]. unfold sum. lia.
Qed.

Lemma escape_stops (events : list (key * action)) (s : Sim) :
  In (KEY_ESCAPE, PRESS) events -> game_running (glfwPollEvents events s) = false.
Proof.
  revert s. induction events as [|e events IH]; intros s Hin; [contradiction|].
  destruct Hin as [->|Hin]; [|apply (IH (key_callback (fst e) (snd e) s)); exact Hin].
  apply not_true_is_false. intros Hrun.
  apply (poll_flags events (key_callback KEY_ESCAPE PRESS s)) in Hrun. discriminate.
Qed.

Lemma frame_polls (fuel : nat) (events : list (key * action)) (s s' : Sim) :
  frame fuel events s = Done s' -> exists s0, s' = glfwPollEvents events s0.
Proof.
  unfold frame. destruct (Player.lives (player (game s)) =? 0); intros H.
  - injection H as <-. eauto.
  - apply bind_done in H. destruct H as [s1 [_ H]].
    apply bind_done in H. destruct H as [s2 [_ H]]. injection H as <-. eauto.
Qed.

(** X8. A press of Escape ends the loop with the frame that delivers it: the
    frames queued behind it are never simulated, whatever keys they bring. *)
Theorem escape_ends_main_loop (fuel : nat) (events : list (key * action))
        (rest : list (list (key * action))) (s s' : Sim) :
  game_running s = true ->
  In (KEY_ESCAPE, PRESS) events ->
  frame fuel events s = Done s' ->
  main_loop fuel (events :: rest) s = Done s' /\ game_running s' = false.
Proof.
  intros Hrun Hin Hframe. cbn [main_loop]. rewrite Hrun, Hframe. cbn [bind].
  assert (Hstop : game_running s' = false).
  { destruct (frame_polls _ _ _ _ Hframe) as [s0 ->]. apply escape_stops. exact Hin. }
  split; [|exact Hstop].
  destruct rest; cbn [main_loop]; [reflexivity | rewrite Hstop; reflexivity].
Qed.

Lemma escape_ends_main_loop_witness :
  main_loop patience ([(KEY_ESCAPE, PRESS)] :: [[(KEY_SPACE, PRESS)]; []]) initial
  = frame patience [(KEY_ESCAPE, PRESS)] initial.
Proof.
  destruct (frame patience [(KEY_ESCAPE, PRESS)] initial) as [s'| |] eqn:E;
    [|vm_compute in E; discriminate..].
  apply (escape_ends_main_loop patience [(KEY_ESCAPE, PRESS)] [[(KEY_SPACE, PRESS)]; []]
           initial s'); [reflexivity | left; reflexivity | exact E].
Defined.

(** ** The player stays on the field *)

Lemma player_stays_on_field_witness :
  0 <= Player.x (player (game (simulate_player at_left_wall))) <= 213.
Proof.
  apply (player_stays_on_field at_left_wall); [reflexivity | |];
    vm_compute; split; first [discriminate | reflexivity].
Defined.

Lemma player_clamped_for_small_intent_witness :
  Player.x (player (game (simulate_player (glfwPollEvents [(KEY_D, PRESS)] initial))))
  = Z.max 0 (Z.min 213
      (Player.x (player (game (glfwPollEvents [(KEY_D, PRESS)] initial)))
       + 2 * move_dir (glfwPollEvents [(KEY_D, PRESS)] initial))).
Proof.
  apply (player_clamped_for_small_intent (glfwPollEvents [(KEY_D, PRESS)] initial));
    [reflexivity | | |]; vm_compute; try split; first [discriminate | reflexivity].
Defined.

(** ** The bounds step needs a live alien *)

Lemma skip_dead_up_all_dead (l : list Alien.t) (fuel : nat) :
  forall ai,
  Forall (fun a => Alien.type a = DEAD) l ->
  Z.of_nat (length l) < 2 ^ 64 -> 0 <= ai ->
  (1 <= fuel)%nat -> Z.of_nat (length l) - ai < Z.of_nat fuel ->
  skip_dead fuel 1 ai l = Fault OutOfRange.
Proof.
  induction fuel as [|fuel IH]; intros ai Hd Hlen Hai H1 Hfuel; [lia|].
  simpl. destruct (get_outcome l ai) as [[alien Ha]|Ha]; rewrite Ha; [|reflexivity].
  cbn [bind]. rewrite Forall_forall in Hd. rewrite (Hd alien (get_in _ _ _ Ha)), Z.eqb_refl.
  destruct (Z.lt_ge_cases ai (Z.of_nat (length l))) as [Hin|Hout].
  - rewrite (size_t_small (ai + 1)) by lia. apply IH; [apply Forall_forall; exact Hd | lia..].
  - rewrite get_past_end in Ha by lia. discriminate.
Qed.

(** X11. The bounds step scans for the first live alien with no test of the
    index: when no alien of the vector is alive the scan reads past its end. *)
Theorem track_bounds_without_live_alien (s : Sim) :
  all_dead s ->
  Z.of_nat (length (aliens (game s))) < 2 ^ 64 ->
  track_bounds s = Fault OutOfRange.
Proof.
  intros Hd Hlen. unfold track_bounds.
  rewrite skip_dead_up_all_dead; [reflexivity | exact Hd | lia..].
Qed.

Lemma track_bounds_without_live_alien_witness : track_bounds no_alien_left = Fault OutOfRange.
Proof.
  apply (track_bounds_without_live_alien no_alien_left).
  - unfold all_dead. apply Forall_forall. intros a Ha.
    vm_compute in Ha. repeat (destruct Ha as [<-|Ha]; [reflexivity|]). contradiction.
  - vm_compute. reflexivity.
Defined.

(** ** What a frame leaves alone *)

Lemma replace_length {A : Type} (l : list A) (n : nat) (a : A) :
  length (replace l n a) = length l.
Proof. revert n. induction l as [|b l IH]; intros [|n]; simpl; auto. Qed.

Lemma for_while_keeps (P : Sim -> Prop) (cond : Z -> Sim -> bool)
      (body : Z -> Sim -> result (flow * Sim)) :
  (forall i s c s', P s -> body i s = Done (c, s') -> P s') ->
  forall fuel i s s', P s -> for_while fuel cond body i s = Done s' -> P s'.
Proof.
  intros Hbody. induction fuel as [|fuel IH]; intros i s s' Hs H; simpl in H; [discriminate|].
  destruct (cond i s); [|injection H as <-; exact Hs].
  apply bind_done in H. destruct H as [[c s1] [Hb H]].
  pose proof (Hbody _ _ _ _ Hs Hb) as Hs1.
  destruct c; [eapply IH; eassumption | injection H as <-; exact Hs1].
Qed.

Ltac run H :=
  repeat first
    [ progress cbn [bind] in H
    | match type of H with
      | bind (put _ _ _) _ = Done _ =>
          let l := fresh "l" in let E := fresh "E" in
          apply bind_done in H; destruct H as [l [E H]];
          apply put_done in E; destruct E as [? ->]
      | bind _ _ = Done _ =>
          let a := fresh "a" in let E := fresh "E" in
          apply bind_done in H; destruct H as [a [E H]]
      | (if ?c then _ else _) = Done _ => destruct c eqn:?
      | (let '(_, _) := ?p in _) = Done _ => destruct p eqn:?
      | match ?p with Next => _ | Break => _ end = Done _ => destruct p eqn:?
      | match ?p with (_, _) => _ end = Done _ => destruct p eqn:?
      | Done _ = Done _ => injection H; clear H; intros; subst
      end ].

Tactic Notation "shapes" :=
  unfold kept, shape, still;
  cbn -[Z.mul Z.add Z.sub Z.pow Z.div Z.rem Z.modulo size_t of_int to_int replace length map];
  rewrite ?replace_length.

Ltac same_kept :=
  repeat match goal with |- context [if ?c then _ else _] => destruct c end;
  shapes; reflexivity.

(** [kept (f a) = kept s] from [E : kept a = kept (g s)], for [f] and [g]
    that leave them alone. *)
Ltac through E :=
  etransitivity; [|etransitivity; [exact E|]]; same_kept.

Lemma still_advance (a : Sprite_animation) : still (advance a) = still a.
Proof. unfold advance, still. destruct a; cbn. match goal with |- context [if ?c then _ else _] => destruct c end; reflexivity. Qed.

Lemma still_set_frame_duration (d : Z) (a : Sprite_animation) :
  still (set_frame_duration d a) = still a.
Proof. destruct a; reflexivity. Qed.

Lemma update_aliens_position_kept (s s' : Sim) :
  update_aliens_position s = Done s' -> kept s' = kept s.
Proof.
  unfold update_aliens_position. intros H. run H; [|reflexivity].
  eapply (for_each_keeps (fun s0 => kept s0 = kept s)); [| |exact H]; [|reflexivity].
  clear. intros i s1 c s2 Hs H. rewrite <- Hs. unfold update_alien_position, umod in H.
  run H; try reflexivity; shapes; reflexivity.
Qed.

Lemma remove_bullet_kept (i : Z) (s s' : Sim) :
  remove_bullet i s = Done s' -> kept s' = kept s.
Proof. unfold remove_bullet. intros H. run H. shapes. reflexivity. Qed.

Lemma hit_alien_kept (i j : Z) (sp : Sprite) (s s' : Sim) :
  hit_alien i j sp s = Done s' -> kept s' = kept s.
Proof.
  unfold hit_alien. intros H. run H.
  match goal with E : remove_bullet _ _ = Done _ |- _ =>
    apply remove_bullet_kept in E; through E end.
Qed.

Lemma check_hits_kept (i : Z) (s s' : Sim) :
  check_hits i s = Done s' -> kept s' = kept s.
Proof.
  unfold check_hits. intros H.
  eapply (for_each_keeps (fun s0 => kept s0 = kept s)); [| |exact H]; [|reflexivity].
  clear. intros j s1 c s2 Hs H. rewrite <- Hs. unfold check_hit in H.
  run H; try reflexivity. eapply hit_alien_kept; eassumption.
Qed.

Lemma kept_shape (s s' : Sim) : kept s' = kept s -> shape s' = shape s.
Proof. unfold kept. intros H. exact (f_equal fst H). Qed.

Lemma kept_lives (s s' : Sim) :
  kept s' = kept s -> Player.lives (player (game s')) = Player.lives (player (game s)).
Proof. unfold kept. intros H. exact (f_equal snd H). Qed.

Lemma simulate_bullet_shape (i : Z) (s : Sim) (c : flow) (s' : Sim) :
  simulate_bullet i s = Done (c, s') ->
  shape s' = shape s /\
  (Player.lives (player (game s')) = Player.lives (player (game s)) \/
   c = Break /\ Player.lives (player (game s')) = size_t (Player.lives (player (game s)) - 1)).
Proof.
  unfold simulate_bullet. intros H. run H.
  - match goal with E : remove_bullet _ _ = Done _ |- _ => apply remove_bullet_kept in E;
      split; [apply kept_shape | left; apply kept_lives]; through E end.
  - match goal with E : remove_bullet _ _ = Done _ |- _ => apply remove_bullet_kept in E;
      split; [apply kept_shape in E; rewrite E; same_kept
             | right; split; [reflexivity|]; apply kept_lives in E; rewrite E; reflexivity] end.
  - split; [same_kept | left; reflexivity].
  - match goal with E : bullet_vs_bullet _ = Done _ |- _ =>
      unfold bullet_vs_bullet in E;
      rewrite bullet_vs_bullet_rounds in E by (rewrite Z.sub_0_r; lia);
      injection E as <- end.
    match goal with E : check_hits _ _ = Done _ |- _ => apply check_hits_kept in E;
      split; [apply kept_shape | left; apply kept_lives]; through E end.
Qed.

Lemma simulate_bullets_shape (s s' : Sim) :
  simulate_bullets s = Done s' -> shape s' = shape s.
Proof.
  unfold simulate_bullets. intros H.
  eapply (for_while_keeps (fun s0 => shape s0 = shape s)); [| |exact H]; [|reflexivity].
  clear. intros i s1 c s2 Hs H. rewrite <- Hs. apply simulate_bullet_shape in H. apply H.
Qed.

Lemma bullet_rounds_lives (fuel : nat) :
  forall i s s',
  for_while fuel bullets_left simulate_bullet i s = Done s' ->
  Player.lives (player (game s')) = Player.lives (player (game s)) \/
  Player.lives (player (game s')) = size_t (Player.lives (player (game s)) - 1).
Proof.
  induction fuel as [|fuel IH]; intros i s s' H; simpl in H; [discriminate|].
  destruct (bullets_left i s); [|injection H as <-; left; reflexivity].
  apply bind_done in H. destruct H as [[c s1] [Hb H]].
  apply simulate_bullet_shape in Hb. destruct Hb as [_ [Hsame|[-> Hlost]]].
  - destruct c; [apply IH in H; rewrite <- Hsame; exact H | injection H as <-; left; exact Hsame].
  - injection H as <-. right. exact Hlost.
Qed.

Lemma map_still (f : Sprite_animation -> Sprite_animation) (l : list Sprite_animation) :
  (forall a, still (f a) = still a) -> map still (map f l) = map still l.
Proof. intros Hf. rewrite map_map. apply map_ext. exact Hf. Qed.

Lemma change_speed_kept (s : Sim) : kept (change_speed s) = kept s.
Proof.
  unfold change_speed. destruct (should_change_speed s); [|reflexivity].
  unfold kept, shape.
  cbn -[Z.mul Z.add Z.sub Z.pow Z.div Z.rem Z.modulo size_t of_int to_int replace length map still].
  rewrite map_still by apply still_set_frame_duration. reflexivity.
Qed.

Lemma count_deaths_kept (s s' : Sim) : count_deaths s = Done s' -> kept s' = kept s.
Proof.
  unfold count_deaths. intros H.
  eapply (for_each_keeps (fun s0 => kept s0 = kept s)); [| |exact H]; [|reflexivity].
  clear. intros j s1 c s2 Hs H. rewrite <- Hs. unfold count_death in H.
  run H; same_kept.
Qed.

Lemma descend_kept (i : Z) (s : Sim) (c : flow) (s' : Sim) :
  descend i s = Done (c, s') -> kept s' = kept s.
Proof. unfold descend. intros H. run H. same_kept. Qed.

Lemma march_kept (i : Z) (s : Sim) (c : flow) (s' : Sim) :
  march i s = Done (c, s') -> kept s' = kept s.
Proof. unfold march. intros H. run H. same_kept. Qed.

Lemma random_alien_kept (s : Sim) : kept (snd (random_alien s)) = kept s.
Proof. unfold random_alien. destruct (random (rng s)). reflexivity. Qed.

Lemma pick_alive_kept (fuel : nat) :
  forall rai s rai' s', pick_alive fuel rai s = Done (rai', s') -> kept s' = kept s.
Proof.
  induction fuel as [|fuel IH]; intros rai s rai' s' H; cbn [pick_alive] in H; [discriminate|].
  apply bind_done in H. destruct H as [alien [_ H]].
  destruct (Alien.type alien =? DEAD); [|injection H as _ <-; reflexivity].
  pose proof (random_alien_kept s) as Hr.
  destruct (random_alien s) as [rai1 s1]. apply IH in H. rewrite H. exact Hr.
Qed.

Lemma alien_fire_kept (fuel : nat) (s s' : Sim) :
  alien_fire fuel s = Done s' -> kept s' = kept s.
Proof.
  unfold alien_fire. intros H.
  destruct (of_int (aliens_killed s) <? num_aliens (game s)); [|injection H as <-; reflexivity].
  pose proof (random_alien_kept s) as Hr.
  destruct (random_alien s) as [rai1 s1]. cbn [snd] in Hr. rewrite <- Hr.
  apply bind_done in H. destruct H as [[rai2 s2] [Hp H]].
  apply pick_alive_kept in Hp. rewrite <- Hp. run H. same_kept.
Qed.

Lemma formation_step_kept (fuel : nat) (s s' : Sim) :
  formation_step fuel s = Done s' -> kept s' = kept s.
Proof.
  unfold formation_step. intros H.
  destruct (alien_update_timer s >=? alien_update_frequency s); [|injection H as <-; reflexivity].
  apply bind_done in H. destruct H as [s1 [H1 H]].
  apply bind_done in H. destruct H as [s2 [H2 H]].
  apply alien_fire_kept in H. rewrite H. clear H.
  apply (for_each_keeps (fun s0 => kept s0 = kept s) march) in H2;
    [exact H2 | intros i sa c sb Hs Hb; rewrite <- Hs; eapply march_kept; exact Hb |].
  transitivity (kept s1); [same_kept|].
  run H1; try same_kept.
  apply (for_each_keeps (fun s0 => kept s0 = kept s) descend) in H1;
    [exact H1 | intros i sa c sb Hs Hb; rewrite <- Hs; eapply descend_kept; exact Hb |].
  same_kept.
Qed.

Lemma update_animations_kept (s : Sim) : kept (update_animations s) = kept s.
Proof.
  unfold update_animations, kept, shape.
  cbn -[Z.mul Z.add Z.sub Z.pow Z.div Z.rem Z.modulo size_t of_int to_int replace length map still
        advance].
  rewrite map_still by apply still_advance. rewrite still_advance. reflexivity.
Qed.

Lemma simulate_player_kept (s : Sim) : kept (simulate_player s) = kept s.
Proof. unfold simulate_player. cbn [player_move set_player_move]. same_kept. Qed.

Lemma track_bounds_kept (s s' : Sim) : track_bounds s = Done s' -> kept s' = kept s.
Proof. unfold track_bounds. intros H. run H; same_kept. Qed.

Lemma reset_wave_kept (s s' : Sim) : reset_wave s = Done s' -> kept s' = kept s.
Proof.
  unfold reset_wave. intros H.
  apply (for_each_keeps (fun s0 => kept s0 = kept s) reset_column) in H;
    [exact H | | same_kept].
  clear. intros xi s1 c s2 Hs H. rewrite <- Hs. unfold reset_column in H.
  apply bind_done in H. destruct H as [s3 [H H']]. injection H' as _ <-.
  apply (for_each_keeps (fun s0 => kept s0 = kept s1) (reset_alien xi)) in H;
    [exact H | | reflexivity].
  clear. intros yi s1' c s2 Hs H. rewrite <- Hs. unfold reset_alien in H.
  run H. same_kept.
Qed.

Lemma process_events_kept (s s' : Sim) : process_events s = Done s' -> kept s' = kept s.
Proof.
  unfold process_events. intros H.
  apply bind_done in H. destruct H as [s1 [H1 H]]. injection H as <-.
  transitivity (kept s1); [same_kept|]. run H1; same_kept.
Qed.

Lemma key_callback_kept (k : key) (a : action) (s : Sim) : kept (key_callback k a s) = kept s.
Proof. destruct k, a; reflexivity. Qed.

Lemma glfwPollEvents_kept (events : list (key * action)) (s : Sim) :
  kept (glfwPollEvents events s) = kept s.
Proof.
  unfold glfwPollEvents. revert s.
  induction events as [|[k a] events IH]; intros s; simpl; [reflexivity|].
  rewrite IH. apply key_callback_kept.
Qed.

Lemma draw_same (s s' : Sim) : draw s = Done s' -> s' = s.
Proof.
  unfold draw. intros H. apply bind_done in H. destruct H as [s1 [H1 H]].
  assert (E1 : s1 = s).
  { apply (for_each_keeps (fun s0 => s0 = s) draw_alien) in H1; [exact H1 | | reflexivity].
    clear. intros i s1 c s2 -> H. unfold draw_alien in H. run H; reflexivity. }
  subst s1.
  apply (for_each_keeps (fun s0 => s0 = s) draw_bullet) in H; [exact H | | reflexivity].
  clear. intros i s1 c s2 -> H. unfold draw_bullet in H. run H; reflexivity.
Qed.

Lemma simulate_shape (fuel : nat) (s s' : Sim) : simulate fuel s = Done s' -> shape s' = shape s.
Proof.
  unfold simulate. intros H.
  apply bind_done in H. destruct H as [s1 [H1 H]]. apply update_aliens_position_kept, kept_shape in H1.
  apply bind_done in H. destruct H as [s2 [H2 H]]. apply simulate_bullets_shape in H2.
  apply bind_done in H. destruct H as [s3 [H3 H]]. apply count_deaths_kept, kept_shape in H3.
  apply bind_done in H. destruct H as [s4 [H4 H]]. apply formation_step_kept, kept_shape in H4.
  apply bind_done in H. destruct H as [s5 [H5 H]].
  apply process_events_kept, kept_shape in H. rewrite H.
  transitivity (shape (simulate_player (update_animations s4))).
  { unfold bounds_or_reset in H5.
    destruct (of_int (aliens_killed (simulate_player (update_animations s4)))
              <? num_aliens (game (simulate_player (update_animations s4))));
      [apply track_bounds_kept in H5 | apply reset_wave_kept in H5]; apply kept_shape; exact H5. }
  rewrite (kept_shape _ _ (simulate_player_kept _)), (kept_shape _ _ (update_animations_kept _)),
    H4, H3, (kept_shape _ _ (change_speed_kept _)), H2.
  exact H1.
Qed.

Lemma frame_shape (fuel : nat) (events : list (key * action)) (s s' : Sim) :
  frame fuel events s = Done s' -> shape s' = shape s.
Proof.
  unfold frame. intros H. destruct (Player.lives (player (game s)) =? 0).
  - injection H as <-. apply kept_shape, glfwPollEvents_kept.
  - apply bind_done in H. destruct H as [s1 [H1 H]]. apply draw_same in H1. subst s1.
    apply bind_done in H. destruct H as [s2 [H2 H]]. injection H as <-.
    rewrite (kept_shape _ _ (glfwPollEvents_kept _ _)). eapply simulate_shape. exact H2.
Qed.

(** X12. However long the game runs and whatever keys arrive, the loop never
    resizes a vector, never changes the playfield, the number of aliens or the
    frames of an animation, and never moves the player off its row. *)
Theorem main_loop_keeps_shape (fuel : nat) (input : list (list (key * action))) :
  forall s s', main_loop fuel input s = Done s' -> shape s' = shape s.
Proof.
  induction input as [|events input IH]; intros s s' H; cbn [main_loop] in H.
  - injection H as <-. reflexivity.
  - destruct (game_running s); [|injection H as <-; reflexivity].
    apply bind_done in H. destruct H as [s1 [H1 H]].
    apply IH in H. rewrite H. eapply frame_shape. exact H1.
Qed.

Lemma main_loop_keeps_shape_witness :
  exists s', main_loop patience [[(KEY_SPACE, PRESS)]; [(KEY_D, PRESS)]; []] initial = Done s' /\
             shape s' = shape initial.
Proof.
  destruct (main_loop patience [[(KEY_SPACE, PRESS)]; [(KEY_D, PRESS)]; []] initial)
    as [s'| |] eqn:E; [|vm_compute in E; discriminate..].
  exists s'. split; [reflexivity|].
  apply (main_loop_keeps_shape patience [[(KEY_SPACE, PRESS)]; [(KEY_D, PRESS)]; []] initial s').
  exact E.
Defined.

(** ** Lives *)

Lemma simulate_lives (fuel : nat) (s s' : Sim) :
  simulate fuel s = Done s' ->
  Player.lives (player (game s')) = Player.lives (player (game s)) \/
  Player.lives (player (game s')) = size_t (Player.lives (player (game s)) - 1).
Proof.
  unfold simulate. intros H.
  apply bind_done in H. destruct H as [s1 [H1 H]]. apply update_aliens_position_kept, kept_lives in H1.
  apply bind_done in H. destruct H as [s2 [H2 H]]. apply bullet_rounds_lives in H2.
  apply bind_done in H. destruct H as [s3 [H3 H]]. apply count_deaths_kept, kept_lives in H3.
  apply bind_done in H. destruct H as [s4 [H4 H]]. apply formation_step_kept, kept_lives in H4.
  apply bind_done in H. destruct H as [s5 [H5 H]].
  apply process_events_kept, kept_lives in H. rewrite H.
  assert (E5 : Player.lives (player (game s5)) = Player.lives (player (game s2))).
  { transitivity (Player.lives (player (game (simulate_player (update_animations s4))))).
    - unfold bounds_or_reset in H5.
      destruct (of_int (aliens_killed (simulate_player (update_animations s4)))
                <? num_aliens (game (simulate_player (update_animations s4))));
        [apply track_bounds_kept in H5 | apply reset_wave_kept in H5]; apply kept_lives; exact H5.
    - rewrite (kept_lives _ _ (simulate_player_kept _)), (kept_lives _ _ (update_animations_kept _)),
        H4, H3. apply (kept_lives _ _ (change_speed_kept _)). }
  rewrite E5, <- H1. exact H2.
Qed.

Lemma frame_lives (fuel : nat) (events : list (key * action)) (s s' : Sim) :
  0 <= Player.lives (player (game s)) < 2 ^ 64 ->
  frame fuel events s = Done s' ->
  0 <= Player.lives (player (game s')) <= Player.lives (player (game s)) /\
  Player.lives (player (game s)) - 1 <= Player.lives (player (game s')).
Proof.
  unfold frame. intros Hl H.
  destruct (Z.eqb_spec (Player.lives (player (game s))) 0) as [Hz|Hnz].
  - injection H as <-. rewrite (kept_lives _ _ (glfwPollEvents_kept _ _)). lia.
  - apply bind_done in H. destruct H as [s1 [H1 H]]. apply draw_same in H1. subst s1.
    apply bind_done in H. destruct H as [s2 [H2 H]]. injection H as <-.
    rewrite (kept_lives _ _ (glfwPollEvents_kept _ _)).
    apply simulate_lives in H2. destruct H2 as [->| ->]; [lia|].
    rewrite size_t_small by lia. lia.
Qed.

(** X13. Lives only go down, by at most one in a frame, and never below zero:
    the bullet loop leaves at the first alien bullet that hits the player, and
    a game with no life left simulates nothing, so the unsigned count never
    wraps. *)
Theorem lives_only_go_down (fuel : nat) (input : list (list (key * action))) :
  forall s s',
  0 <= Player.lives (player (game s)) < 2 ^ 64 ->
  main_loop fuel input s = Done s' ->
  0 <= Player.lives (player (game s')) <= Player.lives (player (game s)) /\
  Player.lives (player (game s)) - Z.of_nat (length input) <= Player.lives (player (game s')).
Proof.
  induction input as [|events input IH]; intros s s' Hl H; cbn [main_loop] in H.
  - injection H as <-. cbn [length]. lia.
  - cbn [length]. destruct (game_running s); [|injection H as <-; lia].
    apply bind_done in H. destruct H as [s1 [H1 H]].
    apply frame_lives in H1; [|exact Hl]. apply IH in H; lia.
Qed.

Lemma lives_only_go_down_witness :
  exists s', main_loop patience [[(KEY_SPACE, PRESS)]; [(KEY_D, PRESS)]; []] initial = Done s' /\
             0 <= Player.lives (player (game s')) <= 3.
Proof.
  destruct (main_loop patience [[(KEY_SPACE, PRESS)]; [(KEY_D, PRESS)]; []] initial)
    as [s'| |] eqn:E; [|vm_compute in E; discriminate..].
  exists s'. split; [reflexivity|].
  apply (lives_only_go_down patience [[(KEY_SPACE, PRESS)]; [(KEY_D, PRESS)]; []] initial s');
    [vm_compute; split; [discriminate | reflexivity] | exact E].
Defined.

(** ** Reads and writes of a vector *)

Lemma nth_error_replace {A : Type} (l : list A) (n m : nat) (a : A) :
  nth_error (replace l n a) m =
  if Nat.eqb n m then (if Nat.ltb n (length l) then Some a else None) else nth_error l m.
Proof.
  revert n m. induction l as [|b l IH]; intros [|n] [|m]; simpl; try reflexivity.
  - destruct (Nat.eqb n m); reflexivity.
  - rewrite IH. destruct (Nat.eqb n m); reflexivity.
Qed.

Lemma get_done {A : Type} (l : list A) (i : Z) :
  0 <= i < Z.of_nat (length l) -> exists a, get l i = Done a.
Proof.
  intros Hi. unfold get. destruct (Z.ltb_spec i 0); [lia|].
  destruct (nth_error l (Z.to_nat i)) as [a|] eqn:E; [eauto|].
  apply nth_error_None in E. lia.
Qed.

Lemma get_range {A : Type} (l : list A) (i : Z) (a : A) :
  get l i = Done a -> 0 <= i < Z.of_nat (length l).
Proof.
  unfold get. destruct (Z.ltb_spec i 0); [discriminate|].
  destruct (nth_error l (Z.to_nat i)) eqn:E; [|discriminate]. intros _.
  assert (Hsome : nth_error l (Z.to_nat i) <> None) by congruence.
  apply nth_error_Some in Hsome. lia.
Qed.

Lemma get_replace_same {A : Type} (l : list A) (i : Z) (a : A) :
  0 <= i < Z.of_nat (length l) -> get (replace l (Z.to_nat i) a) i = Done a.
Proof.
  intros Hi. unfold get. destruct (Z.ltb_spec i 0); [lia|].
  rewrite nth_error_replace, Nat.eqb_refl.
  destruct (Nat.ltb_spec (Z.to_nat i) (length l)); [reflexivity | lia].
Qed.

Lemma get_replace_other {A : Type} (l : list A) (i j : Z) (a : A) :
  0 <= i -> 0 <= j -> i <> j -> get (replace l (Z.to_nat i) a) j = get l j.
Proof.
  intros Hi Hj Hij. unfold get. destruct (Z.ltb_spec j 0); [lia|].
  rewrite nth_error_replace.
  destruct (Nat.eqb_spec (Z.to_nat i) (Z.to_nat j)); [lia | reflexivity].
Qed.

Lemma put_in_range {A : Type} (l : list A) (i : Z) (a : A) :
  0 <= i < Z.of_nat (length l) -> put l i a = Done (replace l (Z.to_nat i) a).
Proof.
  intros Hi. unfold put.
  destruct (Z.leb_spec 0 i); [|lia]. destruct (Z.ltb_spec i (Z.of_nat (length l))); [|lia].
  reflexivity.
Qed.

(** ** Removing a bullet *)

Lemma firstn_succ_nth {A : Type} (l : list A) (n : nat) (a : A) :
  nth_error l n = Some a -> firstn (S n) l = firstn n l ++ [a].
Proof.
  revert n. induction l as [|b l IH]; intros [|n] H; simpl in *; try discriminate.
  - injection H as ->. reflexivity.
  - f_equal. apply IH. exact H.
Qed.

Lemma swap_remove (A : Type) (l : list A) :
  forall (i n : nat) (last : A),
  (i < n)%nat -> nth_error l (n - 1) = Some last ->
  Permutation (firstn (n - 1) (replace l i last)) (firstn i l ++ skipn (S i) (firstn n l)).
Proof.
  induction l as [|a l IH]; intros i n last Hin Hlast.
  - destruct (n - 1)%nat; discriminate.
  - destruct n as [|[|m]]; [lia | |].
    + destruct i; [reflexivity | lia].
    + change (nth_error l m = Some last) in Hlast.
      destruct i as [|i].
      * change (Permutation (last :: firstn m l) (firstn (S m) l)).
        rewrite (firstn_succ_nth l m last Hlast). apply Permutation_cons_append.
      * change (Permutation (a :: firstn m (replace l i last))
                            (a :: (firstn i l ++ skipn (S i) (firstn (S m) l)))).
        constructor. specialize (IH i (S m) last).
        replace (S m - 1)%nat with m in IH by lia.
        apply IH; [lia | exact Hlast].
Qed.

(** X14. Removing bullet [i] keeps every other bullet in flight: the bullets
    counted afterwards are, in some order, the ones counted before without the
    [i]-th. *)
Theorem remove_bullet_keeps_others (i : Z) (s : Sim) :
  0 <= i < num_bullets (game s) ->
  num_bullets (game s) <= Z.of_nat (length (bullets (game s))) ->
  num_bullets (game s) < 2 ^ 64 ->
  exists s',
    remove_bullet i s = Done s' /\
    num_bullets (game s') = num_bullets (game s) - 1 /\
    Permutation
      (firstn (Z.to_nat (num_bullets (game s'))) (bullets (game s')))
      (firstn (Z.to_nat i) (bullets (game s))
       ++ skipn (S (Z.to_nat i)) (firstn (Z.to_nat (num_bullets (game s))) (bullets (game s)))).
Proof.
  intros Hi Hn Hmax. unfold remove_bullet.
  rewrite (size_t_small (num_bullets (game s) - 1)) by lia.
  destruct (get_done (bullets (game s)) (num_bullets (game s) - 1)) as [last Hlast]; [lia|].
  rewrite Hlast. cbn [bind]. rewrite put_in_range by lia. cbn [bind].
  eexists. split; [reflexivity|].
  cbn [with_game set_game game set_num_bullets set_bullets num_bullets bullets].
  rewrite (size_t_small (num_bullets (game s) - 1)) by lia.
  split; [reflexivity|].
  replace (Z.to_nat (num_bullets (game s) - 1)) with (Z.to_nat (num_bullets (game s)) - 1)%nat
    by lia.
  apply swap_remove; [lia|].
  unfold get in Hlast. destruct (num_bullets (game s) - 1 <? 0); [discriminate|].
  replace (Z.to_nat (num_bullets (game s)) - 1)%nat with (Z.to_nat (num_bullets (game s) - 1))
    by lia.
  destruct (nth_error (bullets (game s)) (Z.to_nat (num_bullets (game s) - 1)));
    [injection Hlast as ->; reflexivity | discriminate].
Qed.

Lemma remove_bullet_keeps_others_witness :
  exists s',
    remove_bullet 3 crowded = Done s' /\
    num_bullets (game s') = num_bullets (game crowded) - 1 /\
    Permutation
      (firstn (Z.to_nat (num_bullets (game s'))) (bullets (game s')))
      (firstn (Z.to_nat 3) (bullets (game crowded))
       ++ skipn (S (Z.to_nat 3))
               (firstn (Z.to_nat (num_bullets (game crowded))) (bullets (game crowded)))).
Proof.
  apply (remove_bullet_keeps_others 3 crowded).
  - vm_compute. split; [discriminate | reflexivity].
  - vm_compute. discriminate.
  - vm_compute. reflexivity.
Defined.

(** ** The player's shot *)

(** X15. In a pool of 128 slots with a count between 0 and 128 the fire step
    always ends normally.  With the fire flag set and room in the pool it
    writes one bullet, at the middle of the player and moving up by 2, into the
    first free slot, and touches no other slot; otherwise the game is left as
    it is.  The flag is cleared either way. *)
Theorem process_events_fires_once (s : Sim) :
  length (bullets (game s)) = Z.to_nat game_max_bullets ->
  0 <= num_bullets (game s) <= game_max_bullets ->
  exists s',
    process_events s = Done s' /\ fire_pressed s' = false /\
    if fire_pressed s && (num_bullets (game s) <? game_max_bullets) then
      num_bullets (game s') = num_bullets (game s) + 1 /\
      get (bullets (game s')) (num_bullets (game s))
      = Done (Bullet.mk (size_t (Player.x (player (game s)) + 5))
                        (Player.y (player (game s))) 2) /\
      forall j, 0 <= j -> j <> num_bullets (game s) ->
                get (bullets (game s')) j = get (bullets (game s)) j
    else game s' = game s.
Proof.
  intros Hlen Hn. unfold process_events.
  destruct (fire_pressed s && (num_bullets (game s) <? game_max_bullets)) eqn:E.
  - apply andb_prop in E. destruct E as [_ E]. apply Z.ltb_lt in E.
    unfold game_max_bullets in *.
    rewrite put_in_range by lia. cbn [bind]. eexists. split; [reflexivity|].
    cbn [set_fire_pressed fire_pressed game with_game set_game set_num_bullets set_bullets
         num_bullets bullets].
    split; [reflexivity|]. split; [apply size_t_small; lia|].
    split; [apply get_replace_same; lia|].
    intros j Hj Hne. apply get_replace_other; lia.
  - cbn [bind]. eexists. split; [reflexivity|]. split; reflexivity.
Qed.

Lemma process_events_fires_once_witness :
  exists s', process_events (set_fire_pressed true initial) = Done s' /\
             num_bullets (game s') = 1.
Proof.
  destruct (process_events_fires_once (set_fire_pressed true initial))
    as [s' [H [_ H']]]; [reflexivity | vm_compute; split; discriminate |].
  exists s'. split; [exact H|].
  change (fire_pressed (set_fire_pressed true initial)) with true in H'.
  change (num_bullets (game (set_fire_pressed true initial))) with 0 in H'.
  cbn [andb Z.ltb Z.compare game_max_bullets] in H'. apply H'.
Defined.

(** ** Animation clocks *)

(** X16. After a tick of its clock an animation with at least one frame, a
    positive frame duration and a cycle that fits a [size_t] shows one of its
    frames: the index [time / frame_duration] is below [num_frames], whatever
    the time was before. *)
Theorem advance_stays_in_frames (a : Sprite_animation) :
  0 < num_frames a -> 0 < frame_duration a ->
  num_frames a * frame_duration a < 2 ^ 64 ->
  udiv (time (advance a)) (frame_duration (advance a))
  = Done (time (advance a) / frame_duration a) /\
  0 <= time (advance a) / frame_duration a < num_frames (advance a).
Proof.
  intros Hn Hd Hmax. unfold advance.
  cbn [set_time time frame_duration num_frames].
  rewrite (size_t_small (num_frames a * frame_duration a)) by nia.
  pose proof (size_t_range (time a + 1)) as Ht.
  destruct (Z.geb_spec (size_t (time a + 1)) (num_frames a * frame_duration a)) as [Hge|Hlt];
    cbn [set_time time frame_duration num_frames]; unfold udiv;
    (destruct (Z.eqb_spec (frame_duration a) 0); [lia|]); (split; [reflexivity|]).
  - rewrite Z.div_0_l by lia. lia.
  - split; [apply Z.div_pos; lia|]. apply Z.div_lt_upper_bound; [lia | nia].
Qed.

Lemma advance_stays_in_frames_witness :
  0 <= time (advance (alien_bullet_animation initial))
       / frame_duration (alien_bullet_animation initial)
  < num_frames (advance (alien_bullet_animation initial)).
Proof.
  apply (advance_stays_in_frames (alien_bullet_animation initial)); reflexivity.
Defined.

(** ** Counting deaths *)

Lemma set_alien_death_counter_same (s : Sim) : set_alien_death_counter (alien_death_counter s) s = s.
Proof. destruct s. reflexivity. Qed.

Lemma count_rounds (n : nat) :
  forall k s,
  0 <= k ->
  k + Z.of_nat n <= Z.of_nat (length (aliens (game s))) ->
  k + Z.of_nat n <= Z.of_nat (length (alien_death_counter s)) ->
  exists l',
    for_each n k count_death s = Done (set_alien_death_counter l' s) /\
    length l' = length (alien_death_counter s) /\
    forall i, 0 <= i ->
      get l' i =
      if (k <=? i) && (i <? k + Z.of_nat n) then
        alien <- get (aliens (game s)) i ;;
        counter <- get (alien_death_counter s) i ;;
        Done (if (Alien.type alien =? DEAD) && negb (counter =? 0)
              then uint8_t (counter - 1) else counter)
      else get (alien_death_counter s) i.
Proof.
  induction n as [|n IH]; intros k s Hk Ha Hc.
  - exists (alien_death_counter s). cbn [for_each].
    rewrite set_alien_death_counter_same. split; [reflexivity|]. split; [reflexivity|].
    intros i Hi. destruct (Z.leb_spec k i), (Z.ltb_spec i (k + Z.of_nat 0)); try reflexivity; lia.
  - cbn [for_each]. unfold count_death at 1.
    destruct (get_done (aliens (game s)) k) as [alien Halien]; [lia|].
    destruct (get_done (alien_death_counter s) k) as [counter Hcounter]; [lia|].
    rewrite Halien, Hcounter. cbn [bind].
    destruct ((Alien.type alien =? DEAD) && negb (counter =? 0)) eqn:E.
    + rewrite put_in_range by lia. cbn [bind].
      set (l1 := replace (alien_death_counter s) (Z.to_nat k) (uint8_t (counter - 1))).
      destruct (IH (k + 1) (set_alien_death_counter l1 s)) as [l' [Hrun [Hlen Hget]]];
        [lia | cbn [set_alien_death_counter game]; lia
         | cbn [set_alien_death_counter alien_death_counter]; subst l1;
           rewrite replace_length; lia |].
      exists l'. split; [rewrite Hrun; destruct s; reflexivity|].
      split; [rewrite Hlen; subst l1; cbn [set_alien_death_counter alien_death_counter];
              apply replace_length|].
      intros i Hi. rewrite (Hget i Hi).
      cbn [set_alien_death_counter alien_death_counter game].
      destruct (Z.eq_dec i k) as [->|Hne].
      * destruct (Z.leb_spec (k + 1) k); [lia|]. cbn [andb].
        destruct (Z.leb_spec k k); [|lia].
        destruct (Z.ltb_spec k (k + Z.of_nat (S n))); [|lia]. cbn [andb].
        rewrite Halien, Hcounter. cbn [bind]. rewrite E.
        subst l1. apply get_replace_same. lia.
      * subst l1. rewrite (get_replace_other _ k i) by lia.
        destruct (Z.leb_spec (k + 1) i), (Z.leb_spec k i),
                 (Z.ltb_spec i (k + 1 + Z.of_nat n)), (Z.ltb_spec i (k + Z.of_nat (S n)));
          try reflexivity; lia.
    + destruct (IH (k + 1) s) as [l' [Hrun [Hlen Hget]]]; [lia..|].
      exists l'. split; [exact Hrun|]. split; [exact Hlen|].
      intros i Hi. rewrite (Hget i Hi).
      destruct (Z.eq_dec i k) as [->|Hne].
      * destruct (Z.leb_spec (k + 1) k); [lia|]. cbn [andb].
        destruct (Z.leb_spec k k); [|lia].
        destruct (Z.ltb_spec k (k + Z.of_nat (S n))); [|lia]. cbn [andb].
        rewrite Halien, Hcounter. cbn [bind]. rewrite E. reflexivity.
      * destruct (Z.leb_spec (k + 1) i), (Z.leb_spec k i),
                 (Z.ltb_spec i (k + 1 + Z.of_nat n)), (Z.ltb_spec i (k + Z.of_nat (S n)));
          try reflexivity; lia.
Qed.

(** X17. With the alien count within the vector and within the death
    counters, "counting deaths" always ends normally and changes the death
    counters only: the counter of a Dead alien that is not yet zero loses one,
    every other counter stays, and no alien is touched. *)
Theorem count_deaths_ticks (s : Sim) :
  0 <= num_aliens (game s) <= Z.of_nat (length (aliens (game s))) ->
  num_aliens (game s) <= Z.of_nat (length (alien_death_counter s)) ->
  exists counters,
    count_deaths s = Done (set_alien_death_counter counters s) /\
    length counters = length (alien_death_counter s) /\
    forall i alien counter,
      get (aliens (game s)) i = Done alien ->
      get (alien_death_counter s) i = Done counter ->
      get counters i =
      Done (if (i <? num_aliens (game s)) && (Alien.type alien =? DEAD) && negb (counter =? 0)
            then uint8_t (counter - 1) else counter).
Proof.
  intros Ha Hc. unfold count_deaths, all_aliens.
  destruct (count_rounds (Z.to_nat (num_aliens (game s))) 0 s) as [l' [Hrun [Hlen Hget]]];
    [lia..|].
  exists l'. split; [exact Hrun|]. split; [exact Hlen|].
  intros i alien counter Halien Hcounter.
  pose proof (get_range _ _ _ Halien) as Hi.
  rewrite (Hget i) by lia. rewrite Halien, Hcounter. cbn [bind].
  destruct (Z.leb_spec 0 i); [|lia]. cbn [andb].
  replace (0 + Z.of_nat (Z.to_nat (num_aliens (game s)))) with (num_aliens (game s)) by lia.
  destruct (i <? num_aliens (game s)); reflexivity.
Qed.

Lemma count_deaths_ticks_witness :
  exists counters,
    count_deaths no_alien_left = Done (set_alien_death_counter counters no_alien_left) /\
    length counters = length (alien_death_counter no_alien_left).
Proof.
  destruct (count_deaths_ticks no_alien_left) as [counters [H [Hlen _]]];
    [vm_compute; split; discriminate | vm_compute; discriminate |].
  exists counters. split; [exact H | exact Hlen].
Defined.

(** ** The vertical pass *)

Lemma filter_replace {A : Type} (p : A -> bool) (l : list A) :
  forall (n : nat) (a b : A),
  nth_error l n = Some a ->
  Z.of_nat (length (filter p (replace l n b))) + (if p a then 1 else 0)
  = Z.of_nat (length (filter p l)) + (if p b then 1 else 0).
Proof.
  induction l as [|c l IH]; intros [|n] a b H; simpl in H; try discriminate.
  - injection H as ->. cbn [replace filter]. destruct (p a), (p b); cbn [length]; lia.
  - cbn [replace filter]. specialize (IH n a b H).
    destruct (p c); cbn [length]; lia.
Qed.

Lemma get_nth_error {A : Type} (l : list A) (i : Z) (a : A) :
  get l i = Done a -> nth_error l (Z.to_nat i) = Some a.
Proof.
  unfold get. destruct (i <? 0); [discriminate|].
  destruct (nth_error l (Z.to_nat i)); [|discriminate]. intros H. injection H as ->. reflexivity.
Qed.

(** X18. The vertical pass counts no kill and gives no score, and every alien
    it removes takes one off [alien_move_dir], the horizontal step of the
    formation: the step plus the number of Dead aliens is the same before and
    after the pass. *)
Theorem update_aliens_position_accounts (s s' : Sim) :
  update_aliens_position s = Done s' ->
  alien_move_dir s' + dead_count s' = alien_move_dir s + dead_count s /\
  aliens_killed s' = aliens_killed s /\ score s' = score s.
Proof.
  unfold update_aliens_position. intros H.
  destruct (alien_update_frequency s =? 0); [|injection H as <-; repeat split].
  apply (for_each_keeps
           (fun s0 => alien_move_dir s0 + dead_count s0 = alien_move_dir s + dead_count s /\
                      aliens_killed s0 = aliens_killed s /\ score s0 = score s)
           update_alien_position) in H; [exact H | | repeat split].
  clear. intros i s1 c s2 [Hd [Hk Hs]] H. rewrite <- Hd, <- Hk, <- Hs. clear Hd Hk Hs.
  unfold update_alien_position, umod in H.
  apply bind_done in H. destruct H as [alien [Halien H]].
  apply get_nth_error in Halien.
  destruct (Alien.type alien =? DEAD) eqn:Hdead; [injection H as _ <-; repeat split|].
  run H; unfold dead_count;
    cbn [set_alien_move_dir with_game set_game game set_aliens aliens alien_move_dir
         aliens_killed score];
    (split; [|split; reflexivity]);
    match goal with |- context [replace _ _ ?b] =>
      pose proof (filter_replace (fun a => Alien.type a =? DEAD) _ _ _ b Halien) as Hc end;
    cbn [Alien.type] in Hc; rewrite Hdead in Hc; cbn in Hc; lia.
Qed.

Lemma update_aliens_position_accounts_witness :
  exists s',
    update_aliens_position (set_alien_update_frequency 0 initial) = Done s' /\
    alien_move_dir s' + dead_count s' = 4.
Proof.
  destruct (update_aliens_position (set_alien_update_frequency 0 initial)) as [s'| |] eqn:E;
    [|vm_compute in E; discriminate..].
  exists s'. split; [reflexivity|].
  apply (update_aliens_position_accounts (set_alien_update_frequency 0 initial) s' E).
Defined.

(** ** A bullet that takes a freed slot *)

(** X19. Two bullets in flight, the first one leaving the field in this
    tick: the bullet loop moves the second bullet into slot 0 and ends, so the
    second bullet is not moved in this tick, and is tested against nothing,
    wherever it is and whichever way it flies. *)
Theorem freed_slot_skips_a_move (s : Sim) (b0 b1 : Bullet.t) :
  num_bullets (game s) = 2 ->
  get (bullets (game s)) 0 = Done b0 ->
  get (bullets (game s)) 1 = Done b1 ->
  height (game s) <= size_t (Bullet.y b0 + of_int (Bullet.dir b0)) \/
  size_t (Bullet.y b0 + of_int (Bullet.dir b0)) < sprite_height bullet_sprite ->
  exists s',
    simulate_bullets s = Done s' /\
    num_bullets (game s') = 1 /\
    get (bullets (game s')) 0 = Done b1 /\
    aliens (game s') = aliens (game s) /\ player (game s') = player (game s).
Proof.
  intros Hn H0 H1 Hout.
  pose proof (get_range _ _ _ H1) as Hlen.
  unfold simulate_bullets. rewrite Hn.
  change (Z.to_nat 2) with 2%nat. cbn [for_while].
  unfold bullets_left at 1. rewrite Hn. cbn [Z.ltb Z.compare].
  unfold simulate_bullet at 1. rewrite H0. cbn [bind].
  rewrite put_in_range by lia. cbn [bind].
  cbn [with_game set_game game set_bullets height Bullet.y Bullet.x Bullet.dir].
  match goal with |- context [if ?c then _ else _] =>
    assert (Hc : c = true)
      by (apply orb_true_iff; destruct Hout; [left; apply Z.geb_le | right; apply Z.ltb_lt];
          assumption)
  end.
  rewrite Hc. unfold remove_bullet.
  cbn [with_game set_game game set_bullets set_num_bullets num_bullets bullets].
  rewrite Hn. change (size_t (2 - 1)) with 1.
  rewrite (get_replace_other _ 0 1) by lia. rewrite H1. cbn [bind].
  rewrite put_in_range by (rewrite replace_length; lia). cbn [bind].
  unfold bullets_left.
  cbn [with_game set_game game set_bullets set_num_bullets num_bullets bullets].
  rewrite Hn. change (0 + 1 <? size_t (2 - 1)) with false. cbv iota.
  eexists. split; [reflexivity|].
  cbn [with_game set_game game set_bullets set_num_bullets num_bullets bullets aliens player].
  rewrite Hn. split; [reflexivity|]. split; [|split; reflexivity].
  apply get_replace_same. rewrite replace_length. lia.
Qed.

Lemma freed_slot_skips_a_move_witness :
  exists s',
    simulate_bullets
      (with_game (fun g => set_num_bullets 2
         (set_bullets (replace (replace (bullets g) 0 (Bullet.mk 100 254 2)) 1
                               (Bullet.mk 28 194 2)) g)) initial) = Done s' /\
    num_bullets (game s') = 1 /\
    get (bullets (game s')) 0 = Done (Bullet.mk 28 194 2).
Proof.
  destruct (freed_slot_skips_a_move
              (with_game (fun g => set_num_bullets 2
                 (set_bullets (replace (replace (bullets g) 0 (Bullet.mk 100 254 2)) 1
                                       (Bullet.mk 28 194 2)) g)) initial)
              (Bullet.mk 100 254 2) (Bullet.mk 28 194 2))
    as [s' [H [Hn [Hb _]]]]; [reflexivity | reflexivity | reflexivity | |].
  - left. vm_compute. discriminate.
  - exists s'. split; [exact H|]. split; [exact Hn | exact Hb].
Defined.

(** ** A ramp that stops the animations *)

Lemma ramp_eve_is_reached : main_loop patience ramp_input initial = Done ramp_eve.
Proof. vm_cast_no_check (eq_refl (Done ramp_eve)). Qed.

Lemma before_ramp_is_reached :
  (s <- draw ramp_eve ;; s <- update_aliens_position s ;; simulate_bullets s) = Done before_ramp.
Proof. vm_compute. reflexivity. Qed.

Lemma stalled_is_reached : main_loop patience (ramp_input ++ [[]]) initial = Done stalled.
Proof.
  assert (Happ : forall a b s s1,
            main_loop patience a s = Done s1 -> game_running s1 = true ->
            main_loop patience (a ++ [b]) s = frame patience b s1).
  { induction a as [|e a IH]; intros b s s1 H Hrun.
    - injection H as ->. cbn [app main_loop]. rewrite Hrun.
      destruct (frame patience b s1); reflexivity.
    - cbn [app main_loop] in *. destruct (game_running s) eqn:Hs.
      + destruct (frame patience e s) as [s0| |]; cbn [bind] in *; try discriminate.
        apply IH; assumption.
      + injection H as <-. congruence. }
  rewrite (Happ _ _ _ _ ramp_eve_is_reached eq_refl). vm_compute. reflexivity.
Qed.

(** X20. The difficulty ramp halves the countdown that the vertical pass
    decrements in every frame, and copies the result into the frame duration
    of the three alien animations.  When the countdown stands at 0 or 1 the
    result is 0: every alien animation is left with a frame duration of zero,
    and a formation step is due in every frame from then on. *)
Theorem change_speed_can_stop_animations (s : Sim) :
  should_change_speed s = true ->
  0 <= alien_update_frequency s <= 1 ->
  stopped (change_speed s) /\
  alien_update_frequency (change_speed s) = 0 /\
  forall timer, 0 <= timer ->
    (timer >=? alien_update_frequency (change_speed s)) = true.
Proof.
  intros Hflag Hfreq. unfold change_speed. rewrite Hflag.
  cbn [set_should_change_speed set_alien_update_frequency set_alien_animation
       alien_update_frequency alien_animation].
  assert (E : alien_update_frequency s / 2 = 0) by (apply Z.div_small; lia).
  rewrite E. unfold stopped.
  cbn [set_should_change_speed set_alien_update_frequency set_alien_animation
       alien_update_frequency alien_animation].
  split; [|split; [reflexivity | intros timer Ht; apply Z.geb_le; lia]].
  apply Forall_forall. intros a Ha. apply in_map_iff in Ha.
  destruct Ha as [a0 [<- _]]. reflexivity.
Qed.

Lemma change_speed_can_stop_animations_witness :
  stopped (change_speed before_ramp) /\ alien_update_frequency (change_speed before_ramp) = 0.
Proof.
  destruct (change_speed_can_stop_animations before_ramp) as [H1 [H2 _]];
    [reflexivity | vm_compute; split; discriminate |].
  split; [exact H1 | exact H2].
Defined.

Lemma current_sprite_stopped (s : Sim) (type : Z) :
  stopped s -> 1 <= type <= Z.of_nat (length (alien_animation s)) ->
  current_sprite s type = Fault DivByZero.
Proof.
  intros Hs Ht. unfold current_sprite.
  destruct (get_done (alien_animation s) (type - 1)) as [a Ha]; [lia|].
  rewrite Ha. cbn [bind]. unfold stopped in Hs. rewrite Forall_forall in Hs.
  rewrite (Hs a (get_in _ _ _ Ha)). reflexivity.
Qed.

Lemma draw_alien_stopped (s : Sim) (i : Z) :
  stopped s -> known_kinds s ->
  0 <= i < Z.of_nat (length (aliens (game s))) ->
  0 <= i < Z.of_nat (length (alien_death_counter s)) ->
  draw_alien i s = Done (Next, s) \/ draw_alien i s = Fault DivByZero.
Proof.
  intros Hs Hk Ha Hc. unfold draw_alien.
  destruct (get_done _ i Hc) as [counter ->]. cbn [bind].
  destruct (counter =? 0); [left; reflexivity|].
  destruct (get_done _ i Ha) as [alien Halien]. rewrite Halien. cbn [bind].
  destruct (Z.eqb_spec (Alien.type alien) DEAD) as [Hd|Hd]; [left; reflexivity|].
  right. rewrite current_sprite_stopped; [reflexivity | exact Hs |].
  unfold known_kinds in Hk. rewrite Forall_forall in Hk.
  pose proof (Hk alien (get_in _ _ _ Halien)). unfold DEAD in Hd. lia.
Qed.

Lemma draw_aliens_stopped (s : Sim) (i : Z) (alien : Alien.t) (counter : Z) :
  stopped s -> known_kinds s ->
  get (aliens (game s)) i = Done alien -> Alien.type alien <> DEAD ->
  get (alien_death_counter s) i = Done counter -> counter <> 0 ->
  forall (n : nat) (k : Z),
  0 <= k <= i -> i < k + Z.of_nat n ->
  k + Z.of_nat n <= Z.of_nat (length (aliens (game s))) ->
  k + Z.of_nat n <= Z.of_nat (length (alien_death_counter s)) ->
  for_each n k draw_alien s = Fault DivByZero.
Proof.
  intros Hs Hk Halien Hlive Hcounter Hshown.
  induction n as [|n IH]; intros k Hki Hin Ha Hc; [lia|].
  cbn [for_each].
  destruct (Z.eq_dec k i) as [->|Hne].
  - unfold draw_alien. rewrite Hcounter. cbn [bind].
    destruct (Z.eqb_spec counter 0); [contradiction|].
    rewrite Halien. cbn [bind].
    destruct (Z.eqb_spec (Alien.type alien) DEAD); [contradiction|].
    rewrite current_sprite_stopped; [reflexivity | exact Hs |].
    unfold known_kinds in Hk. rewrite Forall_forall in Hk.
    pose proof (Hk alien (get_in _ _ _ Halien)). unfold DEAD in Hlive. lia.
  - destruct (draw_alien_stopped s k Hs Hk) as [E|E]; [lia | lia | |]; rewrite E; cbn [bind].
    + apply IH; lia.
    + reflexivity.
Qed.

(** X21. With the alien animations stopped, drawing divides by zero as soon
    as there is something to animate: a live alien among the first
    [num_aliens], its death counter not zero.  The frame index of its sprite
    is [time / frame_duration]. *)
Theorem draw_with_stopped_animation (s : Sim) (i : Z) (alien : Alien.t) (counter : Z) :
  stopped s -> known_kinds s ->
  num_aliens (game s) <= Z.of_nat (length (aliens (game s))) ->
  num_aliens (game s) <= Z.of_nat (length (alien_death_counter s)) ->
  i < num_aliens (game s) ->
  get (aliens (game s)) i = Done alien -> Alien.type alien <> DEAD ->
  get (alien_death_counter s) i = Done counter -> counter <> 0 ->
  draw s = Fault DivByZero.
Proof.
  intros Hs Hk Ha Hc Hi Halien Hlive Hcounter Hshown.
  pose proof (get_range _ _ _ Halien) as Hr.
  unfold draw, all_aliens.
  rewrite (draw_aliens_stopped s i alien counter Hs Hk Halien Hlive Hcounter Hshown);
    [reflexivity | lia..].
Qed.

Lemma draw_with_stopped_animation_witness : draw stalled = Fault DivByZero.
Proof.
  apply (draw_with_stopped_animation stalled 0 (Alien.mk 48 128 3) 10).
  - unfold stopped. vm_compute. repeat constructor.
  - unfold known_kinds. apply Forall_forall. intros a Ha. vm_compute in Ha.
    repeat (destruct Ha as [<-|Ha]; [vm_compute; split; discriminate|]). contradiction.
  - vm_compute. discriminate.
  - vm_compute. discriminate.
  - reflexivity.
  - reflexivity.
  - discriminate.
  - reflexivity.
  - discriminate.
Defined.

(** ** Drawing: clearing the buffer *)

Lemma clear_from_fills (color : Z) (fuel : nat) :
  forall i bfr,
  let n := Buffer.width bfr * Buffer.height bfr in
  0 <= i <= n -> n < 2 ^ 32 -> n <= Z.of_nat (length (Buffer.m_data bfr)) ->
  n - i < Z.of_nat fuel ->
  exists data,
    clear_from fuel i color bfr = Done (Buffer.mk (Buffer.width bfr) (Buffer.height bfr) data) /\
    length data = length (Buffer.m_data bfr) /\
    forall j, 0 <= j ->
      get data j = if (i <=? j) && (j <? n) then Done color else get (Buffer.m_data bfr) j.
Proof.
  induction fuel as [|fuel IH]; intros i bfr n Hi Hn Hlen Hfuel; [lia|].
  cbn [clear_from]. fold n. rewrite (size_t_small n) by lia.
  destruct (Z.ltb_spec i n) as [Hlt|Hge].
  - rewrite put_in_range by lia. cbn [bind].
    assert (E : uint32_t (i + 1) = i + 1) by (unfold uint32_t; apply Z.mod_small; lia).
    rewrite E.
    destruct (IH (i + 1)
                 (Buffer.mk (Buffer.width bfr) (Buffer.height bfr)
                            (replace (Buffer.m_data bfr) (Z.to_nat i) color)))
      as [data [Hrun [Hl Hget]]];
      cbn [Buffer.width Buffer.height Buffer.m_data]; fold n;
      [lia | lia | rewrite replace_length; lia | lia |].
    cbn [Buffer.width Buffer.height Buffer.m_data] in *. fold n in Hget.
    exists data. split; [exact Hrun|]. split; [rewrite Hl; apply replace_length|].
    intros j Hj. rewrite (Hget j Hj).
    destruct (Z.eq_dec j i) as [->|Hne].
    + destruct (Z.leb_spec (i + 1) i); [lia|]. cbn [andb].
      destruct (Z.leb_spec i i); [|lia]. destruct (Z.ltb_spec i n); [|lia]. cbn [andb].
      apply get_replace_same. lia.
    + rewrite (get_replace_other _ i j) by lia.
      destruct (Z.leb_spec (i + 1) j), (Z.leb_spec i j); try reflexivity; lia.
  - exists (Buffer.m_data bfr). split; [destruct bfr; reflexivity|]. split; [reflexivity|].
    intros j Hj.
    destruct (Z.leb_spec i j), (Z.ltb_spec j n); try reflexivity; lia.
Qed.

(** X22. On a buffer of fewer than 2^32 pixels whose vector holds them all,
    clearing ends after one round for each pixel and sets every pixel of the
    picture to the colour; it changes neither the sides nor the size of the
    vector, nor anything the vector holds beyond the picture. *)
Theorem buffer_clear_fills (bfr : Buffer.t) (color : Z) :
  0 <= Buffer.width bfr * Buffer.height bfr < 2 ^ 32 ->
  Buffer.width bfr * Buffer.height bfr <= Z.of_nat (length (Buffer.m_data bfr)) ->
  exists data,
    buffer_clear (S (Z.to_nat (Buffer.width bfr * Buffer.height bfr))) bfr color
    = Done (Buffer.mk (Buffer.width bfr) (Buffer.height bfr) data) /\
    length data = length (Buffer.m_data bfr) /\
    forall j, 0 <= j ->
      get data j = if j <? Buffer.width bfr * Buffer.height bfr then Done color
                   else get (Buffer.m_data bfr) j.
Proof.
  intros Hn Hlen. unfold buffer_clear.
  destruct (clear_from_fills color (S (Z.to_nat (Buffer.width bfr * Buffer.height bfr))) 0 bfr)
    as [data [Hrun [Hl Hget]]]; [lia..|].
  exists data. split; [exact Hrun|]. split; [exact Hl|].
  intros j Hj. rewrite (Hget j Hj). destruct (Z.leb_spec 0 j); [reflexivity | lia].
Qed.

Lemma buffer_clear_fills_witness :
  exists data,
    buffer_clear 7 (Buffer.mk 3 2 [1; 2; 3; 4; 5; 6; 7]) 9 = Done (Buffer.mk 3 2 data) /\
    length data = 7%nat.
Proof.
  destruct (buffer_clear_fills (Buffer.mk 3 2 [1; 2; 3; 4; 5; 6; 7]) 9) as [data [H [Hl _]]];
    [vm_compute; split; [discriminate | reflexivity] | vm_compute; discriminate |].
  exists data. split; [exact H | exact Hl].
Defined.

(** ** Drawing: sprites *)

Lemma repeat_for_keeps {S : Type} (P : S -> Prop) (body : Z -> S -> result S) (lo hi : Z) :
  (forall i s s', lo <= i < hi -> P s -> body i s = Done s' -> P s') ->
  forall n k s s', lo <= k -> k + Z.of_nat n <= hi ->
  P s -> repeat_for n k body s = Done s' -> P s'.
Proof.
  intros Hbody. induction n as [|n IH]; intros k s s' Hlo Hhi Hs H; cbn [repeat_for] in H.
  - injection H as <-. exact Hs.
  - apply bind_done in H. destruct H as [s1 [H1 H]].
    apply (IH (k + 1) s1 s'); [lia | lia | | exact H].
    apply (Hbody k s s1); [lia | exact Hs | exact H1].
Qed.

Lemma repeat_for_total {S : Type} (Inv : S -> Prop) (body : Z -> S -> result S) (lo hi : Z) :
  (forall i s, lo <= i < hi -> Inv s -> exists s', body i s = Done s' /\ Inv s') ->
  forall n k s, lo <= k -> k + Z.of_nat n <= hi -> Inv s ->
  exists s', repeat_for n k body s = Done s' /\ Inv s'.
Proof.
  intros Hbody. induction n as [|n IH]; intros k s Hlo Hhi Hs; cbn [repeat_for].
  - exists s. split; [reflexivity | exact Hs].
  - destruct (Hbody k s) as [s1 [H1 Hs1]]; [lia | exact Hs|].
    rewrite H1. cbn [bind]. apply IH; [lia | lia | exact Hs1].
Qed.

(** A fact that round [i0] brings about and no round undoes holds at the
    end. *)
Lemma repeat_for_hits {S : Type} (Inv Q : S -> Prop) (body : Z -> S -> result S) (lo hi i0 : Z) :
  (forall i s s', lo <= i < hi -> Inv s -> body i s = Done s' -> Inv s') ->
  (forall i s s', lo <= i < hi -> Inv s -> Q s -> body i s = Done s' -> Q s') ->
  (forall s s', Inv s -> body i0 s = Done s' -> Q s') ->
  forall n k s s', lo <= k -> k + Z.of_nat n <= hi -> k <= i0 < k + Z.of_nat n ->
  Inv s -> repeat_for n k body s = Done s' -> Q s'.
Proof.
  intros Hinv Hkeep Hhit. induction n as [|n IH]; intros k s s' Hlo Hhi Hk Hs H; [lia|].
  cbn [repeat_for] in H. apply bind_done in H. destruct H as [s1 [H1 H]].
  assert (Hs1 : Inv s1) by (apply (Hinv k s s1); [lia | exact Hs | exact H1]).
  destruct (Z.eq_dec k i0) as [->|Hne].
  - apply (Hhit _ _ Hs) in H1.
    assert (Hboth : Inv s' /\ Q s'); [|apply Hboth].
    apply (repeat_for_keeps (fun s0 => Inv s0 /\ Q s0) body lo hi) with (5 := H);
      [|lia|lia|split; assumption].
    intros i sa sb Hi [Ha Hq] Hb. split; [eapply Hinv | eapply Hkeep]; eassumption.
  - apply (IH (k + 1) s1 s'); [lia | lia | lia | exact Hs1 | exact H].
Qed.

Section Blit.

Variable bfr : Buffer.t.
Variable sprt : Bitmap.t.
Variables x y color : Z.

Hypothesis buffer_sides : 0 <= Buffer.width bfr /\ 0 <= Buffer.height bfr.
Hypothesis buffer_fits : Buffer.width bfr * Buffer.height bfr < 2 ^ 64.
Hypothesis buffer_full :
  Z.of_nat (length (Buffer.m_data bfr)) = Buffer.width bfr * Buffer.height bfr.
Hypothesis sprite_sides : 0 <= Bitmap.width sprt /\ 0 <= Bitmap.height sprt.
Hypothesis sprite_fits : Bitmap.width sprt * Bitmap.height sprt < 2 ^ 64.
Hypothesis sprite_full :
  0 <= Bitmap.m_data sprt /\
  Bitmap.m_data sprt + Bitmap.width sprt * Bitmap.height sprt
  <= Z.of_nat (length (Bitmap.bytes sprt)).

Let same_frame (b : Buffer.t) : Prop :=
  Buffer.width b = Buffer.width bfr /\ Buffer.height b = Buffer.height bfr /\
  length (Buffer.m_data b) = length (Buffer.m_data bfr).

Lemma plot_cases (xi yi : Z) (b : Buffer.t) :
  0 <= xi < Bitmap.width sprt -> 0 <= yi < Bitmap.height sprt -> same_frame b ->
  exists b',
    plot sprt x y color xi yi b = Done b' /\ same_frame b' /\
    (b' = b /\ (forall j, ~ lands bfr sprt x y xi yi j) \/
     exists j, lands bfr sprt x y xi yi j /\
               0 <= j < Z.of_nat (length (Buffer.m_data b)) /\
               Buffer.m_data b' = replace (Buffer.m_data b) (Z.to_nat j) color).
Proof.
  intros Hxi Hyi [Hw [Hh Hl]]. unfold plot.
  assert (Hidx : 0 <= yi * Bitmap.width sprt + xi < Bitmap.width sprt * Bitmap.height sprt)
    by nia.
  rewrite (size_t_small (yi * Bitmap.width sprt + xi)) by lia.
  destruct (get_done (Bitmap.bytes sprt) (Bitmap.m_data sprt + (yi * Bitmap.width sprt + xi)))
    as [lit Hlit]; [lia|].
  rewrite Hlit. cbn [bind]. rewrite Hw, Hh.
  pose proof (size_t_range (Bitmap.height sprt - 1 + y - yi)) as Hsy.
  pose proof (size_t_range (x + xi)) as Hsx.
  unfold lands.
  set (sy := size_t (Bitmap.height sprt - 1 + y - yi)) in *.
  set (sx := size_t (x + xi)) in *.
  destruct (Z.eqb_spec lit 0) as [Hz|Hnz]; cbn [negb andb].
  { exists b. split; [reflexivity|]. split; [unfold same_frame; auto|]. left.
    split; [reflexivity|]. intros j [_ [_ [[lit' [Hlit' Hnz']] _]]]. congruence. }
  destruct (Z.ltb_spec sy (Buffer.height bfr)) as [Hy|Hy]; cbn [andb].
  2:{ exists b. split; [reflexivity|]. split; [unfold same_frame; auto|]. left.
      split; [reflexivity|]. intros j [_ [_ [_ [Hy' _]]]]. lia. }
  destruct (Z.ltb_spec sx (Buffer.width bfr)) as [Hx|Hx].
  2:{ exists b. split; [reflexivity|]. split; [unfold same_frame; auto|]. left.
      split; [reflexivity|]. intros j [_ [_ [_ [_ [Hx' _]]]]]. lia. }
  assert (Hj : 0 <= sy * Buffer.width bfr + sx < Buffer.width bfr * Buffer.height bfr) by nia.
  rewrite (size_t_small (sy * Buffer.width bfr + sx)) by lia.
  rewrite put_in_range by lia. cbn [bind].
  eexists. split; [reflexivity|].
  split; [unfold same_frame; cbn [Buffer.width Buffer.height Buffer.m_data];
          rewrite replace_length; auto|].
  right. exists (sy * Buffer.width bfr + sx).
  split; [|split; [lia | reflexivity]].
  repeat split; try lia. exists lit. split; assumption.
Qed.

Lemma plot_frame (xi yi : Z) (b b' : Buffer.t) :
  same_frame b -> plot sprt x y color xi yi b = Done b' -> same_frame b'.
Proof.
  intros [Hw [Hh Hl]] H. unfold plot in H. run H; unfold same_frame; auto.
  cbn [Buffer.width Buffer.height Buffer.m_data]. rewrite replace_length. auto.
Qed.

Lemma column_frame (xi : Z) (b b' : Buffer.t) :
  same_frame b ->
  repeat_for (Z.to_nat (Bitmap.height sprt)) 0 (plot sprt x y color xi) b = Done b' ->
  same_frame b'.
Proof.
  intros Hb H.
  apply (repeat_for_keeps same_frame _ 0 (Bitmap.height sprt)) with (5 := H);
    [|lia|lia|exact Hb].
  intros yi b0 b1 _ Hb0 H0. eapply plot_frame; eassumption.
Qed.

Lemma column_total (xi : Z) (b : Buffer.t) :
  0 <= xi < Bitmap.width sprt -> same_frame b ->
  exists b',
    repeat_for (Z.to_nat (Bitmap.height sprt)) 0 (plot sprt x y color xi) b = Done b' /\
    same_frame b'.
Proof.
  intros Hxi Hb.
  apply (repeat_for_total same_frame _ 0 (Bitmap.height sprt)); [|lia|lia|exact Hb].
  intros yi b0 Hyi Hb0.
  destruct (plot_cases xi yi b0 Hxi Hyi Hb0) as [b' [H [Hb' _]]]. eauto.
Qed.

Lemma plot_keeps_painted (j xi yi : Z) (b b' : Buffer.t) :
  0 <= j ->
  get (Buffer.m_data b) j = Done color ->
  plot sprt x y color xi yi b = Done b' ->
  get (Buffer.m_data b') j = Done color.
Proof.
  intros Hj Hget H. unfold plot in H. run H; try assumption.
  cbn [Buffer.m_data].
  match goal with |- get (replace _ (Z.to_nat ?k) _) _ = _ =>
    destruct (Z.eq_dec k j) as [Hk|Hne];
      [rewrite <- Hk; apply get_replace_same; assumption
      | rewrite (get_replace_other _ k j) by lia; assumption]
  end.
Qed.

Lemma plot_paints (j xi yi : Z) (b b' : Buffer.t) :
  lands bfr sprt x y xi yi j -> same_frame b ->
  plot sprt x y color xi yi b = Done b' ->
  get (Buffer.m_data b') j = Done color.
Proof.
  intros Hlands Hb H.
  pose proof Hlands as [Hxi [Hyi [_ [_ [_ Hj]]]]].
  destruct (plot_cases xi yi b Hxi Hyi Hb) as [b1 [H1 [_ [[_ Hno]|[k [Hk [Hr E]]]]]]];
    rewrite H1 in H; injection H as <-; [exfalso; exact (Hno j Hlands)|].
  destruct Hk as [_ [_ [_ [_ [_ Hk]]]]]. rewrite E, Hk, <- Hj.
  apply get_replace_same. rewrite Hj, <- Hk. exact Hr.
Qed.

Lemma plot_keeps_others (j xi yi : Z) (b b' : Buffer.t) :
  0 <= xi < Bitmap.width sprt -> 0 <= yi < Bitmap.height sprt -> same_frame b ->
  0 <= j -> ~ lands bfr sprt x y xi yi j ->
  plot sprt x y color xi yi b = Done b' ->
  get (Buffer.m_data b') j = get (Buffer.m_data b) j.
Proof.
  intros Hxi Hyi Hb Hj Hno H.
  destruct (plot_cases xi yi b Hxi Hyi Hb) as [b1 [H1 [_ [[-> _]|[k [Hk [Hr E]]]]]]];
    rewrite H1 in H; injection H as <-; [reflexivity|].
  rewrite E. apply get_replace_other; [lia | lia |]. intros ->. contradiction.
Qed.

(** X23. A sprite whose pixels lie inside its byte array is drawn, at any
    position, on a buffer that holds one cell for each pixel of its sides
    without a fault and without changing the sides or the size of the buffer.
    Every set pixel that falls inside the sides gets the colour, and every
    cell that no such pixel falls on is left as it was: the drawing is
    clipped, never written outside the buffer or wrapped to another row. *)
Theorem buf_sprt_draw_paints :
  exists data,
    buf_sprt_draw bfr sprt x y color
    = Done (Buffer.mk (Buffer.width bfr) (Buffer.height bfr) data) /\
    length data = length (Buffer.m_data bfr) /\
    (forall xi yi j, lands bfr sprt x y xi yi j -> get data j = Done color) /\
    (forall j, 0 <= j -> (forall xi yi, ~ lands bfr sprt x y xi yi j) ->
               get data j = get (Buffer.m_data bfr) j).
Proof.
  assert (Hstart : same_frame bfr) by (unfold same_frame; auto).
  destruct (repeat_for_total same_frame
              (fun xi => repeat_for (Z.to_nat (Bitmap.height sprt)) 0 (plot sprt x y color xi))
              0 (Bitmap.width sprt) column_total
              (Z.to_nat (Bitmap.width sprt)) 0 bfr) as [b' [Hrun [Hw [Hh Hl]]]];
    [lia | lia | exact Hstart |].
  exists (Buffer.m_data b').
  split; [unfold buf_sprt_draw; rewrite Hrun, <- Hw, <- Hh; destruct b'; reflexivity|].
  split; [exact Hl|]. split.
  - intros xi yi j Hlands.
    pose proof Hlands as [Hxi [Hyi [_ [Hsy [Hsx Hj]]]]].
    pose proof (size_t_range (Bitmap.height sprt - 1 + y - yi)) as Hry.
    pose proof (size_t_range (x + xi)) as Hrx.
    assert (Hj0 : 0 <= j) by nia.
    apply (repeat_for_hits same_frame (fun b => get (Buffer.m_data b) j = Done color)
             (fun xi => repeat_for (Z.to_nat (Bitmap.height sprt)) 0 (plot sprt x y color xi))
             0 (Bitmap.width sprt) xi) with (8 := Hrun); [| | |lia|lia|lia|exact Hstart].
    + intros i b0 b1 _ Hb0 H0. eapply column_frame; eassumption.
    + intros i b0 b1 _ Hb0 Hq H0.
      assert (Hboth : same_frame b1 /\ get (Buffer.m_data b1) j = Done color); [|apply Hboth].
      apply (repeat_for_keeps
               (fun b => same_frame b /\ get (Buffer.m_data b) j = Done color)
               _ 0 (Bitmap.height sprt)) with (5 := H0); [|lia|lia|split; assumption].
      intros i' b2 b3 _ [Hb2 Hq2] H2.
      split; [eapply plot_frame | eapply plot_keeps_painted]; eassumption.
    + intros b0 b1 Hb0 H0.
      apply (repeat_for_hits same_frame (fun b => get (Buffer.m_data b) j = Done color)
               (plot sprt x y color xi) 0 (Bitmap.height sprt) yi) with (8 := H0);
        [| | |lia|lia|lia|exact Hb0].
      * intros i b2 b3 _ Hb2 H2. eapply plot_frame; eassumption.
      * intros i b2 b3 _ _ Hq2 H2. eapply plot_keeps_painted; eassumption.
      * intros b2 b3 Hb2 H2. eapply plot_paints; eassumption.
  - intros j Hj Hno.
    assert (Hboth : same_frame b' /\ get (Buffer.m_data b') j = get (Buffer.m_data bfr) j);
      [|apply Hboth].
    apply (repeat_for_keeps
             (fun b => same_frame b /\ get (Buffer.m_data b) j = get (Buffer.m_data bfr) j)
             _ 0 (Bitmap.width sprt)) with (5 := Hrun); [|lia|lia|split; [exact Hstart|reflexivity]].
    intros xi b0 b1 Hxi [Hb0 Hq0] H0.
    apply (repeat_for_keeps
             (fun b => same_frame b /\ get (Buffer.m_data b) j = get (Buffer.m_data bfr) j)
             _ 0 (Bitmap.height sprt)) with (5 := H0); [|lia|lia|split; assumption].
    intros yi b2 b3 Hyi [Hb2 Hq2] H2.
    split; [eapply plot_frame; eassumption|].
    rewrite <- Hq2. eapply plot_keeps_others; try eassumption. apply Hno.
Qed.

End Blit.

Lemma buf_sprt_draw_paints_witness :
  exists data,
    buf_sprt_draw (Buffer.mk 4 3 (repeat 0 12)) (Bitmap.mk 2 2 [1; 0; 1; 1] 0) 3 1 7
    = Done (Buffer.mk 4 3 data) /\
    length data = 12%nat.
Proof.
  destruct (buf_sprt_draw_paints (Buffer.mk 4 3 (repeat 0 12)) (Bitmap.mk 2 2 [1; 0; 1; 1] 0)
              3 1 7) as [data [H [Hl _]]];
    try (vm_compute; first [reflexivity | split; discriminate | discriminate]).
  exists data. split; [exact H | exact Hl].
Defined.

(** ** Drawing: numbers and text *)

Lemma split_digits_spec (fuel : nat) :
  forall digits k n,
  0 <= n < 10 ^ Z.of_nat fuel -> (0 < fuel)%nat ->
  0 <= k -> k + Z.of_nat fuel <= Z.of_nat (length digits) -> Z.of_nat (length digits) < 2 ^ 64 ->
  exists digits' k',
    split_digits fuel digits k n = Done (digits', k') /\
    k < k' <= k + Z.of_nat fuel /\
    length digits' = length digits /\
    (forall j, 0 <= j < k -> get digits' j = get digits j) /\
    (forall j, k <= j < k' -> get digits' j = Done ((n / 10 ^ (j - k)) mod 10)) /\
    n < 10 ^ (k' - k) /\
    (10 ^ (k' - k - 1) <= n \/ k' = k + 1).
Proof.
  induction fuel as [|fuel IH]; intros digits k n Hn Hfuel Hk Hlen Hmax; [lia|].
  cbn [split_digits].
  rewrite put_in_range by lia. cbn [bind].
  assert (Hd : 0 <= n mod 10 < 10) by (apply Z.mod_pos_bound; lia).
  assert (E8 : uint8_t (n mod 10) = n mod 10) by (unfold uint8_t; apply Z.mod_small; lia).
  rewrite E8. rewrite (size_t_small (k + 1)) by lia.
  set (digits1 := replace digits (Z.to_nat k) (n mod 10)).
  assert (Hn1 : 0 <= n / 10) by (apply Z.div_pos; lia).
  destruct (Z.gtb_spec (n / 10) 0) as [Hpos|Hzero].
  - assert (Hlt : n / 10 < 10 ^ Z.of_nat fuel).
    { apply Z.div_lt_upper_bound; [lia|].
      replace (Z.of_nat (S fuel)) with (Z.of_nat fuel + 1) in Hn by lia.
      rewrite Z.pow_add_r in Hn by lia. lia. }
    assert (Hf : (0 < fuel)%nat).
    { destruct fuel; [|lia]. cbn in Hlt. lia. }
    destruct (IH digits1 (k + 1) (n / 10)) as [digits' [k' [Hrun [Hk' [Hl [Hlow [Hget [Hup Hlead]]]]]]]];
      [lia | exact Hf | lia | subst digits1; rewrite replace_length; lia
       | subst digits1; rewrite replace_length; lia |].
    exists digits', k'. split; [exact Hrun|]. split; [lia|].
    split; [rewrite Hl; subst digits1; apply replace_length|].
    split; [|split; [|split]].
    + intros j Hj. rewrite Hlow by lia. subst digits1. apply get_replace_other; lia.
    + intros j Hj. destruct (Z.eq_dec j k) as [->|Hne].
      * rewrite Hlow by lia. subst digits1. rewrite get_replace_same by lia.
        rewrite Z.sub_diag, Z.pow_0_r, Z.div_1_r. reflexivity.
      * rewrite Hget by lia. do 2 f_equal.
        replace (j - k) with (1 + (j - (k + 1))) by lia.
        rewrite Z.pow_add_r by lia. rewrite Z.pow_1_r.
        rewrite Z.div_div by (try apply Z.pow_pos_nonneg; lia). reflexivity.
    + replace (k' - k) with (1 + (k' - (k + 1))) by lia.
      rewrite Z.pow_add_r by lia. rewrite Z.pow_1_r.
      pose proof (Z.div_mod n 10). lia.
    + left. destruct Hlead as [Hlead| ->].
      * replace (k' - k - 1) with (1 + (k' - (k + 1) - 1)) by lia.
        rewrite Z.pow_add_r by lia. rewrite Z.pow_1_r.
        pose proof (Z.div_mod n 10). lia.
      * replace (k + 1 + 1 - k - 1) with 1 by lia. rewrite Z.pow_1_r.
        pose proof (Z.div_mod n 10). lia.
  - assert (Hsmall : n < 10).
    { pose proof (Z.div_mod n 10). lia. }
    exists digits1, (k + 1). split; [reflexivity|]. split; [lia|].
    split; [subst digits1; apply replace_length|].
    split; [|split; [|split]].
    + intros j Hj. subst digits1. apply get_replace_other; lia.
    + intros j Hj. replace j with k by lia. subst digits1. rewrite get_replace_same by lia.
      rewrite Z.sub_diag, Z.pow_0_r, Z.div_1_r. reflexivity.
    + replace (k + 1 - k) with 1 by lia. lia.
    + right. reflexivity.
Qed.

(** X24. The digit loop of [buffer_draw_number] ends for every [size_t]
    within twenty rounds, well inside its array of 64 bytes, and what it
    stores is the decimal notation of the number, least significant digit
    first and with no leading zero: the number can be read back from the
    digits. *)
Theorem split_digits_is_decimal (number : Z) :
  0 <= number < 2 ^ 64 ->
  exists digits num_digits,
    split_digits 20 (repeat 0 64) 0 number = Done (digits, num_digits) /\
    1 <= num_digits <= 20 /\
    (forall j, 0 <= j < num_digits -> get digits j = Done ((number / 10 ^ j) mod 10)) /\
    number < 10 ^ num_digits /\
    (10 ^ (num_digits - 1) <= number \/ number = 0 /\ num_digits = 1).
Proof.
  intros Hn.
  destruct (split_digits_spec 20 (repeat 0 64) 0 number)
    as [digits [k' [Hrun [Hk' [_ [_ [Hget [Hup Hlead]]]]]]]];
    [change (10 ^ Z.of_nat 20) with 100000000000000000000;
     change (2 ^ 64) with 18446744073709551616 in Hn; lia
    | lia | lia | rewrite repeat_length; lia | rewrite repeat_length; lia |].
  exists digits, k'. split; [exact Hrun|]. split; [lia|].
  rewrite Z.sub_0_r in *. split; [|split; [exact Hup|]].
  - intros j Hj. rewrite Hget by lia. rewrite Z.sub_0_r. reflexivity.
  - destruct Hlead as [Hlead|Hone]; [left; exact Hlead|].
    destruct (Z.eq_dec number 0) as [Hz|Hnz]; [right; split; [exact Hz | lia]|].
    left. replace k' with 1 by lia. cbn. lia.
Qed.

Lemma split_digits_is_decimal_witness :
  exists digits num_digits,
    split_digits 20 (repeat 0 64) 0 1230 = Done (digits, num_digits) /\
    1 <= num_digits <= 20 /\
    (forall j, 0 <= j < num_digits -> get digits j = Done ((1230 / 10 ^ j) mod 10)).
Proof.
  destruct (split_digits_is_decimal 1230) as [digits [n [H [Hn [Hget _]]]]];
    [vm_compute; split; [discriminate | reflexivity]|].
  exists digits, n. split; [exact H|]. split; [exact Hn | exact Hget].
Defined.

Lemma to_char_small (z : Z) : -128 <= z <= 127 -> to_char z = z.
Proof. intros H. unfold to_char. rewrite Z.mod_small by lia. lia. Qed.

Lemma to_char_low (z : Z) : -160 <= z < -128 -> to_char z = z + 256.
Proof.
  intros H. unfold to_char.
  replace (z + 128) with (z + 256 + 128 + -1 * 256) by lia.
  rewrite Z.mod_add by lia. rewrite Z.mod_small by lia. lia.
Qed.

Lemma skipped_or_shown (c : Z) :
  -128 <= c <= 127 ->
  (to_char (c - 32) <? 0) || (to_char (c - 32) >=? 65) = negb (shown c).
Proof.
  intros Hc. unfold shown.
  destruct (Z.lt_ge_cases (c - 32) (-128)) as [Hlow|Hin].
  - rewrite to_char_low by lia.
    destruct (Z.ltb_spec (c - 32 + 256) 0), (Z.geb_spec (c - 32 + 256) 65),
             (Z.leb_spec 32 c), (Z.leb_spec c 96); try reflexivity; lia.
  - rewrite to_char_small by lia.
    destruct (Z.ltb_spec (c - 32) 0), (Z.geb_spec (c - 32) 65),
             (Z.leb_spec 32 c), (Z.leb_spec c 96); try reflexivity; lia.
Qed.

(** X25. A text is drawn as if every character outside the 65 of the sheet,
    from the space to the backquote, were not in it: such a character, a
    lower-case letter say, is skipped and the pen does not move for it. *)
Theorem buffer_draw_text_skips (text_spritesheet : Bitmap.t) (text : list Z) :
  Forall (fun c => -128 <= c <= 127 /\ c <> 0) text ->
  forall buffer xp y color,
  buffer_draw_text buffer text_spritesheet text xp y color
  = buffer_draw_text buffer text_spritesheet (filter shown text) xp y color.
Proof.
  induction 1 as [|c text [Hc Hnz] _ IH]; intros buffer xp y color; [reflexivity|].
  cbn [buffer_draw_text filter].
  destruct (Z.eqb_spec c 0) as [Hz|_]; [contradiction|].
  rewrite (skipped_or_shown c Hc).
  destruct (shown c) eqn:Hs; cbn [negb].
  - cbn [buffer_draw_text].
    destruct (Z.eqb_spec c 0) as [Hz|_]; [contradiction|].
    rewrite (skipped_or_shown c Hc), Hs. cbn [negb].
    destruct (buf_sprt_draw buffer (glyph text_spritesheet (to_char (c - 32))) xp y color);
      cbn [bind]; [apply IH | reflexivity | reflexivity].
  - apply IH.
Qed.

Lemma buffer_draw_text_skips_witness :
  buffer_draw_text (Buffer.mk 8 2 (repeat 0 16)) (Bitmap.mk 1 1 (repeat 1 65) 0)
                   [71; 97; 109; 101; 32; 79; 118; 101; 114] 0 0 7
  = buffer_draw_text (Buffer.mk 8 2 (repeat 0 16)) (Bitmap.mk 1 1 (repeat 1 65) 0)
                     [71; 32; 79] 0 0 7.
Proof.
  apply (buffer_draw_text_skips (Bitmap.mk 1 1 (repeat 1 65) 0)
           [71; 97; 109; 101; 32; 79; 118; 101; 114]).
  repeat constructor; discriminate.
Defined.

Lemma glyph_of_digit (sheet : Bitmap.t) (digit : Z) :
  0 <= Bitmap.width sheet * Bitmap.height sheet ->
  25 * (Bitmap.width sheet * Bitmap.height sheet) < 2 ^ 64 ->
  0 <= digit <= 9 ->
  glyph (number_sheet sheet) digit = glyph sheet (to_char (48 + digit - 32)).
Proof.
  intros Hpos Hfit Hd. rewrite to_char_small by lia.
  unfold glyph, number_sheet.
  cbn [Bitmap.width Bitmap.height Bitmap.bytes Bitmap.m_data].
  rewrite (size_t_small (Bitmap.width sheet * Bitmap.height sheet)) by lia.
  rewrite (of_int_small digit) by lia. rewrite (of_int_small (48 + digit - 32)) by lia.
  rewrite (size_t_small (digit * _)) by nia.
  rewrite (size_t_small ((48 + digit - 32) * _)) by nia.
  f_equal. lia.
Qed.

Lemma draw_digits_as_text (sheet : Bitmap.t) (digits : list Z) (num_digits y color : Z) :
  0 <= Bitmap.width sheet * Bitmap.height sheet ->
  25 * (Bitmap.width sheet * Bitmap.height sheet) < 2 ^ 64 ->
  num_digits < 2 ^ 64 ->
  forall (m : nat) (k : Z) (buffer : Buffer.t) (xp : Z),
  0 <= k -> k + Z.of_nat m = num_digits ->
  (forall j, 0 <= j < Z.of_nat m ->
             exists d, get digits j = Done d /\ 0 <= d <= 9) ->
  (pen <- repeat_for m k (draw_digit (number_sheet sheet) digits num_digits y color)
                     (buffer, xp) ;;
   Done (fst pen))
  = buffer_draw_text buffer sheet (map (Z.add 48) (rev (firstn m digits))) xp y color.
Proof.
  intros Hpos Hfit Hmax.
  induction m as [|m IH]; intros k buffer xp Hk Hn Hdigits; [reflexivity|].
  destruct (Hdigits (Z.of_nat m)) as [d [Hd Hrange]]; [lia|].
  rewrite (firstn_succ_nth digits m d).
  2:{ apply get_nth_error in Hd. rewrite Nat2Z.id in Hd. exact Hd. }
  rewrite rev_app_distr. cbn [rev app map repeat_for buffer_draw_text].
  unfold draw_digit at 1.
  replace (size_t (num_digits - k - 1)) with (Z.of_nat m)
    by (rewrite size_t_small; lia).
  rewrite Hd. cbn [bind].
  destruct (Z.eqb_spec (48 + d) 0) as [Hz|_]; [lia|].
  rewrite (skipped_or_shown (48 + d)) by lia.
  assert (Hs : shown (48 + d) = true).
  { unfold shown. destruct (Z.leb_spec 32 (48 + d)), (Z.leb_spec (48 + d) 96);
      try reflexivity; lia. }
  rewrite Hs. cbn [negb].
  rewrite (glyph_of_digit sheet d Hpos Hfit Hrange).
  destruct (buf_sprt_draw buffer (glyph sheet (to_char (48 + d - 32))) xp y color)
    as [buffer'| |]; cbn [bind]; [|reflexivity..].
  cbn [number_sheet Bitmap.width].
  apply IH; [lia | lia |]. intros j Hj. apply Hdigits. lia.
Qed.

(** X26. With the number sheet that [main] makes of the text sheet, sixteen
    characters further on, a number is drawn as the text of its decimal
    digits: the same sprites at the same places, the same result and the same
    faults. *)
Theorem buffer_draw_number_as_text (buffer : Buffer.t) (sheet : Bitmap.t)
        (number x y color : Z) :
  0 <= number < 2 ^ 64 ->
  0 <= Bitmap.width sheet * Bitmap.height sheet ->
  25 * (Bitmap.width sheet * Bitmap.height sheet) < 2 ^ 64 ->
  buffer_draw_number 20 buffer (number_sheet sheet) number x y color
  = buffer_draw_text buffer sheet (digit_text 20 number) x y color.
Proof.
  intros Hn Hpos Hfit. unfold buffer_draw_number, digit_text.
  destruct (split_digits_spec 20 (repeat 0 64) 0 number)
    as [digits [k' [Hrun [Hk' [_ [_ [Hget _]]]]]]];
    [change (10 ^ Z.of_nat 20) with 100000000000000000000;
     change (2 ^ 64) with 18446744073709551616 in Hn; lia
    | lia | lia | rewrite repeat_length; lia | rewrite repeat_length; lia |].
  rewrite Hrun. cbn [bind].
  rewrite <- (draw_digits_as_text sheet digits k' y color Hpos Hfit) with (k := 0);
    [| lia | lia | lia |].
  - destruct (repeat_for (Z.to_nat k') 0
                (draw_digit (number_sheet sheet) digits k' y color) (buffer, x))
      as [[b xp]| |]; reflexivity.
  - intros j Hj. exists ((number / 10 ^ (j - 0)) mod 10).
    split; [apply Hget; lia|].
    pose proof (Z.mod_pos_bound (number / 10 ^ (j - 0)) 10). lia.
Qed.

Lemma buffer_draw_number_as_text_witness :
  buffer_draw_number 20 (Buffer.mk 8 2 (repeat 0 16))
                     (number_sheet (Bitmap.mk 1 1 (repeat 1 65) 0)) 230 0 0 7
  = buffer_draw_text (Buffer.mk 8 2 (repeat 0 16)) (Bitmap.mk 1 1 (repeat 1 65) 0)
                     (digit_text 20 230) 0 0 7.
Proof.
  apply (buffer_draw_number_as_text (Buffer.mk 8 2 (repeat 0 16))
           (Bitmap.mk 1 1 (repeat 1 65) 0) 230 0 0 7);
    vm_compute; first [split; [discriminate | reflexivity] | discriminate | reflexivity].
Defined.

(** ** Loops that end *)

Lemma simulate_bullets_terminates_witness : simulate_bullets crowded <> OutOfFuel.
Proof. apply (simulate_bullets_terminates crowded). vm_compute. reflexivity. Defined.

Lemma track_bounds_terminates_witness : track_bounds no_alien_left <> OutOfFuel.
Proof.
  apply (track_bounds_terminates no_alien_left); vm_compute;
    first [reflexivity | split; discriminate].
Defined.

(** ** The formation step *)

Lemma set_aliens_same (s : Sim) : with_game (set_aliens (aliens (game s))) s = s.
Proof. destruct s as [? ? ? ? ? ? ? ? g ? ? ? ? ? ? ? ?]. destruct g. reflexivity. Qed.

Lemma set_aliens_twice (l l' : list Alien.t) (s : Sim) :
  with_game (set_aliens l') (with_game (set_aliens l) s) = with_game (set_aliens l') s.
Proof. destruct s as [? ? ? ? ? ? ? ? g ? ? ? ? ? ? ? ?]. destruct g. reflexivity. Qed.

(** A loop that rewrites every alien by [f], for a body that does so in the
    states that satisfy [P]. *)
Lemma move_rounds (f : Alien.t -> Alien.t) (P : Sim -> Prop)
      (body : Z -> Sim -> result (flow * Sim)) :
  (forall l s, P s -> P (with_game (set_aliens l) s)) ->
  (forall i s, P s ->
     body i s = (alien <- get (aliens (game s)) i ;;
                 l <- put (aliens (game s)) i (f alien) ;;
                 Done (Next, with_game (set_aliens l) s))) ->
  forall (n : nat) (k : Z) (s : Sim),
  P s -> 0 <= k -> k + Z.of_nat n <= Z.of_nat (length (aliens (game s))) ->
  exists l',
    for_each n k body s = Done (with_game (set_aliens l') s) /\
    length l' = length (aliens (game s)) /\
    forall i, 0 <= i ->
      get l' i = if (k <=? i) && (i <? k + Z.of_nat n)
                 then (alien <- get (aliens (game s)) i ;; Done (f alien))
                 else get (aliens (game s)) i.
Proof.
  intros Hkeep Hbody. induction n as [|n IH]; intros k s Hs Hk Hlen.
  - exists (aliens (game s)). cbn [for_each]. rewrite set_aliens_same.
    split; [reflexivity|]. split; [reflexivity|].
    intros i Hi. destruct (Z.leb_spec k i), (Z.ltb_spec i (k + Z.of_nat 0)); try reflexivity; lia.
  - cbn [for_each]. rewrite (Hbody k s Hs).
    destruct (get_done (aliens (game s)) k) as [alien Halien]; [lia|].
    rewrite Halien. cbn [bind]. rewrite put_in_range by lia. cbn [bind].
    set (l1 := replace (aliens (game s)) (Z.to_nat k) (f alien)).
    destruct (IH (k + 1) (with_game (set_aliens l1) s)) as [l' [Hrun [Hl Hget]]];
      [apply Hkeep; exact Hs | lia
       | cbn [with_game set_game game set_aliens aliens]; subst l1; rewrite replace_length; lia |].
    cbn [with_game set_game game set_aliens aliens] in Hl, Hget.
    exists l'. split; [rewrite Hrun, set_aliens_twice; reflexivity|].
    split; [rewrite Hl; subst l1; apply replace_length|].
    intros i Hi. rewrite (Hget i Hi).
    destruct (Z.eq_dec i k) as [->|Hne].
    + destruct (Z.leb_spec (k + 1) k); [lia|]. cbn [andb].
      destruct (Z.leb_spec k k); [|lia].
      destruct (Z.ltb_spec k (k + Z.of_nat (S n))); [|lia]. cbn [andb].
      rewrite Halien. cbn [bind]. subst l1. apply get_replace_same. lia.
    + subst l1. rewrite (get_replace_other _ k i) by lia.
      destruct (Z.leb_spec (k + 1) i), (Z.leb_spec k i),
               (Z.ltb_spec i (k + 1 + Z.of_nat n)), (Z.ltb_spec i (k + Z.of_nat (S n)));
        try reflexivity; lia.
Qed.

Lemma set_rng_same (s : Sim) : set_rng (rng s) s = s.
Proof. destruct s. reflexivity. Qed.

Lemma set_rng_twice (a b : Z) (s : Sim) : set_rng b (set_rng a s) = set_rng b s.
Proof. destruct s. reflexivity. Qed.

Lemma pick_alive_live (fuel : nat) :
  forall rai s rai' s',
  pick_alive fuel rai s = Done (rai', s') ->
  (exists r, s' = set_rng r s) /\
  exists alien, get (aliens (game s)) rai' = Done alien /\ Alien.type alien <> DEAD.
Proof.
  induction fuel as [|fuel IH]; intros rai s rai' s' H; cbn [pick_alive] in H; [discriminate|].
  apply bind_done in H. destruct H as [alien [Halien H]].
  destruct (Z.eqb_spec (Alien.type alien) DEAD) as [Hd|Hd].
  - unfold random_alien in H. destruct (random (rng s)) as [r rng'].
    apply IH in H. destruct H as [[r' ->] Hlive].
    split; [exists r'; apply set_rng_twice | exact Hlive].
  - injection H as <- <-. split; [exists (rng s); symmetry; apply set_rng_same|].
    exists alien. split; assumption.
Qed.

(** X29. Dead aliens never shoot.  When the formation fires, the shooter is
    an alien of the vector that is alive; its bullet goes into the first free
    slot, at the middle of the first frame of the shooter and the height of
    the alien bullet below it, moving down by 2; no other slot, no alien and
    nothing of the player changes. *)
Theorem alien_fire_from_live_alien (fuel : nat) (s s' : Sim) :
  of_int (aliens_killed s) < num_aliens (game s) ->
  alien_fire fuel s = Done s' ->
  exists rai alien animation alien_sprite,
    get (aliens (game s)) rai = Done alien /\ Alien.type alien <> DEAD /\
    get (alien_animation s) (Alien.type alien - 1) = Done animation /\
    get (frames animation) 0 = Done alien_sprite /\
    num_bullets (game s') = size_t (num_bullets (game s) + 1) /\
    get (bullets (game s')) (num_bullets (game s))
    = Done (Bullet.mk (size_t (Alien.x alien + sprite_width alien_sprite / 2))
                      (size_t (Alien.y alien - 7)) (-2)) /\
    (forall j, 0 <= j -> j <> num_bullets (game s) ->
               get (bullets (game s')) j = get (bullets (game s)) j) /\
    aliens (game s') = aliens (game s) /\ player (game s') = player (game s).
Proof.
  intros Hguard H. unfold alien_fire in H.
  destruct (Z.ltb_spec (of_int (aliens_killed s)) (num_aliens (game s))) as [_|Hno]; [|lia].
  unfold random_alien in H. destruct (random (rng s)) as [r rng'].
  apply bind_done in H. destruct H as [[rai s1] [Hpick H]].
  apply pick_alive_live in Hpick. destruct Hpick as [[r' ->] [alien [Halien Hlive]]].
  rewrite set_rng_twice in H.
  change (game (set_rng rng' s)) with (game s) in Halien.
  change (game (set_rng r' s)) with (game s) in H.
  change (alien_animation (set_rng r' s)) with (alien_animation s) in H.
  rewrite Halien in H. cbn [bind] in H.
  apply bind_done in H. destruct H as [animation [Hanim H]].
  apply bind_done in H. destruct H as [alien_sprite [Hsprite H]].
  cbn [get alien_bullet_sprite Z.ltb Z.compare Z.to_nat nth_error bind sprite_height] in H.
  apply bind_done in H. destruct H as [l [Hput H]].
  apply put_done in Hput. destruct Hput as [Hrange ->]. injection H as <-.
  exists rai, alien, animation, alien_sprite.
  cbn [with_game set_game game set_rng set_num_bullets set_bullets num_bullets bullets aliens
       player].
  repeat (split; [first [assumption | reflexivity]|]).
  split; [apply get_replace_same; exact Hrange|].
  split; [intros j Hj Hne; apply get_replace_other; lia|].
  split; reflexivity.
Qed.

Lemma alien_fire_from_live_alien_witness :
  exists s' rai alien,
    alien_fire patience initial = Done s' /\
    get (aliens (game initial)) rai = Done alien /\ Alien.type alien <> DEAD /\
    num_bullets (game s') = 1.
Proof.
  destruct (alien_fire patience initial) as [s'| |] eqn:E; [|vm_compute in E; discriminate..].
  destruct (alien_fire_from_live_alien patience initial s')
    as [rai [alien [_ [_ [Ha [Hl [_ [_ [Hn _]]]]]]]]];
    [vm_compute; reflexivity | exact E |].
  exists s', rai, alien. split; [reflexivity|]. split; [exact Ha|]. split; [exact Hl | exact Hn].
Defined.

Lemma alien_fire_result (fuel : nat) (s s' : Sim) :
  alien_fire fuel s = Done s' ->
  s' = s \/
  exists r l n, s' = with_game (fun g => set_num_bullets n (set_bullets l g)) (set_rng r s).
Proof.
  unfold alien_fire. intros H.
  destruct (of_int (aliens_killed s) <? num_aliens (game s)); [|injection H as <-; left; reflexivity].
  right. unfold random_alien in H. destruct (random (rng s)) as [r rng'].
  apply bind_done in H. destruct H as [[rai s1] [Hpick H]].
  apply pick_alive_live in Hpick. destruct Hpick as [[r' ->] _].
  rewrite set_rng_twice in H. run H.
  exists r'. eexists. exists (size_t (num_bullets (game s) + 1)). reflexivity.
Qed.

Lemma march_rounds (s : Sim) :
  0 <= num_aliens (game s) <= Z.of_nat (length (aliens (game s))) ->
  exists l',
    for_each (all_aliens s) 0 march s = Done (with_game (set_aliens l') s) /\
    forall i alien, get (aliens (game s)) i = Done alien ->
      get l' i =
      Done (if i <? num_aliens (game s)
            then Alien.mk (size_t (Alien.x alien + of_int (alien_move_dir s)))
                          (Alien.y alien) (Alien.type alien)
            else alien).
Proof.
  intros Hn.
  destruct (move_rounds
              (fun a => Alien.mk (size_t (Alien.x a + of_int (alien_move_dir s)))
                                 (Alien.y a) (Alien.type a))
              (fun s0 => alien_move_dir s0 = alien_move_dir s) march)
    with (n := all_aliens s) (k := 0) (s := s) as [l' [Hrun [_ Hget]]].
  - intros l s0 Hs0. exact Hs0.
  - intros i s0 Hs0. unfold march. rewrite Hs0. reflexivity.
  - reflexivity.
  - lia.
  - unfold all_aliens. lia.
  - exists l'. split; [exact Hrun|]. intros i alien Halien.
    pose proof (get_range _ _ _ Halien) as Hi.
    rewrite (Hget i) by lia. rewrite Halien. cbn [bind].
    unfold all_aliens. destruct (Z.leb_spec 0 i); [|lia]. cbn [andb].
    replace (0 + Z.of_nat (Z.to_nat (num_aliens (game s)))) with (num_aliens (game s)) by lia.
    destruct (i <? num_aliens (game s)); reflexivity.
Qed.

Lemma descend_rounds (s : Sim) :
  0 <= num_aliens (game s) <= Z.of_nat (length (aliens (game s))) ->
  exists l',
    for_each (all_aliens s) 0 descend s = Done (with_game (set_aliens l') s) /\
    length l' = length (aliens (game s)) /\
    forall i alien, get (aliens (game s)) i = Done alien ->
      get l' i =
      Done (if i <? num_aliens (game s)
            then Alien.mk (Alien.x alien) (size_t (Alien.y alien - 8)) (Alien.type alien)
            else alien).
Proof.
  intros Hn.
  destruct (move_rounds
              (fun a => Alien.mk (Alien.x a) (size_t (Alien.y a - 8)) (Alien.type a))
              (fun _ => True) descend)
    with (n := all_aliens s) (k := 0) (s := s) as [l' [Hrun [Hl Hget]]].
  - intros l s0 _. exact I.
  - intros i s0 _. reflexivity.
  - exact I.
  - lia.
  - unfold all_aliens. lia.
  - exists l'. split; [exact Hrun|]. split; [exact Hl|]. intros i alien Halien.
    pose proof (get_range _ _ _ Halien) as Hi.
    rewrite (Hget i) by lia. rewrite Halien. cbn [bind].
    unfold all_aliens. destruct (Z.leb_spec 0 i); [|lia]. cbn [andb].
    replace (0 + Z.of_nat (Z.to_nat (num_aliens (game s)))) with (num_aliens (game s)) by lia.
    destruct (i <? num_aliens (game s)); reflexivity.
Qed.

(** X30. A formation step that is due and ends normally moves the formation
    as a block.  The horizontal step changes sign when the swarm would leave
    the field on either side; every alien among the first [num_aliens], Dead
    or alive, then moves by the new step, and so does the swarm position.  All
    of them go down by 8 when the swarm turns at the left side, and none does
    when it turns at the right side.  The aliens beyond [num_aliens] stay, and
    the timer starts again from 0. *)
Theorem formation_step_moves_block (fuel : nat) (s s' : Sim) :
  alien_update_timer s >= alien_update_frequency s ->
  0 <= num_aliens (game s) <= Z.of_nat (length (aliens (game s))) ->
  formation_step fuel s = Done s' ->
  let left := to_int (alien_swarm_position s) + alien_move_dir s <? 0 in
  let right := alien_swarm_position s
               >? size_t (alien_swarm_max_position s - of_int (alien_move_dir s)) in
  alien_move_dir s' = (if left || right then alien_move_dir s * -1 else alien_move_dir s) /\
  alien_swarm_position s' = size_t (alien_swarm_position s + of_int (alien_move_dir s')) /\
  alien_update_timer s' = 0 /\
  forall i alien, get (aliens (game s)) i = Done alien ->
    get (aliens (game s')) i =
    Done (if i <? num_aliens (game s)
          then Alien.mk (size_t (Alien.x alien + of_int (alien_move_dir s')))
                        (if left then size_t (Alien.y alien - 8) else Alien.y alien)
                        (Alien.type alien)
          else alien).
Proof.
  intros Hdue Hn H left right. unfold formation_step in H.
  assert (Hdue' : (alien_update_timer s >=? alien_update_frequency s) = true)
    by (apply Z.geb_le; lia).
  rewrite Hdue' in H.
  apply bind_done in H. destruct H as [s1 [H1 H]].
  apply bind_done in H. destruct H as [s3 [H3 H]].
  cbn [set_alien_update_timer alien_swarm_position alien_move_dir alien_swarm_max_position]
    in H1.
  fold left in H1. fold right in H1.
  assert (Hs1 : exists l1,
            s1 = with_game (set_aliens l1)
                   (set_alien_move_dir
                      (if left || right then alien_move_dir s * -1 else alien_move_dir s)
                      (set_alien_update_timer 0 s)) /\
            length l1 = length (aliens (game s)) /\
            forall i alien, get (aliens (game s)) i = Done alien ->
              get l1 i =
              Done (if i <? num_aliens (game s)
                    then Alien.mk (Alien.x alien)
                           (if left then size_t (Alien.y alien - 8) else Alien.y alien)
                           (Alien.type alien)
                    else alien)).
  { destruct left.
    - cbn [orb].
      destruct (descend_rounds
                  (set_alien_move_dir (alien_move_dir s * -1) (set_alien_update_timer 0 s)))
        as [l1 [Hrun [Hl Hget]]]; [exact Hn|].
      rewrite Hrun in H1. injection H1 as <-. exists l1.
      split; [reflexivity|]. split; [exact Hl | exact Hget].
    - cbn [orb]. exists (aliens (game s)).
      split; [|split; [reflexivity|]].
      + destruct right; injection H1 as <-; symmetry;
          [exact (set_aliens_same
                    (set_alien_move_dir (alien_move_dir s * -1) (set_alien_update_timer 0 s)))
          | exact (set_aliens_same (set_alien_move_dir (alien_move_dir s)
                                      (set_alien_update_timer 0 s)))].
      + intros i alien Halien. rewrite Halien.
        destruct (i <? num_aliens (game s)); [destruct alien|]; reflexivity. }
  destruct Hs1 as [l1 [-> [Hl1 Hget1]]].
  set (dir' := if left || right then alien_move_dir s * -1 else alien_move_dir s) in *.
  cbn [with_game set_game game set_aliens aliens set_alien_move_dir set_alien_update_timer
       alien_swarm_position alien_move_dir] in H3.
  match type of H3 with for_each _ _ _ ?s2 = _ =>
    destruct (march_rounds s2) as [l3 [Hrun Hget3]];
      [cbn [with_game set_game game set_aliens aliens set_alien_move_dir
            set_alien_update_timer set_alien_swarm_position num_aliens]; lia|];
    rewrite Hrun in H3; clear Hrun
  end.
  injection H3 as <-.
  cbn [with_game set_game game set_aliens aliens set_alien_move_dir set_alien_update_timer
       set_alien_swarm_position alien_swarm_position alien_move_dir num_aliens] in Hget3.
  assert (Hfields :
            alien_move_dir s' = dir' /\
            alien_swarm_position s' = size_t (alien_swarm_position s + of_int dir') /\
            alien_update_timer s' = 0 /\ aliens (game s') = l3).
  { apply alien_fire_result in H. destruct H as [->|[r [l [n ->]]]]; repeat split. }
  destruct Hfields as [Hd [Hp [Ht Ha]]].
  rewrite Hd, Hp, Ht, Ha. repeat split.
  intros i alien Halien.
  rewrite (Hget3 i _ (Hget1 i alien Halien)).
  destruct (i <? num_aliens (game s)); reflexivity.
Qed.

Lemma formation_step_moves_block_witness :
  exists s',
    formation_step patience (set_alien_update_timer 120 initial) = Done s' /\
    alien_move_dir s' = 4 /\ alien_swarm_position s' = 28 /\
    get (aliens (game s')) 0 = Done (Alien.mk 28 128 3).
Proof.
  destruct (formation_step patience (set_alien_update_timer 120 initial)) as [s'| |] eqn:E;
    [|vm_compute in E; discriminate..].
  destruct (formation_step_moves_block patience (set_alien_update_timer 120 initial) s')
    as [Hd [Hp [_ Hget]]];
    [vm_compute; discriminate | vm_compute; split; discriminate | exact E |].
  exists s'. split; [reflexivity|]. split; [exact Hd|]. split; [rewrite Hp, Hd; reflexivity|].
  rewrite (Hget 0 (Alien.mk 24 128 3) eq_refl), Hd. reflexivity.
Defined.

(** * The hit of a player bullet *)

Lemma check_hit_clear (i k : Z) (s : Sim) (b : Bullet.t) (other : Alien.t) :
  get (bullets (game s)) i = Done b ->
  get (aliens (game s)) k = Done other -> clear_of b other s ->
  check_hit i k s = Done (Next, s).
Proof.
  intros Hb Hother [Hdead|[sprite [Hsprite Hclear]]]; unfold check_hit; rewrite Hother; cbn [bind].
  - rewrite Hdead, Z.eqb_refl. reflexivity.
  - destruct (Alien.type other =? DEAD); [reflexivity|].
    rewrite Hsprite. cbn [bind]. rewrite Hb. cbn [bind]. rewrite Hclear. reflexivity.
Qed.

Lemma clear_of_test (b : Bullet.t) (other : Alien.t) (s : Sim) :
  (Alien.type other =? DEAD) ||
  match current_sprite s (Alien.type other) with
  | Done sprite =>
      negb (sprite_overlap_check bullet_sprite (Bullet.x b) (Bullet.y b)
              sprite (Alien.x other) (Alien.y other))
  | _ => false
  end = true ->
  clear_of b other s.
Proof.
  intros H. apply orb_true_iff in H. destruct H as [H|H].
  - left. apply Z.eqb_eq. exact H.
  - right. destruct (current_sprite s (Alien.type other)) as [sprite| |]; try discriminate.
    exists sprite. split; [reflexivity|]. apply negb_true_iff. exact H.
Qed.

Lemma first_rounds {A : Type} (l : list A) :
  forall (n k : nat) (a : A), (k < n)%nat -> nth_error l k = Some a -> In a (firstn n l).
Proof.
  induction l as [|b l IH]; intros [|n] [|k] a Hk H; cbn [nth_error firstn] in *;
    try discriminate; try lia.
  - injection H as ->. left. reflexivity.
  - right. apply (IH n k); [lia | exact H].
Qed.

(** The rounds of "Check hit" up to the first alien that stops the bullet. *)
Lemma check_hits_reach (i j : Z) (s : Sim) (b : Bullet.t) (n : nat) :
  get (bullets (game s)) i = Done b ->
  forall k,
  0 <= k <= j -> j < k + Z.of_nat n ->
  (forall k', k <= k' < j ->
     exists other, get (aliens (game s)) k' = Done other /\ clear_of b other s) ->
  for_each n k (check_hit i) s
  = ('(c, s') <- check_hit i j s ;;
     match c with Break => Done s' | Next => for_each (n - S (Z.to_nat (j - k))) (j + 1) (check_hit i) s' end).
Proof.
  intros Hb. induction n as [|n IH]; intros k Hk Hn Hclear; [lia|].
  cbn [for_each]. destruct (Z.eq_dec k j) as [->|Hne].
  - replace (S n - S (Z.to_nat (j - j)))%nat with n by lia. reflexivity.
  - destruct (Hclear k) as [other [Hother Hc]]; [lia|].
    rewrite (check_hit_clear i k s b other Hb Hother Hc). cbn [bind].
    rewrite (IH (k + 1)); [|lia|lia|intros k' Hk'; apply Hclear; lia].
    replace (S n - S (Z.to_nat (j - k)))%nat with (n - S (Z.to_nat (j - (k + 1))))%nat by lia.
    reflexivity.
Qed.

(** With nothing in the way of the bullet, "Check hit" changes nothing. *)
Lemma check_hits_miss (i : Z) (s : Sim) (b : Bullet.t) :
  get (bullets (game s)) i = Done b ->
  (forall k, 0 <= k < num_aliens (game s) ->
     exists other, get (aliens (game s)) k = Done other /\ clear_of b other s) ->
  check_hits i s = Done s.
Proof.
  intros Hb Hclear. unfold check_hits, all_aliens.
  assert (Hrounds : forall (n : nat) k,
            0 <= k -> k + Z.of_nat n <= Z.max 0 (num_aliens (game s)) ->
            for_each n k (check_hit i) s = Done s).
  { induction n as [|n IH]; intros k Hk Hn; [reflexivity|].
    cbn [for_each]. destruct (Hclear k) as [other [Hother Hc]]; [lia|].
    rewrite (check_hit_clear i k s b other Hb Hother Hc). cbn [bind]. apply IH; lia. }
  apply Hrounds; lia.
Qed.

(** C4. Bullet [i] of the player meets, in index order, first aliens that do
    not stop it and then the alien [j], alive, whose frame on screen overlaps
    it.  Then "Check hit" ends normally and has hit that alien and no other,
    whatever stands behind it: the score has grown by [10 * (4 - kind)] (30,
    20, 10 for kinds 1, 2, 3), the alien is Dead and its x has moved left by
    half of (death sprite width - frame width), every other alien is as it
    was, the slot of the bullet holds the last counted bullet and the count
    is one less, the kill count is one more, and the ramp flag is set exactly
    when the new kill count is a multiple of 15 (a flag already set stays
    set).  The player is untouched.  Unsigned results are reduced modulo 2^64
    as in the source. *)
Theorem player_bullet_hit (i j : Z) (s : Sim) (alien : Alien.t) (alien_sprite : Sprite)
        (b last : Bullet.t) :
  0 <= j < num_aliens (game s) ->
  get (bullets (game s)) i = Done b ->
  (forall k, 0 <= k < j ->
     exists other, get (aliens (game s)) k = Done other /\ clear_of b other s) ->
  get (aliens (game s)) j = Done alien ->
  Alien.type alien <> DEAD ->
  current_sprite s (Alien.type alien) = Done alien_sprite ->
  sprite_overlap_check bullet_sprite (Bullet.x b) (Bullet.y b)
                       alien_sprite (Alien.x alien) (Alien.y alien) = true ->
  get (bullets (game s)) (size_t (num_bullets (game s) - 1)) = Done last ->
  exists s',
    check_hits i s = Done s' /\
    score s' = size_t (score s + of_int (10 * (4 - Alien.type alien))) /\
    (ALIEN1 <= Alien.type alien <= ALIEN3 -> 0 <= score s -> score s + 30 < 2 ^ 64 ->
     score s' = score s + 10 * (4 - Alien.type alien)) /\
    aliens (game s') =
      replace (aliens (game s)) (Z.to_nat j)
        (Alien.mk (size_t (Alien.x alien
                    - size_t (sprite_width alien_death_sprite - sprite_width alien_sprite) / 2))
                  (Alien.y alien) DEAD) /\
    num_bullets (game s') = size_t (num_bullets (game s) - 1) /\
    bullets (game s') = replace (bullets (game s)) (Z.to_nat i) last /\
    aliens_killed s' = aliens_killed s + 1 /\
    should_change_speed s' =
      should_change_speed s || (Z.rem (aliens_killed s + 1) 15 =? 0) /\
    player (game s') = player (game s).
Proof.
  intros Hj Hb Hclear Halien Hlive Hsprite Hover Hlast.
  pose proof (get_range _ _ _ Halien) as Hjr.
  pose proof (get_range _ _ _ Hb) as Hir.
  assert (Hhit : exists s', hit_alien i j alien_sprite s = Done s').
  { unfold hit_alien. rewrite Halien. fields.
    rewrite put_in_range by exact Hjr. fields.
    unfold remove_bullet. fields.
    rewrite Hlast. fields. rewrite put_in_range by exact Hir. fields.
    eexists. reflexivity. }
  destruct Hhit as [s' Hhit]. exists s'.
  assert (Hrun : check_hits i s = Done s').
  { unfold check_hits, all_aliens.
    rewrite (check_hits_reach i j s b _ Hb 0); [|lia|lia|exact Hclear].
    unfold check_hit at 1. rewrite Halien. cbn [bind].
    destruct (Z.eqb_spec (Alien.type alien) DEAD) as [Hd|_]; [contradiction|].
    rewrite Hsprite. cbn [bind]. rewrite Hb. cbn [bind]. rewrite Hover, Hhit. reflexivity. }
  split; [exact Hrun|].
  destruct (hit_alien_effect i j alien_sprite alien s s' Halien Hhit)
    as [Hscore [Haliens [Hn [[last' [Hlast' Hbullets]] [Hk [Hflag Hplayer]]]]]].
  split; [exact Hscore|]. split.
  { intros Hkind H0 Hmax. rewrite Hscore.
    unfold ALIEN1, ALIEN3 in Hkind.
    rewrite (of_int_small (10 * (4 - Alien.type alien))) by lia.
    apply size_t_small. lia. }
  split; [exact Haliens|]. split; [exact Hn|]. split.
  { rewrite Hbullets. congruence. }
  split; [exact Hk|]. split; [exact Hflag | exact Hplayer].
Qed.

Lemma player_bullet_hit_witness :
  exists s',
    check_hits 0 one_shot = Done s' /\
    score s' = 30 /\ aliens_killed s' = 1 /\ num_bullets (game s') = 0 /\
    aliens (game s') = replace (aliens (game one_shot)) 44 (Alien.mk 24 196 DEAD).
Proof.
  destruct (player_bullet_hit 0 44 one_shot (Alien.mk 26 196 1) (mkSprite 8 8)
              (Bullet.mk 28 196 2) (Bullet.mk 28 196 2))
    as [s' [Hrun [Hscore [_ [Haliens [Hn [_ [Hk _]]]]]]]].
  - split; [discriminate | reflexivity].
  - reflexivity.
  - intros k Hk.
    destruct (get_done (aliens (game one_shot)) k) as [other Hother];
      [change (length (aliens (game one_shot))) with 55%nat; lia|].
    exists other. split; [exact Hother|].
    assert (Hrows : Forall (fun a => clear_of (Bullet.mk 28 196 2) a one_shot)
                           (firstn 44 (aliens (game one_shot)))).
    { apply Forall_forall. intros a Ha. apply clear_of_test.
      assert (Hall : forallb (fun a =>
                        (Alien.type a =? DEAD) ||
                        match current_sprite one_shot (Alien.type a) with
                        | Done sprite =>
                            negb (sprite_overlap_check bullet_sprite 28 196
                                    sprite (Alien.x a) (Alien.y a))
                        | _ => false
                        end)
                       (firstn 44 (aliens (game one_shot))) = true)
        by (vm_compute; reflexivity).
      rewrite forallb_forall in Hall. exact (Hall a Ha). }
    rewrite Forall_forall in Hrows. apply Hrows.
    apply get_nth_error in Hother.
    apply (first_rounds _ 44 (Z.to_nat k)); [lia | exact Hother].
  - reflexivity.
  - discriminate.
  - reflexivity.
  - reflexivity.
  - reflexivity.
  - exists s'. split; [exact Hrun|]. split; [exact Hscore|].
    split; [exact Hk|]. split; [exact Hn | exact Haliens].
Defined.

(** * The motion of the player under the keys GLFW reports *)

(** ** Only the motion step moves the player *)

Tactic Notation "stands" :=
  unfold stand;
  cbn -[Z.mul Z.add Z.sub Z.pow Z.div Z.rem Z.modulo size_t of_int to_int replace length map].

Ltac same_stand :=
  repeat match goal with |- context [if ?c then _ else _] => destruct c end;
  stands; reflexivity.

Ltac loop_stand body_stand :=
  match goal with
  | H : for_each _ _ ?body ?s = Done _ |- _ =>
      apply (for_each_keeps (fun s0 => stand s0 = stand s) body) in H;
      [| let Hs := fresh in let Hb := fresh in
         intros ? ? ? ? Hs Hb; rewrite <- Hs; eapply body_stand; exact Hb
       | reflexivity]
  end.

Lemma update_alien_position_stand (i : Z) (s : Sim) (c : flow) (s' : Sim) :
  update_alien_position i s = Done (c, s') -> stand s' = stand s.
Proof. unfold update_alien_position, umod. intros H. run H; same_stand. Qed.

Lemma update_aliens_position_stand (s s' : Sim) :
  update_aliens_position s = Done s' -> stand s' = stand s.
Proof.
  unfold update_aliens_position. intros H. run H; [|reflexivity].
  loop_stand update_alien_position_stand. rewrite H. reflexivity.
Qed.

Lemma remove_bullet_stand (i : Z) (s s' : Sim) :
  remove_bullet i s = Done s' -> stand s' = stand s.
Proof. unfold remove_bullet. intros H. run H. same_stand. Qed.

Lemma hit_alien_stand (i j : Z) (sp : Sprite) (s s' : Sim) :
  hit_alien i j sp s = Done s' -> stand s' = stand s.
Proof.
  unfold hit_alien. intros H. run H.
  match goal with E : remove_bullet _ _ = Done _ |- _ => apply remove_bullet_stand in E;
    etransitivity; [|etransitivity; [exact E|]]; same_stand end.
Qed.

Lemma check_hit_stand (i j : Z) (s : Sim) (c : flow) (s' : Sim) :
  check_hit i j s = Done (c, s') -> stand s' = stand s.
Proof.
  unfold check_hit. intros H. run H; try reflexivity.
  eapply hit_alien_stand. eassumption.
Qed.

Lemma simulate_bullet_stand (i : Z) (s : Sim) (c : flow) (s' : Sim) :
  simulate_bullet i s = Done (c, s') -> stand s' = stand s.
Proof.
  unfold simulate_bullet. intros H. run H; try same_stand.
  - match goal with E : remove_bullet _ _ = Done _ |- _ => apply remove_bullet_stand in E;
      rewrite E; same_stand end.
  - match goal with E : remove_bullet _ _ = Done _ |- _ => apply remove_bullet_stand in E;
      rewrite E; same_stand end.
  - match goal with E : bullet_vs_bullet _ = Done _ |- _ =>
      unfold bullet_vs_bullet in E;
      rewrite bullet_vs_bullet_rounds in E by (rewrite Z.sub_0_r; lia);
      injection E as <- end.
    match goal with E : check_hits _ _ = Done _ |- _ => unfold check_hits in E end.
    loop_stand check_hit_stand.
    match goal with E : stand _ = stand _ |- _ => rewrite E end. same_stand.
Qed.

Lemma simulate_bullets_stand (s s' : Sim) : simulate_bullets s = Done s' -> stand s' = stand s.
Proof.
  unfold simulate_bullets. intros H.
  eapply (for_while_keeps (fun s0 => stand s0 = stand s)); [| |exact H]; [|reflexivity].
  intros i s1 c s2 Hs Hb. rewrite <- Hs. eapply simulate_bullet_stand. exact Hb.
Qed.

Lemma change_speed_stand (s : Sim) : stand (change_speed s) = stand s.
Proof. unfold change_speed. destruct (should_change_speed s); reflexivity. Qed.

Lemma count_death_stand (i : Z) (s : Sim) (c : flow) (s' : Sim) :
  count_death i s = Done (c, s') -> stand s' = stand s.
Proof. unfold count_death. intros H. run H; same_stand. Qed.

Lemma descend_stand (i : Z) (s : Sim) (c : flow) (s' : Sim) :
  descend i s = Done (c, s') -> stand s' = stand s.
Proof. unfold descend. intros H. run H. same_stand. Qed.

Lemma march_stand (i : Z) (s : Sim) (c : flow) (s' : Sim) :
  march i s = Done (c, s') -> stand s' = stand s.
Proof. unfold march. intros H. run H. same_stand. Qed.

Lemma formation_step_stand (fuel : nat) (s s' : Sim) :
  formation_step fuel s = Done s' -> stand s' = stand s.
Proof.
  unfold formation_step. intros H.
  destruct (alien_update_timer s >=? alien_update_frequency s); [|injection H as <-; reflexivity].
  apply bind_done in H. destruct H as [s1 [H1 H]].
  apply bind_done in H. destruct H as [s2 [H2 H]].
  assert (E : stand s' = stand s2).
  { apply alien_fire_result in H. destruct H as [->|[r [l [n ->]]]]; reflexivity. }
  rewrite E. clear E H.
  loop_stand march_stand. rewrite H2. clear H2.
  transitivity (stand s1); [same_stand|].
  run H1; try same_stand.
  loop_stand descend_stand. rewrite H1. same_stand.
Qed.

Lemma update_animations_stand (s : Sim) : stand (update_animations s) = stand s.
Proof. reflexivity. Qed.

Lemma track_bounds_stand (s s' : Sim) : track_bounds s = Done s' -> stand s' = stand s.
Proof. unfold track_bounds. intros H. run H; same_stand. Qed.

Lemma reset_alien_stand (xi yi : Z) (s : Sim) (c : flow) (s' : Sim) :
  reset_alien xi yi s = Done (c, s') -> stand s' = stand s.
Proof. unfold reset_alien. intros H. run H. same_stand. Qed.

Lemma reset_column_stand (xi : Z) (s : Sim) (c : flow) (s' : Sim) :
  reset_column xi s = Done (c, s') -> stand s' = stand s.
Proof.
  unfold reset_column. intros H. apply bind_done in H. destruct H as [s1 [H H']].
  injection H' as _ <-. loop_stand (reset_alien_stand xi). exact H.
Qed.

Lemma bounds_or_reset_stand (s s' : Sim) : bounds_or_reset s = Done s' -> stand s' = stand s.
Proof.
  unfold bounds_or_reset. intros H.
  destruct (of_int (aliens_killed s) <? num_aliens (game s));
    [apply track_bounds_stand; exact H|].
  unfold reset_wave in H. loop_stand reset_column_stand. rewrite H. reflexivity.
Qed.

Lemma process_events_stand (s s' : Sim) : process_events s = Done s' -> stand s' = stand s.
Proof.
  unfold process_events. intros H.
  apply bind_done in H. destruct H as [s1 [H1 H]]. injection H as <-.
  transitivity (stand s1); [reflexivity|]. run H1; same_stand.
Qed.

(** A tick moves the player by its motion step and in no other way. *)
Lemma simulate_stand (fuel : nat) (s s' : Sim) :
  simulate fuel s = Done s' ->
  exists t, stand t = stand s /\ stand s' = stand (simulate_player t).
Proof.
  unfold simulate. intros H.
  apply bind_done in H. destruct H as [s1 [H1 H]]. apply update_aliens_position_stand in H1.
  apply bind_done in H. destruct H as [s2 [H2 H]]. apply simulate_bullets_stand in H2.
  apply bind_done in H. destruct H as [s3 [H3 H]].
  unfold count_deaths in H3. loop_stand count_death_stand.
  apply bind_done in H. destruct H as [s4 [H4 H]]. apply formation_step_stand in H4.
  apply bind_done in H. destruct H as [s5 [H5 H]]. apply bounds_or_reset_stand in H5.
  apply process_events_stand in H.
  exists (update_animations s4). split.
  - rewrite update_animations_stand, H4, H3, change_speed_stand, H2. exact H1.
  - rewrite H. exact H5.
Qed.

Lemma key_callback_stays (k : key) (a : action) (s : Sim) :
  Player.x (player (game (key_callback k a s))) = Player.x (player (game s)) /\
  width (game (key_callback k a s)) = width (game s).
Proof. destruct k, a; split; reflexivity. Qed.

Lemma glfwPollEvents_stays (events : list (key * action)) (s : Sim) :
  Player.x (player (game (glfwPollEvents events s))) = Player.x (player (game s)) /\
  width (game (glfwPollEvents events s)) = width (game s).
Proof.
  unfold glfwPollEvents. revert s.
  induction events as [|[k a] events IH]; intros s; cbn [fold_left fst snd]; [split; reflexivity|].
  destruct (IH (key_callback k a s)) as [Hx Hw].
  destruct (key_callback_stays k a s) as [Hx' Hw']. split; congruence.
Qed.

(** ** The intent is that of the keys that are down *)

Lemma key_callback_intent (k : key) (a : action) (h h' : Held) (s : Sim) :
  glfw_key h (k, a) = Some h' ->
  (game_running s = true -> held_escape h = false /\ move_dir s = held_intent h) ->
  game_running (key_callback k a s) = true ->
  held_escape h' = false /\ move_dir (key_callback k a s) = held_intent h'.
Proof.
  intros Hkey Hinv Hrun.
  assert (Hwas : game_running s = true).
  { destruct (key_callback_flags k a s) as [Hflag _]. apply Hflag. exact Hrun. }
  destruct (Hinv Hwas) as [Hesc Hdir].
  destruct (key_callback_flags k a s) as [_ [_ Hmove]]. rewrite Hmove, Hdir.
  unfold held_intent in *. destruct h as [e d l]. cbn [held_escape held_d held_a] in *.
  subst e.
  destruct k, a; cbn [glfw_key held_escape held_d held_a intent_of] in Hkey |- *;
    try discriminate;
    try (destruct d; try discriminate; injection Hkey as <-;
         cbn [held_escape held_d held_a]; split; [reflexivity | destruct l; lia]);
    try (destruct l; try discriminate; injection Hkey as <-;
         cbn [held_escape held_d held_a]; split; [reflexivity | destruct d; lia]);
    try (injection Hkey as <-; cbn [held_escape held_d held_a];
         split; [reflexivity | destruct d, l; lia]).
Qed.

Lemma glfwPollEvents_intent (events : list (key * action)) :
  forall (h h' : Held) (s : Sim),
  glfw_events h events = Some h' ->
  (game_running s = true -> held_escape h = false /\ move_dir s = held_intent h) ->
  game_running (glfwPollEvents events s) = true ->
  held_escape h' = false /\ move_dir (glfwPollEvents events s) = held_intent h'.
Proof.
  unfold glfwPollEvents.
  induction events as [|[k a] events IH]; intros h h' s Hev Hinv Hrun;
    cbn [glfw_events fold_left fst snd] in *.
  - injection Hev as <-. apply Hinv. exact Hrun.
  - destruct (glfw_key h (k, a)) as [h1|] eqn:Hkey; [|discriminate].
    apply (IH h1 h' (key_callback k a s) Hev); [|exact Hrun].
    apply (key_callback_intent k a h h1 s Hkey Hinv).
Qed.

Lemma glfw_events_app (a b : list (key * action)) :
  forall h h', glfw_events h (a ++ b) = Some h' ->
               exists h1, glfw_events h a = Some h1 /\ glfw_events h1 b = Some h'.
Proof.
  induction a as [|e a IH]; intros h h' H; cbn [app glfw_events] in *; [eauto|].
  destruct (glfw_key h e) as [h1|]; [apply IH; exact H | discriminate].
Qed.

Lemma held_intent_range (h : Held) : -1 <= held_intent h <= 1.
Proof. unfold held_intent. destruct (held_d h), (held_a h); lia. Qed.

(** ** One frame, and a whole game *)

Lemma frame_moves_player (fuel : nat) (events : list (key * action)) (s s' : Sim) :
  width (game s) = 224 ->
  0 <= Player.x (player (game s)) <= 213 ->
  -1 <= move_dir s <= 1 ->
  frame fuel events s = Done s' ->
  Player.x (player (game s')) =
    (if Player.lives (player (game s)) =? 0 then Player.x (player (game s))
     else Z.max 0 (Z.min 213 (Player.x (player (game s)) + 2 * move_dir s))) /\
  0 <= Player.x (player (game s')) <= 213 /\
  width (game s') = 224 /\
  exists t, s' = glfwPollEvents events t /\
            move_dir t = move_dir s /\ game_running t = game_running s.
Proof.
  intros Hw Hx Hd H. unfold frame in H.
  destruct (Player.lives (player (game s)) =? 0).
  - injection H as <-. destruct (glfwPollEvents_stays events s) as [-> ->].
    split; [reflexivity|]. split; [exact Hx|]. split; [exact Hw|]. exists s. auto.
  - apply bind_done in H. destruct H as [s1 [H1 H]]. apply draw_same in H1. subst s1.
    apply bind_done in H. destruct H as [s2 [H2 H]]. injection H as <-.
    destruct (glfwPollEvents_stays events s2) as [-> ->].
    apply simulate_stand in H2. destruct H2 as [t [Ht H2]].
    unfold stand in Ht, H2. injection Ht as Htx Htd Htr Htw.
    assert (Hkeeps : move_dir (simulate_player t) = move_dir t /\
                     game_running (simulate_player t) = game_running t /\
                     width (game (simulate_player t)) = width (game t)).
    { unfold simulate_player. cbn [set_player_move player_move].
      repeat match goal with |- context [if ?c then _ else _] => destruct c end;
        repeat split. }
    destruct Hkeeps as [Hkd [Hkr Hkw]].
    injection H2 as H2x H2d H2r H2w.
    assert (Hcases := simulate_player_cases t).
    cbv zeta in Hcases. rewrite Htw, Htx, Htd in Hcases.
    specialize (Hcases Hw Hx).
    assert (Hclamp : Player.x (player (game (simulate_player t)))
                     = Z.max 0 (Z.min 213 (Player.x (player (game s)) + 2 * move_dir s))).
    { destruct Hcases as [[Hz E]|[[_ [Hr E]]|[[_ [Hr [Hl E]]]|[_ [Hr [Hl E]]]]]];
        rewrite E; try rewrite size_t_small in Hr by lia;
        try rewrite size_t_small by lia; lia. }
    rewrite H2x, H2w, Hkw, Htw, Hclamp.
    split; [reflexivity|]. split; [lia|]. split; [exact Hw|].
    exists s2. split; [reflexivity|]. split; congruence.
Qed.

Lemma main_loop_player (fuel : nat) (input : list (list (key * action))) :
  forall (h h' : Held) (s s' : Sim),
  width (game s) = 224 ->
  0 <= Player.x (player (game s)) <= 213 ->
  (game_running s = true -> held_escape h = false /\ move_dir s = held_intent h) ->
  glfw_events h (concat input) = Some h' ->
  main_loop fuel input s = Done s' ->
  game_running s' = true ->
  width (game s') = 224 /\
  0 <= Player.x (player (game s')) <= 213 /\
  held_escape h' = false /\ move_dir s' = held_intent h'.
Proof.
  induction input as [|events input IH]; intros h h' s s' Hw Hx Hinv Hev H Hrun;
    cbn [main_loop concat] in *.
  - injection H as <-. cbn [glfw_events] in Hev. injection Hev as <-.
    split; [exact Hw|]. split; [exact Hx|]. apply Hinv. exact Hrun.
  - destruct (game_running s) eqn:Hs; [|injection H as <-; congruence].
    apply bind_done in H. destruct H as [s1 [H1 H]].
    apply glfw_events_app in Hev. destruct Hev as [h1 [Hev1 Hev]].
    destruct (Hinv eq_refl) as [Hesc Hdir].
    pose proof (held_intent_range h) as Hrange.
    destruct (frame_moves_player fuel events s s1 Hw Hx ltac:(lia) H1)
      as [_ [Hx1 [Hw1 [t [-> [Htd Htr]]]]]].
    apply (IH h1 h' _ s' Hw1 Hx1); [|exact Hev|exact H|exact Hrun].
    apply (glfwPollEvents_intent events h h1 t Hev1).
    intros _. rewrite Htd. split; assumption.
Qed.

(** C10. In every game that the keys can produce, the keys reported as GLFW
    reports them, a frame starts with the intent of the keys that are held
    down, -1, 0 or 1, and with the player on the field.  The motion step then
    puts the player at [x + 2 * move_dir] clamped to the field: a move that
    would cross a bound ends on that bound, and [0 <= x <= 213] holds again.
    This is where every frame that ends leaves the player, nothing else moves
    it (in a frame with no life left nothing moves at all). *)
Theorem player_motion_is_clamped (fuel : nat) (input : list (list (key * action)))
        (h : Held) (s : Sim) :
  glfw_events released (concat input) = Some h ->
  main_loop fuel input initial = Done s ->
  game_running s = true ->
  move_dir s = held_intent h /\ -1 <= move_dir s <= 1 /\
  width (game s) = 224 /\
  0 <= Player.x (player (game s)) <= 213 /\
  Player.x (player (game (simulate_player s)))
  = Z.max 0 (Z.min 213 (Player.x (player (game s)) + 2 * move_dir s)) /\
  0 <= Player.x (player (game (simulate_player s))) <= 213 /\
  forall events s',
    frame fuel events s = Done s' ->
    Player.x (player (game s')) =
      (if Player.lives (player (game s)) =? 0 then Player.x (player (game s))
       else Player.x (player (game (simulate_player s)))) /\
    0 <= Player.x (player (game s')) <= 213.
Proof.
  intros Hev Hloop Hrun.
  destruct (main_loop_player fuel input released h initial s) as [Hw [Hx [_ Hdir]]];
    [reflexivity | vm_compute; split; discriminate | intros _; split; reflexivity
     | exact Hev | exact Hloop | exact Hrun |].
  pose proof (held_intent_range h) as Hrange.
  assert (Hclamp : Player.x (player (game (simulate_player s)))
                   = Z.max 0 (Z.min 213 (Player.x (player (game s)) + 2 * move_dir s))).
  { destruct (simulate_player_cases s Hw Hx)
      as [[Hz E]|[[_ [Hr E]]|[[_ [Hr [Hl E]]]|[_ [Hr [Hl E]]]]]];
      rewrite E; try rewrite size_t_small in Hr by lia;
      try rewrite size_t_small by lia; lia. }
  split; [exact Hdir|]. split; [lia|]. split; [exact Hw|]. split; [exact Hx|].
  split; [exact Hclamp|]. split; [lia|].
  intros events s' Hframe.
  destruct (frame_moves_player fuel events s s' Hw Hx ltac:(lia) Hframe) as [Hx' [Hr' _]].
  split; [|exact Hr']. rewrite Hx', Hclamp. reflexivity.
Qed.

Lemma player_motion_is_clamped_witness :
  exists s,
    main_loop patience hold_left initial = Done s /\
    Player.x (player (game s)) = 1 /\ move_dir s = -1 /\
    Player.x (player (game (simulate_player s))) = 0.
Proof.
  destruct (main_loop patience hold_left initial) as [s| |] eqn:Es;
    [|vm_compute in Es; discriminate..].
  assert (Hs : Player.x (player (game s)) = 1 /\ move_dir s = -1 /\ game_running s = true).
  { vm_compute in Es. injection Es as <-. repeat split. }
  destruct Hs as [Hx [Hd Hrun]].
  exists s. split; [reflexivity|]. split; [exact Hx|]. split; [exact Hd|].
  destruct (player_motion_is_clamped patience hold_left (mkHeld false false true) s)
    as [_ [_ [_ [_ [Hx' _]]]]]; [reflexivity | exact Es | exact Hrun |].
  rewrite Hx', Hx, Hd. reflexivity.
Defined.
